(** * lib_mic_array: the reference model of the two-stage decimator

    A shallow embedding of [script/mic_array/filters.py]: the 256-bit
    binary correlator [VLMACCR1], the first stage ([Stage1Filter], int16
    coefficients, PDM input), the second stage ([Stage2Filter], int32
    coefficients and the derived right shift), their composition
    ([TwoStageFilter]) and the coefficient truncation done by [load].

    Conventions of the embedding.
    - A Python exception is a value [Raise e]; every function that can raise
      returns a [result].
    - NumPy integers of width [w] are [Z] with the wrap-around written out
      ([wrap]).
    - A float64 is a rational, an infinity or NaN ([Float64.f64]); every
      operation rounds the exact result to the binary64 format, ties to even.
      Signed zeros are not distinguished.
    - A one-dimensional array is a list, a two-dimensional array the list of
      its rows; the shape (0, n) is identified with (0, 0). *)

From Stdlib Require Import ZArith QArith Qround Qabs Qpower List Lia Lqa Bool.
Import ListNotations.

Local Open Scope Z_scope.

(** ** Exceptions *)

Inductive exn : Type :=
| AssertionError
| ValueError
| ZeroDivisionError
| OverflowError
| IndexError.

Inductive result (A : Type) : Type :=
| Ok (a : A)
| Raise (e : exn).

Arguments Ok {A} a.
Arguments Raise {A} e.

Definition bind {A B : Type} (r : result A) (k : A -> result B) : result B :=
  match r with
  | Ok a => k a
  | Raise e => Raise e
  end.

Notation "x <- r ;; k" := (bind r (fun x => k))
  (at level 61, r at next level, right associativity).

(** [assert c] of Python. *)
Definition assert (c : bool) : result unit :=
  if c then Ok tt else Raise AssertionError.

(** ** Fixed-width integers *)

(** The value of [z] read as a signed two's complement integer of [w] bits. *)
Definition wrap (w : Z) (z : Z) : Z :=
  (z + 2 ^ (w - 1)) mod 2 ^ w - 2 ^ (w - 1).

Definition int16 (z : Z) : Z := wrap 16 z.
Definition int32 (z : Z) : Z := wrap 32 z.
Definition int64 (z : Z) : Z := wrap 64 z.
Definition uint32 (z : Z) : Z := z mod 2 ^ 32.

Definition in_range (w : Z) (z : Z) : bool :=
  (- 2 ^ (w - 1) <=? z) && (z <? 2 ^ (w - 1)).

(** ** Lists as one-dimensional arrays *)

Definition len {A : Type} (l : list A) : Z := Z.of_nat (length l).

Definition np_sum (l : list Z) : Z := fold_left Z.add l 0.

(** Elementwise combination of two arrays of the same shape. *)
Definition zip_with {A B C : Type} (f : A -> B -> C) (a : list A) (b : list B)
  : list C :=
  map (fun p => f (fst p) (snd p)) (combine a b).

(** ** VLMACCR1 *)

(** [q = np.int(1)*(~(vC == mem))]: one where the two vectors differ. *)
Definition differ (a b : Z) : Z := 1 * Z.b2z (negb (a =? b)).

Definition VLMACCR1 (vC mem : list Z) (acc : Z) : result Z :=
  _ <- assert (len vC =? 256) ;;
  _ <- assert (len mem =? 256) ;;
  let q := zip_with differ vC mem in
  let popcount_xor := np_sum q in
  Ok (acc + (128 - popcount_xor)).

(** The words of the specification: the population count of [a XOR b], and
    the complement of a binary vector. *)
Definition popcount (v : list Z) : Z := np_sum v.
Definition vxor (a b : list Z) : list Z := zip_with Z.lxor a b.
Definition complement (a : list Z) : list Z := map (fun x => 1 - x) a.
Definition is_bit (x : Z) : Prop := x = 0 \/ x = 1.

(** ** float64 *)

Module Float64.

(** A float64 value: a finite number (always one that binary64 represents
    when it comes out of an operation below), an infinity or NaN. *)
Inductive f64 : Type :=
| Fin (q : Q)
| Inf (neg : bool)
| NaN.

Definition pow2 (e : Z) : Q := Qpower 2 e.

Definition Qneg_bool (x : Q) : bool := negb (Qle_bool 0 x).

(** [floor (log2 |x|)] of a nonzero rational: the quotient of the bit
    lengths is right up to one, which the comparison settles. *)
Definition ilog2 (x : Q) : Z :=
  let e := Z.log2 (Z.abs (Qnum x)) - Z.log2 (Zpos (Qden x)) in
  if Qle_bool (pow2 e) (Qabs x) then e else e - 1.

(** Round to the nearest integer, ties to the even one (C's [rint], which
    [np.round] applies to a float array). *)
Definition rint (x : Q) : Z :=
  let f := Qfloor x in
  match Qcompare (x - inject_Z f) (1 # 2) with
  | Lt => f
  | Gt => f + 1
  | Eq => if Z.even f then f else f + 1
  end.

(** Round a rational to the binary64 grid: 53 significant bits, the unit
    in the last place never below [2^-1074], ties to even. *)
Definition rnd53 (x : Q) : Q :=
  if Qeq_bool x 0 then 0%Q
  else
    let e := Z.max (ilog2 x - 52) (-1074) in
    (inject_Z (rint (x / pow2 e)) * pow2 e)%Q.

(** The largest finite float64, [(2^53 - 1) * 2^971]. *)
Definition max_f64 : Q := inject_Z ((2 ^ 53 - 1) * 2 ^ 971).

(** The float64 result of an operation whose exact value is [x]. *)
Definition round (x : Q) : f64 :=
  let y := rnd53 x in
  if Qle_bool (Qabs y) max_f64 then Fin y else Inf (Qneg_bool x).

Definition is_zero (x : Q) : bool := Qeq_bool x 0.

Definition fmul (a b : f64) : f64 :=
  match a, b with
  | NaN, _ | _, NaN => NaN
  | Fin x, Fin y => round (x * y)
  | Inf s, Fin y => if is_zero y then NaN else Inf (xorb s (Qneg_bool y))
  | Fin x, Inf s => if is_zero x then NaN else Inf (xorb s (Qneg_bool x))
  | Inf s, Inf s' => Inf (xorb s s')
  end.

Definition fdiv (a b : f64) : f64 :=
  match a, b with
  | NaN, _ | _, NaN => NaN
  | Fin x, Fin y =>
      if is_zero y then (if is_zero x then NaN else Inf (Qneg_bool x))
      else round (x / y)
  | Inf s, Fin y => Inf (xorb s (Qneg_bool y))
  | Fin _, Inf _ => Fin 0
  | Inf _, Inf _ => NaN
  end.

Definition fadd (a b : f64) : f64 :=
  match a, b with
  | NaN, _ | _, NaN => NaN
  | Fin x, Fin y => round (x + y)
  | Inf s, Fin _ => Inf s
  | Fin _, Inf s => Inf s
  | Inf s, Inf s' => if Bool.eqb s s' then Inf s else NaN
  end.

(** Conversion of an integer to float64. *)
Definition of_int (z : Z) : f64 := round (inject_Z z).

(** [np.round] of a float. *)
Definition np_round (a : f64) : f64 :=
  match a with
  | Fin x => Fin (inject_Z (rint x))
  | _ => a
  end.

(** Truncation toward zero. *)
Definition trunc (x : Q) : Z :=
  if Qle_bool 0 x then Qfloor x else Qceiling x.

(** The conversion of a double to a signed integer of [w] bits as the
    x86-64 instruction [cvttsd2si] does it: truncation, and the "integer
    indefinite" value [-2^(w-1)] for NaN, the infinities and whatever does
    not fit. *)
Definition cvttsd2si (w : Z) (a : f64) : Z :=
  match a with
  | Fin x => let z := trunc x in
             if in_range w z then z else - 2 ^ (w - 1)
  | _ => - 2 ^ (w - 1)
  end.

(** [.astype(np.int16)], [.astype(np.int32)] and [.astype(np.int64)] of a
    float array element: a C cast, the narrow one through 32 bits. *)
Definition astype_int16 (a : f64) : Z := int16 (cvttsd2si 32 a).
Definition astype_int32 (a : f64) : Z := cvttsd2si 32 a.
Definition astype_int64 (a : f64) : Z := cvttsd2si 64 a.

End Float64.

(** ** Element types of arrays *)

(** What the filters need of a NumPy dtype: zero, the arithmetic of a dot
    product and the cast of an integer ([.astype(dtype)]). *)
Class Dtype (A : Type) : Type := {
  zero : A;
  add : A -> A -> A;
  mul : A -> A -> A;
  of_Z : Z -> A
}.

Definition Int32 : Dtype Z :=
  {| zero := 0;
     add := fun a b => int32 (a + b);
     mul := fun a b => int32 (a * b);
     of_Z := int32 |}.

Definition Int64 : Dtype Z :=
  {| zero := 0;
     add := fun a b => int64 (a + b);
     mul := fun a b => int64 (a * b);
     of_Z := int64 |}.

Definition Float : Dtype Float64.f64 :=
  {| zero := Float64.Fin 0;
     add := Float64.fadd;
     mul := Float64.fmul;
     of_Z := Float64.of_int |}.

(** ** Loops *)

Definition range (n : Z) : list Z := map Z.of_nat (seq 0 (Z.to_nat n)).

Fixpoint mapM {A B : Type} (f : A -> result B) (l : list A) : result (list B) :=
  match l with
  | [] => Ok []
  | a :: l' => b <- f a ;; bs <- mapM f l' ;; Ok (b :: bs)
  end.

(** [for i in l: s = body(i, s)]. *)
Fixpoint for_each {I S : Type} (l : list I) (body : I -> S -> result S) (s : S)
  : result S :=
  match l with
  | [] => Ok s
  | i :: l' => s' <- body i s ;; for_each l' body s'
  end.

(** [a // b] of Python integers. *)
Definition floordiv (a b : Z) : result Z :=
  if b =? 0 then Raise ZeroDivisionError else Ok (a / b).

(** ** Arrays *)

Inductive ndarray (A : Type) : Type :=
| Arr1 (v : list A)
| Arr2 (rows : list (list A)).

Arguments Arr1 {A} v.
Arguments Arr2 {A} rows.

Section Arrays.

Context {A : Type}.

(** [a[np.newaxis,:]] when [a.ndim == 1]. *)
Definition atleast_2d (a : ndarray A) : list (list A) :=
  match a with
  | Arr1 v => [v]
  | Arr2 rows => rows
  end.

Definition shape (a : list (list A)) : Z * Z :=
  (len a, match a with [] => 0 | r :: _ => len r end).

(** [np.zeros((rows, cols))]. *)
Definition zeros (z : A) (rows cols : Z) : result (list (list A)) :=
  if (rows <? 0) || (cols <? 0) then Raise ValueError
  else Ok (repeat (repeat z (Z.to_nat cols)) (Z.to_nat rows)).

(** A bound of a Python slice over [n] elements: negative bounds count from
    the end, and all are clipped to [0, n]. *)
Definition slice_bound (n dflt : Z) (i : option Z) : Z :=
  match i with
  | None => dflt
  | Some i => if i <? 0 then Z.max 0 (i + n) else Z.min i n
  end.

(** [l[start:stop]]. *)
Definition slice (l : list A) (start stop : option Z) : list A :=
  let n := len l in
  let a := slice_bound n 0 start in
  let b := slice_bound n n stop in
  firstn (Z.to_nat (b - a)) (skipn (Z.to_nat a) l).

(** [l[start:stop] = src]: the source must have the length of the slice, or
    one element, which is then repeated. *)
Definition set_slice (l : list A) (start stop : option Z) (src : list A)
  : result (list A) :=
  let n := len l in
  let a := slice_bound n 0 start in
  let b := slice_bound n n stop in
  let m := Z.max 0 (b - a) in
  let head := firstn (Z.to_nat a) l in
  let tail := skipn (Z.to_nat (a + m)) l in
  if len src =? m then Ok (head ++ src ++ tail)
  else match src with
       | [x] => Ok (head ++ repeat x (Z.to_nat m) ++ tail)
       | _ => Raise ValueError
       end.

(** [S[:, start:stop] = v] for a one-dimensional [v]. *)
Definition set_cols_1d (S : list (list A)) (start stop : option Z)
    (v : list A) : result (list (list A)) :=
  mapM (fun row => set_slice row start stop v) S.

(** [S[:, start:stop] = M] for a two-dimensional [M] of as many rows. *)
Definition set_cols_2d (S : list (list A)) (start stop : option Z)
    (M : list (list A)) : result (list (list A)) :=
  mapM (fun p => set_slice (fst p) start stop (snd p)) (combine S M).

(** [S[:, start:stop]]. *)
Definition get_cols (S : list (list A)) (start stop : option Z)
  : list (list A) :=
  map (fun row => slice row start stop) S.

(** [l[k] = x] for an index that a [range] produces (never negative): out
    of the bounds of [l] it is an error. *)
Definition update (k : nat) (x : A) (l : list A) : list A :=
  firstn k l ++ x :: skipn (S k) l.

Definition set_item (l : list A) (k : Z) (x : A) : result (list A) :=
  if (0 <=? k) && (k <? len l) then Ok (update (Z.to_nat k) x l)
  else Raise IndexError.

(** [res[:, k] = v]: one value for each row. *)
Definition set_col (res : list (list A)) (k : Z) (v : list A)
  : result (list (list A)) :=
  if negb (len v =? len res) then Raise ValueError
  else mapM (fun p => set_item (fst p) k (snd p)) (combine res v).

Context {D : Dtype A}.

Definition dot (x c : list A) : A :=
  fold_left (fun acc p => add acc (mul (fst p) (snd p))) (combine x c) zero.

(** [np.matmul(x, coefs).squeeze()] for [coefs] a column: the rows of [x]
    must be as long as the column. *)
Definition matmul (x : list (list A)) (coefs : list A) : result (list A) :=
  mapM (fun row => if len row =? len coefs then Ok (dot row coefs)
                   else Raise ValueError) x.

(** [np.arange(P)]. *)
Definition arange (P : Z) : list Z := range P.

End Arrays.

(** ** util *)

Module util.

(** Modelled from the spec: [util.py] is not among the sources. Of
    [int16_vect_to_bipolar_matrix] the specification says that "each 16-bit
    coefficient is expanded into a 16-wide row of +-1 values", from which
    the binary matrix [(1 - bipolar) / 2] gives back the bit pattern of the
    coefficient. The model takes the bit planes of the 16-bit pattern,
    the most significant first: a set bit is -1, a clear bit +1. *)
Definition int16_dual : list Z :=
  [15; 14; 13; 12; 11; 10; 9; 8; 7; 6; 5; 4; 3; 2; 1; 0].

Definition int16_vect_to_bipolar_matrix (vect : list Z) (dual : list Z)
  : list (list Z) :=
  map (fun c => map (fun b => 1 - 2 * Z.b2z (Z.testbit (c mod 2 ^ 16) b)) dual)
      vect.

End util.

(** [M.T] of a matrix of [cols] columns. *)
Definition transpose (cols : nat) (M : list (list Z)) : list (list Z) :=
  map (fun j => map (fun row => nth j row 0) M) (seq 0 cols).

(** [np.argmax] of a non-empty array of finite floats: the first index of
    the greatest element. *)
Fixpoint argmax_from (best : Q) (ibest i : nat) (l : list Q) : nat :=
  match l with
  | [] => ibest
  | x :: l' => if Qle_bool x best then argmax_from best ibest (S i) l'
               else argmax_from x i (S i) l'
  end.

Definition argmax (l : list Q) : result nat :=
  match l with
  | [] => Raise ValueError
  | x :: l' => Ok (argmax_from x 0%nat 1%nat l')
  end.

Definition UInt32 : Dtype Z :=
  {| zero := 0;
     add := fun a b => uint32 (a + b);
     mul := fun a b => uint32 (a * b);
     of_Z := uint32 |}.

(** [l.reshape((len(l) // n, n))] of a flat array. *)
Definition chunks {A : Type} (n : nat) (l : list A) : list (list A) :=
  map (fun i => firstn n (skipn (i * n) l)) (seq 0 (length l / n)).

(** ** Stage1Filter *)

Module Stage1Filter.

Import Float64.

Definition INT16_MAX_COEFFICIENT : Z := 32766.
Definition BLOCK_SIZE : Z := 256.

Record t : Type := {
  dec_factor : Z;
  coefs : list Q;
  scale_int16 : f64;
  coefs_int16 : list Z;
  coefs_bipolar : list (list Z);
  coefs_binary : list (list Z)
}.

(** The constructor. The coefficients are a one-dimensional array of finite
    floats, given by their values. *)
Definition __init__ (coefs : list Q) (decimation_factor : Z) : result t :=
  _ <- assert (len coefs mod BLOCK_SIZE =? 0) ;;
  t <- argmax (map Qabs coefs) ;;
  _ <- assert (Qle_bool (Qabs (nth t coefs 0%Q)) 1) ;;
  let scale_int16 := fdiv (of_int INT16_MAX_COEFFICIENT) (Fin (nth t coefs 0%Q)) in
  let coefs_int16 :=
    map (fun c => astype_int16 (np_round (fmul scale_int16 (Fin c)))) coefs in
  let coefs_bipolar :=
    util.int16_vect_to_bipolar_matrix coefs_int16 util.int16_dual in
  let coefs_binary :=
    map (map (fun v => (1 - v) / 2))
        (transpose (length util.int16_dual) coefs_bipolar) in
  Ok {| dec_factor := decimation_factor;
        coefs := coefs;
        scale_int16 := scale_int16;
        coefs_int16 := coefs_int16;
        coefs_bipolar := coefs_bipolar;
        coefs_binary := coefs_binary |}.

Definition DecimationFactor (self : t) : Z := dec_factor self.
Definition TapCount (self : t) : Z := len (coefs self).
Definition BlockCount (self : t) : Z := len (coefs self) / BLOCK_SIZE.
Definition Coef (self : t) : list Q := coefs self.
Definition CoefInt16 (self : t) : list Z := coefs_int16 self.
Definition ScaleInt16 (self : t) : f64 := scale_int16 self.
Definition CoefBipolar (self : t) : list (list Z) := coefs_bipolar self.
Definition CoefBinary (self : t) : list (list Z) := coefs_binary self.

(** The fill pattern of the padding: [2*(np.arange(P) % 2) - 1]. *)
Definition fill (i : Z) : Z := 2 * (i mod 2) - 1.

Definition _pad_input {A : Type} {D : Dtype A} (self : t)
    (sig_in : list (list A)) : result (list (list A)) :=
  let '(CHANS, SAMP_IN) := shape sig_in in
  let Q := DecimationFactor self in
  let P := TapCount self - Q in
  S <- zeros zero CHANS (P + SAMP_IN) ;;
  S <- set_cols_1d S None (Some P) (map (fun i => of_Z (fill i)) (arange P)) ;;
  S <- set_cols_2d S (Some P) None sig_in ;;
  Ok S.

Definition FilterFloat (self : t) (pdm_signal : ndarray f64)
  : result (list (list f64)) :=
  let pdm_signal := atleast_2d pdm_signal in
  let '(CHANS, SAMPS_IN) := shape pdm_signal in
  let Q := DecimationFactor self in
  N_pcm <- floordiv SAMPS_IN (DecimationFactor self) ;;
  S <- _pad_input (D := Float) self pdm_signal ;;
  let coefs := map Fin (Coef self) in
  res <- zeros (zero (Dtype := Float)) CHANS N_pcm ;;
  for_each (range N_pcm)
    (fun k res =>
       let x := get_cols S (Some (Q * k)) (Some (Q * k + TapCount self)) in
       v <- matmul (D := Float) x coefs ;;
       set_col res k v)
    res.

(** The signal is an int32 array. *)
Definition FilterInt16 (self : t) (pdm_signal : ndarray Z)
  : result (list (list Z)) :=
  let pdm_signal := atleast_2d pdm_signal in
  let '(CHANS, SAMPS_IN) := shape pdm_signal in
  let Q := DecimationFactor self in
  N_pcm <- floordiv SAMPS_IN (DecimationFactor self) ;;
  S <- _pad_input (D := Int32) self pdm_signal ;;
  let coefs := map int32 (CoefInt16 self) in
  res <- zeros (zero (Dtype := Int32)) CHANS N_pcm ;;
  res <- for_each (range N_pcm)
    (fun k res =>
       let x := get_cols S (Some (Q * k)) (Some (Q * k + TapCount self)) in
       v <- matmul (D := Int32) x coefs ;;
       set_col res k v)
    res ;;
  Ok (map (map (fun v => int32 (Z.shiftl v 8))) res).

(** [F = (2**np.arange(32)).astype(np.uint32)[::-1]]. *)
Definition F : list Z := rev (map (fun i => uint32 (2 ^ i)) (arange 32)).

Definition ToXCoreCoefArray (self : t) : result (list Z) :=
  let B := CoefBinary self in
  let flat := concat B in
  let size := len flat in
  (* B.reshape((B.size // 256, 8, 32)).astype(np.uint32) *)
  _ <- (if (size / 256) * 8 * 32 =? size then Ok tt else Raise ValueError) ;;
  let B := map (map (map uint32)) (chunks 8 (chunks 32 flat)) in
  let B := map (@rev (list Z)) B in
  let B := map (map (@rev Z)) B in
  (* B.reshape((B.size // 32, 32)) *)
  let B := concat B in
  let N := len B in
  let y := repeat 0 (Z.to_nat N) in
  for_each (range N)
    (fun k y => set_item y k (dot (D := UInt32) F (nth (Z.to_nat k) B [])))
    y.

End Stage1Filter.

(** ** Stage2Filter *)

Module Stage2Filter.

Import Float64.

Definition INT32_MAX_COEFFICIENT : Z := 2 ^ 31 - 1.

Record t : Type := {
  dec_factor : Z;
  coefs : list Q;
  scale_int32 : f64;
  coefs_int32 : list Z;
  shr_int32 : Z
}.

(** [np.sign(c).astype(np.int64)] scaled by [np.int64(0x7FFFFF00)]. *)
Definition signed_max (c : Z) : Z := int64 (int64 2147483392 * int64 (Z.sgn c)).

(** [np.round(c / 2**30).astype(np.int64)]. *)
Definition scaled (c : Z) : Z :=
  astype_int64 (np_round (fdiv (of_int c) (of_int (2 ^ 30)))).

Definition max_samp_out (coefs_int32 : list Z) : Z :=
  dot (D := Int64) (map signed_max coefs_int32) (map scaled coefs_int32).

(** [np.int(np.floor(np.log2(x) - k))] of an int64 [x]: the logarithm of
    zero is minus infinity and that of a negative number NaN, neither of
    which converts to an integer. For a positive [x] the floor of the
    logarithm is taken exactly. *)
Definition int_floor_log2_minus (x k : Z) : result Z :=
  if x =? 0 then Raise OverflowError
  else if x <? 0 then Raise ValueError
  else Ok (Z.log2 x - k).

Definition __init__ (coefs : list Q) (decimation_factor : Z) : result t :=
  t <- argmax (map Qabs coefs) ;;
  _ <- assert (Qle_bool (Qabs (nth t coefs 0%Q)) 1) ;;
  let scale_int32 := fdiv (of_int INT32_MAX_COEFFICIENT) (Fin (nth t coefs 0%Q)) in
  let coefs_int32 :=
    map (fun c => astype_int32 (np_round (fmul scale_int32 (Fin c)))) coefs in
  shr_int32 <- int_floor_log2_minus (max_samp_out coefs_int32) 30 ;;
  Ok {| dec_factor := decimation_factor;
        coefs := coefs;
        scale_int32 := scale_int32;
        coefs_int32 := coefs_int32;
        shr_int32 := shr_int32 |}.

Definition DecimationFactor (self : t) : Z := dec_factor self.
Definition TapCount (self : t) : Z := len (coefs self).
Definition Coef (self : t) : list Q := coefs self.
Definition CoefInt32 (self : t) : list Z := coefs_int32 self.
Definition ScaleInt32 (self : t) : f64 := scale_int32 self.
Definition ShrInt32 (self : t) : Z := shr_int32 self.

Definition _pad_input {A : Type} {D : Dtype A} (self : t)
    (sig_in : list (list A)) : result (list (list A)) :=
  let '(CHANS, SAMP_IN) := shape sig_in in
  let Q := DecimationFactor self in
  let P := TapCount self - Q in
  S <- zeros zero CHANS (P + SAMP_IN) ;;
  S <- set_cols_2d S (Some P) None sig_in ;;
  Ok S.

Definition FilterFloat (self : t) (signal_in : ndarray f64)
  : result (list (list f64)) :=
  let signal_in := atleast_2d signal_in in
  let '(CHANS, SAMPS_IN) := shape signal_in in
  let Q := DecimationFactor self in
  SAMPS_OUT <- floordiv SAMPS_IN (DecimationFactor self) ;;
  S <- _pad_input (D := Float) self signal_in ;;
  res <- zeros (zero (Dtype := Float)) CHANS SAMPS_OUT ;;
  let coefs := rev (map Fin (Coef self)) in
  for_each (range SAMPS_OUT)
    (fun k res =>
       let x := get_cols S (Some (Q * k)) (Some (Q * k + TapCount self)) in
       v <- matmul (D := Float) x coefs ;;
       set_col res k v)
    res.

(** [np.round(p * 2**(-30-shr)).astype(np.int32)] of an int64 [p]. A
    negative exponent makes [2**e] a Python float: [p] is converted to
    float64, the product rounded and cast. Otherwise [2**e] is an integer
    and the product stays in int64. *)
Definition rescale (shr : Z) (p : Z) : Z :=
  let e := - 30 - shr in
  if e <? 0 then astype_int32 (np_round (fmul (of_int p) (round (pow2 e))))
  else int32 (int64 (p * 2 ^ e)).

(** The signal is an int32 array. *)
Definition FilterInt32 (self : t) (signal_in : ndarray Z)
  : result (list (list Z)) :=
  let signal_in := atleast_2d signal_in in
  let '(CHANS, SAMPS_IN) := shape signal_in in
  let Q := DecimationFactor self in
  SAMPS_OUT <- floordiv SAMPS_IN (DecimationFactor self) ;;
  S <- _pad_input (D := Int32) self signal_in ;;
  res <- zeros (zero (Dtype := Int32)) CHANS SAMPS_OUT ;;
  let coefs := rev (map int64 (CoefInt32 self)) in
  for_each (range SAMPS_OUT)
    (fun k res =>
       let x := get_cols S (Some (Q * k)) (Some (Q * k + TapCount self)) in
       p <- matmul (D := Int64) x coefs ;;
       set_col res k (map (rescale (shr_int32 self)) p))
    res.

(** The calls a client can make on a filter once it is built, and the
    object together with the outcome after each: no method assigns to a
    field of [self]. *)
Inductive call : Type :=
| CallFilterFloat (signal_in : ndarray f64)
| CallFilterInt32 (signal_in : ndarray Z)
| CallShrInt32.

Inductive outcome : Type :=
| OutFloat (r : result (list (list f64)))
| OutInt (r : result (list (list Z)))
| OutShr (z : Z).

Definition exec (self : t) (c : call) : t * outcome :=
  match c with
  | CallFilterFloat s => (self, OutFloat (FilterFloat self s))
  | CallFilterInt32 s => (self, OutInt (FilterInt32 self s))
  | CallShrInt32 => (self, OutShr (ShrInt32 self))
  end.

Definition exec_all (self : t) (cs : list call) : t :=
  fold_left (fun s c => fst (exec s c)) cs self.

End Stage2Filter.

(** ** TwoStageFilter *)

Module TwoStageFilter.

Record t : Type := {
  s1 : Stage1Filter.t;
  s2 : Stage2Filter.t
}.

Definition __init__ (s1_filter : Stage1Filter.t) (s2_filter : Stage2Filter.t)
  : t :=
  {| s1 := s1_filter; s2 := s2_filter |}.

Definition DecimationFactor (self : t) : Z :=
  Stage1Filter.DecimationFactor (s1 self)
  * Stage2Filter.DecimationFactor (s2 self).

Definition Filter (self : t) (pdm_signal : ndarray Z)
  : result (list (list Z)) :=
  s1_output <- Stage1Filter.FilterInt16 (s1 self) pdm_signal ;;
  Stage2Filter.FilterInt32 (s2 self) (Arr2 s1_output).

End TwoStageFilter.

(** ** load *)

(** [stage1[0][:-p]] with [p = len(stage1[0]) % Stage1Filter.BLOCK_SIZE]. *)
Definition truncate (coefs : list Q) : list Q :=
  let p := len coefs mod Stage1Filter.BLOCK_SIZE in
  slice coefs None (Some (- p)).

(** [load] once the file is unpickled into the two (coefficients, decimation
    factor) pairs. *)
Definition load (stage1 stage2 : list Q * Z) (truncate_s1 : bool)
  : result (Stage1Filter.t * Stage2Filter.t) :=
  let stage1 :=
    if truncate_s1 then (truncate (fst stage1), snd stage1) else stage1 in
  s1_filter <- Stage1Filter.__init__ (fst stage1) (snd stage1) ;;
  s2_filter <- Stage2Filter.__init__ (fst stage2) (snd stage2) ;;
  Ok (s1_filter, s2_filter).

(** ** Words of the specification *)

(** The samples [a, a + t) of a padded channel. *)
Definition window {A : Type} (l : list A) (a t : nat) : list A :=
  firstn t (skipn a l).

(** A channel of the first stage behind its padding: [P] samples whose value
    at index [i] is [2 * (i mod 2) - 1]. *)
Definition padded1 {A : Type} {D : Dtype A} (P : Z) (channel : list A) : list A :=
  map (fun i => of_Z (Stage1Filter.fill i)) (range P) ++ channel.

(** A channel of the second stage behind [P] zeros. *)
Definition padded2 {A : Type} {D : Dtype A} (P : Z) (channel : list A) : list A :=
  repeat zero (Z.to_nat P) ++ channel.

(** The dot product over the integers. *)
Definition dot_exact (x c : list Z) : Z :=
  fold_left (fun acc p => acc + fst p * snd p) (combine x c) 0.

(** * Properties *)

(** ** Sums and the binary correlator *)

Lemma fold_add_acc (l : list Z) (a : Z) :
  fold_left Z.add l a = a + fold_left Z.add l 0.
Proof.
  revert a; induction l as [|x l IH]; intros a; simpl.
  - lia.
  - rewrite IH, (IH x). lia.
Qed.

Lemma np_sum_cons (x : Z) (l : list Z) : np_sum (x :: l) = x + np_sum l.
Proof. unfold np_sum; simpl. apply fold_add_acc. Qed.

Lemma zip_with_cons {A B C : Type} (f : A -> B -> C) a b la lb :
  zip_with f (a :: la) (b :: lb) = f a b :: zip_with f la lb.
Proof. reflexivity. Qed.

Lemma zip_with_length {A B C : Type} (f : A -> B -> C) la lb :
  length la = length lb -> length (zip_with f la lb) = length la.
Proof.
  intros E. unfold zip_with. rewrite length_map, length_combine, <- E.
  apply Nat.min_id.
Qed.

Lemma differ_is_xor (x y : Z) : is_bit x -> is_bit y -> differ x y = Z.lxor x y.
Proof. intros [-> | ->] [-> | ->]; reflexivity. Qed.

(** On binary vectors the count of differing places is the population
    count of the exclusive or. *)
Lemma differ_popcount (a : list Z) : forall b,
  Forall is_bit a -> Forall is_bit b ->
  np_sum (zip_with differ a b) = popcount (vxor a b).
Proof.
  unfold popcount, vxor.
  induction a as [|x a IH]; intros [|y b] Ha Hb; try reflexivity.
  inversion Ha; inversion Hb; subst.
  rewrite !zip_with_cons, !np_sum_cons, IH, differ_is_xor by assumption.
  reflexivity.
Qed.

Lemma differ_bounds (a : list Z) : forall b,
  0 <= np_sum (zip_with differ a b) <= Z.of_nat (length a).
Proof.
  induction a as [|x a IH]; intros [|y b]; try (cbn; lia).
  rewrite zip_with_cons, np_sum_cons.
  specialize (IH b).
  assert (0 <= differ x y <= 1) by (unfold differ; destruct (x =? y); simpl; lia).
  cbn [length]. rewrite Nat2Z.inj_succ. lia.
Qed.

Lemma differ_self (a : list Z) : np_sum (zip_with differ a a) = 0.
Proof.
  induction a as [|x a IH]; [reflexivity|].
  rewrite zip_with_cons, np_sum_cons, IH. unfold differ.
  rewrite Z.eqb_refl. reflexivity.
Qed.

Lemma differ_complement (a : list Z) :
  Forall is_bit a ->
  np_sum (zip_with differ a (complement a)) = Z.of_nat (length a).
Proof.
  induction 1 as [|x a Hx _ IH]; [reflexivity|].
  cbn [complement map]. fold (complement a).
  rewrite zip_with_cons, np_sum_cons, IH.
  assert (differ x (1 - x) = 1) as -> by (destruct Hx as [-> | ->]; reflexivity).
  cbn [length]. rewrite Nat2Z.inj_succ. lia.
Qed.

Lemma complement_length (a : list Z) : length (complement a) = length a.
Proof. apply length_map. Qed.

Lemma VLMACCR1_ok (a b : list Z) (acc : Z) :
  length a = 256%nat -> length b = 256%nat ->
  VLMACCR1 a b acc = Ok (acc + (128 - np_sum (zip_with differ a b))).
Proof.
  intros Ha Hb. unfold VLMACCR1, len. rewrite Ha, Hb. reflexivity.
Qed.

(** C5. For binary vectors [a] and [b] of 256 elements and any accumulator
    [acc], [VLMACCR1] returns [acc + (128 - popcount (a XOR b))]; the
    contribution [128 - popcount (a XOR b)] lies in [-128, 128]; a vector
    correlated with itself gives 128 and with its complement -128. When one
    of the two does not have exactly 256 elements the call fails on its shape
    assertion. *)
Theorem VLMACCR1_spec (a b : list Z) (acc : Z) :
  (length a = 256%nat -> length b = 256%nat ->
   Forall is_bit a -> Forall is_bit b ->
   VLMACCR1 a b acc = Ok (acc + (128 - popcount (vxor a b)))
   /\ -128 <= 128 - popcount (vxor a b) <= 128
   /\ VLMACCR1 a a 0 = Ok 128
   /\ VLMACCR1 a (complement a) 0 = Ok (-128))
  /\ (length a <> 256%nat \/ length b <> 256%nat ->
      VLMACCR1 a b acc = Raise AssertionError).
Proof.
  split.
  - intros Ha Hb Ba Bb.
    pose proof (differ_popcount a b Ba Bb) as E.
    pose proof (differ_bounds a b) as Bd. rewrite Ha in Bd.
    repeat split.
    + rewrite VLMACCR1_ok, E by assumption. reflexivity.
    + rewrite <- E. lia.
    + rewrite <- E. lia.
    + rewrite VLMACCR1_ok, differ_self by assumption. reflexivity.
    + rewrite VLMACCR1_ok, differ_complement, Ha
        by (rewrite ?complement_length; assumption).
      reflexivity.
  - intros Hne. unfold VLMACCR1, len.
    destruct (Z.eqb_spec (Z.of_nat (length a)) 256) as [Ea | Ea]; [|reflexivity].
    destruct (Z.eqb_spec (Z.of_nat (length b)) 256) as [Eb | Eb]; [|reflexivity].
    exfalso. destruct Hne as [Hn | Hn]; apply Hn; lia.
Qed.

Lemma Forall_repeat {A : Type} (P : A -> Prop) (x : A) (n : nat) :
  P x -> Forall P (repeat x n).
Proof. intros Hx. induction n; simpl; constructor; assumption. Qed.

Lemma VLMACCR1_spec_witness :
  VLMACCR1 (repeat 1 256) (repeat 0 256) 7
  = Ok (7 + (128 - popcount (vxor (repeat 1 256) (repeat 0 256))))
  /\ VLMACCR1 (repeat 1 3) (repeat 0 256) 7 = Raise AssertionError.
Proof.
  split.
  - apply (proj1 (VLMACCR1_spec (repeat 1 256) (repeat 0 256) 7)).
    + apply repeat_length.
    + apply repeat_length.
    + apply Forall_repeat. right; reflexivity.
    + apply Forall_repeat. left; reflexivity.
  - apply (proj2 (VLMACCR1_spec (repeat 1 3) (repeat 0 256) 7)).
    left. rewrite repeat_length. lia.
Defined.

(** ** Truncation of the stage-1 coefficients *)

Lemma len_nonneg {A : Type} (l : list A) : 0 <= len l.
Proof. unfold len. lia. Qed.

(** When the length is not a multiple of 256 the slice keeps the leading
    blocks. *)
Lemma truncate_unaligned (coefs : list Q) :
  len coefs mod 256 <> 0 ->
  truncate coefs = firstn (Z.to_nat (256 * (len coefs / 256))) coefs.
Proof.
  intros Hp. unfold truncate, slice, slice_bound, Stage1Filter.BLOCK_SIZE.
  pose proof (len_nonneg coefs) as Hn.
  pose proof (Z.mod_pos_bound (len coefs) 256 ltac:(lia)) as Hm.
  pose proof (Z.div_mod (len coefs) 256 ltac:(lia)) as Hd.
  destruct (Z.ltb_spec (- (len coefs mod 256)) 0) as [_ | Hge]; [|lia].
  rewrite Z.max_r by lia. simpl skipn. f_equal. lia.
Qed.

(** When it is one, [p] is zero and [[:-0]] is the empty slice. *)
Lemma truncate_aligned (coefs : list Q) :
  len coefs mod 256 = 0 -> truncate coefs = [].
Proof.
  intros Hp. unfold truncate, slice, slice_bound, Stage1Filter.BLOCK_SIZE.
  rewrite Hp. pose proof (len_nonneg coefs). cbn [Z.opp Z.ltb Z.compare].
  rewrite Z.min_l by lia. reflexivity.
Qed.

(** C8. On 256 coefficients, a length that is already a multiple of 256,
    the truncation of [load] returns the empty sequence instead of the
    sequence itself, and the construction of the first stage then fails. *)
Theorem truncate_aligned_256 :
  truncate (repeat 1%Q 256) = []
  /\ load (repeat 1%Q 256, 32) ([1%Q], 1) true = Raise ValueError.
Proof.
  assert (E : truncate (repeat 1%Q 256) = []).
  { apply truncate_aligned. unfold len. rewrite repeat_length. reflexivity. }
  split; [exact E|].
  unfold load. cbn [fst snd]. rewrite E. reflexivity.
Qed.

(** ** The two-stage chain *)

(** C6. The decimation factor of a [TwoStageFilter] is the product of those
    of its stages, and [Filter] runs [FilterInt16] of the first stage and
    hands its int32 output, as it is, to [FilterInt32] of the second: an
    exception of the first stage is the outcome of the whole. *)
Theorem TwoStageFilter_spec (s1 : Stage1Filter.t) (s2 : Stage2Filter.t)
    (pdm_signal : ndarray Z) :
  let tsf := TwoStageFilter.__init__ s1 s2 in
  TwoStageFilter.DecimationFactor tsf
  = Stage1Filter.DecimationFactor s1 * Stage2Filter.DecimationFactor s2
  /\ TwoStageFilter.Filter tsf pdm_signal
     = match Stage1Filter.FilterInt16 s1 pdm_signal with
       | Ok s1_output => Stage2Filter.FilterInt32 s2 (Arr2 s1_output)
       | Raise e => Raise e
       end.
Proof.
  intros tsf. split.
  - reflexivity.
  - unfold TwoStageFilter.Filter, tsf, TwoStageFilter.__init__, bind.
    cbn [TwoStageFilter.s1 TwoStageFilter.s2].
    destruct (Stage1Filter.FilterInt16 s1 pdm_signal); reflexivity.
Qed.

(** ** Loops and item assignment *)

Lemma mapM_ok {A B : Type} (f : A -> result B) (g : A -> B) (l : list A) :
  (forall x, In x l -> f x = Ok (g x)) -> mapM f l = Ok (map g l).
Proof.
  induction l as [|a l IH]; intros Hf; [reflexivity|].
  cbn [mapM map]. rewrite (Hf a (or_introl eq_refl)). cbn [bind].
  rewrite IH by (intros x Hx; apply Hf; right; exact Hx).
  reflexivity.
Qed.

(** The invariant rule of a [for] loop over consecutive indices. *)
Lemma for_each_inv {S : Type} (body : Z -> S -> result S)
    (Inv : nat -> S -> Prop) (m : nat) : forall (a : nat) (s : S),
  Inv a s ->
  (forall i s, (a <= i < a + m)%nat -> Inv i s ->
               exists s', body (Z.of_nat i) s = Ok s' /\ Inv (Datatypes.S i) s') ->
  exists s', for_each (map Z.of_nat (seq a m)) body s = Ok s'
             /\ Inv (a + m)%nat s'.
Proof.
  induction m as [|m IH]; intros a s Hs Hbody.
  - exists s. rewrite Nat.add_0_r. split; [reflexivity | exact Hs].
  - destruct (Hbody a s ltac:(lia) Hs) as (s1 & E1 & H1).
    destruct (IH (Datatypes.S a) s1 H1) as (s' & E' & H').
    { intros i s0 Hi. apply Hbody. lia. }
    exists s'. cbn [seq map for_each]. rewrite E1. cbn [bind].
    split; [exact E' |].
    replace (a + Datatypes.S m)%nat with (Datatypes.S a + m)%nat by lia.
    exact H'.
Qed.

Lemma update_length {A : Type} (k : nat) (x : A) (l : list A) :
  (k < length l)%nat -> length (update k x l) = length l.
Proof.
  intros Hk. unfold update.
  rewrite length_app, length_firstn. cbn [length]. rewrite length_skipn. lia.
Qed.

Lemma update_nth_same {A : Type} (k : nat) (x d : A) (l : list A) :
  (k < length l)%nat -> nth k (update k x l) d = x.
Proof.
  intros Hk. unfold update.
  rewrite app_nth2; rewrite length_firstn, Nat.min_l by lia; [|lia].
  rewrite Nat.sub_diag. reflexivity.
Qed.

Lemma update_nth_other {A : Type} (k j : nat) (x d : A) (l : list A) :
  (k < length l)%nat -> j <> k -> nth j (update k x l) d = nth j l d.
Proof.
  intros Hk Hj. unfold update.
  destruct (Nat.lt_ge_cases j k) as [Hlt | Hge].
  - rewrite app_nth1 by (rewrite length_firstn; lia).
    rewrite <- (firstn_skipn k l) at 2.
    rewrite app_nth1 by (rewrite length_firstn; lia). reflexivity.
  - rewrite app_nth2; rewrite length_firstn, Nat.min_l by lia; [|lia].
    destruct (j - k)%nat as [|n] eqn:En; [lia|]. cbn [nth].
    rewrite nth_skipn. f_equal. lia.
Qed.

Lemma set_item_ok {A : Type} (l : list A) (k : nat) (x : A) :
  (k < length l)%nat -> set_item l (Z.of_nat k) x = Ok (update k x l).
Proof.
  intros Hk. unfold set_item, len.
  destruct (Z.leb_spec 0 (Z.of_nat k)); [|lia].
  destruct (Z.ltb_spec (Z.of_nat k) (Z.of_nat (length l))); [|lia].
  cbn [andb]. rewrite Nat2Z.id. reflexivity.
Qed.

(** ** The shape of the packed coefficient array *)

Lemma concat_length_const {A : Type} (n : nat) (B : list (list A)) :
  Forall (fun r => length r = n) B -> length (concat B) = (length B * n)%nat.
Proof.
  induction 1 as [|r B Hr _ IH]; [reflexivity|].
  cbn [concat length]. rewrite length_app, IH, Hr. lia.
Qed.

Lemma chunks_length {A : Type} (n : nat) (l : list A) :
  length (chunks n l) = (length l / n)%nat.
Proof. unfold chunks. rewrite length_map, length_seq. reflexivity. Qed.

Lemma chunks_rows {A : Type} (n : nat) (l : list A) :
  (0 < n)%nat -> Forall (fun r => length r = n) (chunks n l).
Proof.
  intros Hn. apply Forall_forall. intros r Hr. unfold chunks in Hr.
  apply in_map_iff in Hr. destruct Hr as (i & <- & Hi).
  apply in_seq in Hi.
  rewrite length_firstn, length_skipn.
  pose proof (Nat.Div0.mul_div_le (length l) n) as Hle.
  apply Nat.min_l. nia.
Qed.

Lemma Ok_inj {A : Type} (a b : A) : Ok a = Ok b -> a = b.
Proof. intros E. injection E as E. exact E. Qed.

Lemma Stage1_init_inv (coefs : list Q) (Q0 : Z) (f : Stage1Filter.t) :
  Stage1Filter.__init__ coefs Q0 = Ok f ->
  len coefs mod 256 = 0
  /\ exists t, argmax (map Qabs coefs) = Ok t
     /\ Qle_bool (Qabs (nth t coefs 0%Q)) 1 = true
     /\ Stage1Filter.dec_factor f = Q0
     /\ Stage1Filter.coefs f = coefs
     /\ Stage1Filter.scale_int16 f
        = Float64.fdiv (Float64.of_int 32766) (Float64.Fin (nth t coefs 0%Q))
     /\ Stage1Filter.coefs_int16 f
        = map (fun c => Float64.astype_int16
                          (Float64.np_round
                             (Float64.fmul (Stage1Filter.scale_int16 f)
                                           (Float64.Fin c)))) coefs
     /\ Stage1Filter.coefs_binary f
        = map (map (fun v => (1 - v) / 2))
              (transpose 16
                 (util.int16_vect_to_bipolar_matrix
                    (Stage1Filter.coefs_int16 f) util.int16_dual)).
Proof.
  unfold Stage1Filter.__init__, assert, Stage1Filter.BLOCK_SIZE.
  destruct (Z.eqb_spec (len coefs mod 256) 0) as [Hm | Hm]; [|discriminate].
  cbn [bind].
  destruct (argmax (map Qabs coefs)) as [t | e]; [|discriminate].
  cbn [bind].
  destruct (Qle_bool (Qabs (nth t coefs 0%Q)) 1) eqn:Hle; [|discriminate].
  cbn [bind]. intros E. apply Ok_inj in E. subst f.
  split; [exact Hm|]. exists t.
  cbn [Stage1Filter.dec_factor Stage1Filter.coefs Stage1Filter.scale_int16
       Stage1Filter.coefs_int16 Stage1Filter.coefs_binary].
  repeat split; try reflexivity. exact Hle.
Qed.

Lemma binary_shape (ci : list Z) :
  let B := map (map (fun v => (1 - v) / 2))
               (transpose 16 (util.int16_vect_to_bipolar_matrix ci util.int16_dual)) in
  length B = 16%nat /\ Forall (fun r => length r = length ci) B.
Proof.
  cbv zeta. split.
  - unfold transpose. rewrite !length_map, length_seq. reflexivity.
  - apply Forall_forall. intros r Hr.
    apply in_map_iff in Hr. destruct Hr as (r0 & <- & Hr0).
    unfold transpose in Hr0. apply in_map_iff in Hr0.
    destruct Hr0 as (j & <- & _).
    unfold util.int16_vect_to_bipolar_matrix. rewrite !length_map. reflexivity.
Qed.

Lemma blocks_rows (blocks : list (list (list Z))) :
  Forall (fun b => length b = 8%nat) blocks ->
  Forall (fun b => length b = 8%nat)
    (map (map (@rev Z)) (map (@rev (list Z)) (map (map (map uint32)) blocks))).
Proof.
  intros Hb. rewrite !map_map. apply Forall_forall. intros b Hin.
  apply in_map_iff in Hin. destruct Hin as (b0 & <- & Hb0).
  rewrite length_map, length_rev, length_map.
  rewrite Forall_forall in Hb. apply Hb. exact Hb0.
Qed.

(** C7, amended. The word array that [ToXCoreCoefArray] returns for a
    constructed first stage of [T] taps has 128 words for each block of 256
    taps: [(T / 256) * 128] words, sixteen bit planes of [T / 32] words. *)
Theorem ToXCoreCoefArray_length (coefs : list Q) (Q0 : Z) (f : Stage1Filter.t) :
  Stage1Filter.__init__ coefs Q0 = Ok f ->
  exists y, Stage1Filter.ToXCoreCoefArray f = Ok y
            /\ len y = (Stage1Filter.TapCount f / 256) * 128.
Proof.
  intros Hinit.
  destruct (Stage1_init_inv _ _ _ Hinit)
    as (Hmod & t & _ & _ & _ & Hc & _ & Hci & Hbin).
  assert (Hlen : length (Stage1Filter.coefs_int16 f) = length coefs)
    by (rewrite Hci; apply length_map).
  assert (exists m : nat, length coefs = (256 * m)%nat) as [m Hm].
  { exists (Z.to_nat (len coefs / 256)).
    pose proof (Z.div_mod (len coefs) 256 ltac:(lia)).
    pose proof (len_nonneg coefs). unfold len in *. lia. }
  unfold Stage1Filter.ToXCoreCoefArray, Stage1Filter.CoefBinary.
  rewrite Hbin.
  destruct (binary_shape (Stage1Filter.coefs_int16 f)) as [Hrows Hcols].
  cbv zeta in Hrows, Hcols.
  set (B := map _ (transpose _ _)) in *.
  assert (Hflat : length (concat B) = (32 * (128 * m))%nat).
  { rewrite (concat_length_const _ _ Hcols), Hrows, Hlen, Hm. lia. }
  unfold len at 1 2. rewrite Hflat.
  replace (Z.of_nat (32 * (128 * m))) with (Z.of_nat (16 * m) * 256) by lia.
  rewrite Z.div_mul by lia.
  destruct (Z.eqb_spec (Z.of_nat (16 * m) * 8 * 32) (Z.of_nat (16 * m) * 256));
    [|lia].
  cbn [bind].
  set (blocks := chunks 8 (chunks 32 (concat B))).
  assert (Hblocks : length blocks = (16 * m)%nat).
  { unfold blocks. rewrite !chunks_length, Hflat.
    rewrite (Nat.mul_comm 32), Nat.div_mul by lia.
    replace (128 * m)%nat with (16 * m * 8)%nat by lia.
    apply Nat.div_mul. lia. }
  set (rows := concat _).
  assert (Hrowsn : length rows = (128 * m)%nat).
  { unfold rows. rewrite (concat_length_const 8).
    - rewrite !length_map, Hblocks. lia.
    - apply blocks_rows. apply chunks_rows. lia. }
  unfold len, range. rewrite Hrowsn, Nat2Z.id.
  destruct (for_each_inv
              (fun k y => set_item y k
                            (dot (D := UInt32) Stage1Filter.F
                                 (nth (Z.to_nat k) rows [])))
              (fun _ y => length y = (128 * m)%nat)
              (128 * m) 0 (repeat 0 (128 * m))) as (y & Ey & Hy).
  - apply repeat_length.
  - intros i y Hi Hy. eexists. split.
    + apply set_item_ok. lia.
    + rewrite update_length; lia.
  - exists y. split; [exact Ey|].
    rewrite Hy. unfold Stage1Filter.TapCount, len. rewrite Hc, Hm.
    replace (Z.of_nat (256 * m)) with (Z.of_nat m * 256) by lia.
    rewrite Z.div_mul by lia. lia.
Qed.

Lemma ToXCoreCoefArray_length_witness :
  exists f y,
    Stage1Filter.__init__ (repeat 1%Q 256) 32 = Ok f
    /\ Stage1Filter.ToXCoreCoefArray f = Ok y
    /\ len y = (Stage1Filter.TapCount f / 256) * 128.
Proof.
  destruct (Stage1Filter.__init__ (repeat 1%Q 256) 32) as [f | e] eqn:E.
  - destruct (ToXCoreCoefArray_length _ _ _ E) as (y & Hy & Hlen).
    exists f, y. repeat split; assumption.
  - vm_compute in E. discriminate E.
Defined.

(** C7, as stated, fails: a first stage of 256 taps packs into 128 words,
    not into [(256 / 256) * 8 = 8]. *)
Lemma ToXCoreCoefArray_length_counterexample :
  exists f y,
    Stage1Filter.__init__ (repeat 1%Q 256) 32 = Ok f
    /\ Stage1Filter.ToXCoreCoefArray f = Ok y
    /\ len y = 128
    /\ len y <> (Stage1Filter.TapCount f / 256) * 8.
Proof.
  eexists. eexists. split; [vm_compute; reflexivity|].
  split; [vm_compute; reflexivity|].
  split; vm_compute; congruence.
Qed.

(** ** Arrays: allocation, slices and columns *)

Lemma zeros_ok {A : Type} (z : A) (r c : nat) :
  zeros z (Z.of_nat r) (Z.of_nat c) = Ok (repeat (repeat z c) r).
Proof.
  unfold zeros.
  destruct (Z.ltb_spec (Z.of_nat r) 0); [lia|].
  destruct (Z.ltb_spec (Z.of_nat c) 0); [lia|].
  cbn [orb]. rewrite !Nat2Z.id. reflexivity.
Qed.

Lemma zip_with_nth {A B C : Type} (f : A -> B -> C) (da : A) (db : B) (d : C) :
  forall (a : list A) (b : list B) (i : nat),
    (i < length a)%nat -> (i < length b)%nat ->
    nth i (zip_with f a b) d = f (nth i a da) (nth i b db).
Proof.
  induction a as [|x a IH]; intros [|y b] i Ha Hb; cbn [length] in *; try lia.
  rewrite zip_with_cons. destruct i as [|i]; [reflexivity|].
  cbn [nth]. apply IH; lia.
Qed.

(** [l[:p] = src] on a list of [p + n] elements. *)
Lemma set_slice_prefix {A : Type} (l src : list A) (p : nat) :
  (p <= length l)%nat -> length src = p ->
  set_slice l None (Some (Z.of_nat p)) src = Ok (src ++ skipn p l).
Proof.
  intros Hl Hs. unfold set_slice, slice_bound, len.
  destruct (Z.ltb_spec (Z.of_nat p) 0); [lia|].
  rewrite Z.min_l by lia. rewrite Z.sub_0_r, Z.max_r by lia.
  rewrite Hs, Z.eqb_refl. cbn [Z.to_nat firstn app Z.add].
  rewrite Nat2Z.id. reflexivity.
Qed.

(** [l[p:] = src] on a list of [p + n] elements. *)
Lemma set_slice_suffix {A : Type} (l src : list A) (p : nat) :
  length l = (p + length src)%nat ->
  set_slice l (Some (Z.of_nat p)) None src = Ok (firstn p l ++ src).
Proof.
  intros Hl. unfold set_slice, slice_bound, len.
  destruct (Z.ltb_spec (Z.of_nat p) 0); [lia|].
  rewrite Z.min_l by lia. rewrite Z.max_r by lia.
  replace (Z.of_nat (length l) - Z.of_nat p) with (Z.of_nat (length src)) by lia.
  rewrite Z.eqb_refl, Nat2Z.id.
  replace (Z.to_nat (Z.of_nat p + Z.of_nat (length src))) with (length l) by lia.
  rewrite skipn_all, app_nil_r. reflexivity.
Qed.

(** [l[a:a+t]] when the window lies inside [l]. *)
Lemma slice_window {A : Type} (l : list A) (a t : nat) :
  (a + t <= length l)%nat ->
  slice l (Some (Z.of_nat a)) (Some (Z.of_nat a + Z.of_nat t))
  = firstn t (skipn a l).
Proof.
  intros Hl. unfold slice, slice_bound, len.
  destruct (Z.ltb_spec (Z.of_nat a) 0); [lia|].
  destruct (Z.ltb_spec (Z.of_nat a + Z.of_nat t) 0); [lia|].
  rewrite !Z.min_l by lia.
  replace (Z.of_nat a + Z.of_nat t - Z.of_nat a) with (Z.of_nat t) by lia.
  rewrite !Nat2Z.id. reflexivity.
Qed.

Lemma matmul_ok {A : Type} {D : Dtype A} (x : list (list A)) (coefs : list A) :
  Forall (fun r => length r = length coefs) x ->
  matmul x coefs = Ok (map (fun r => dot r coefs) x).
Proof.
  intros Hx. unfold matmul. apply mapM_ok. intros r Hr.
  rewrite Forall_forall in Hx. unfold len. rewrite (Hx r Hr), Z.eqb_refl.
  reflexivity.
Qed.

Lemma set_col_ok {A : Type} (res : list (list A)) (k n : nat) (v : list A) :
  length v = length res -> Forall (fun r => length r = n) res -> (k < n)%nat ->
  set_col res (Z.of_nat k) v = Ok (zip_with (fun row x => update k x row) res v).
Proof.
  intros Hv Hres Hk. unfold set_col, len. rewrite Hv, Z.eqb_refl. cbn [negb].
  unfold zip_with. apply mapM_ok. intros [row x] Hin. cbn [fst snd].
  apply set_item_ok. apply in_combine_l in Hin.
  rewrite Forall_forall in Hres. rewrite (Hres row Hin). exact Hk.
Qed.

Lemma update_rows {A : Type} (res : list (list A)) (k n : nat) (v : list A) :
  length v = length res -> Forall (fun r => length r = n) res -> (k < n)%nat ->
  Forall (fun r => length r = n) (zip_with (fun row x => update k x row) res v).
Proof.
  intros Hv Hres Hk. apply Forall_forall. intros r Hr.
  unfold zip_with in Hr. apply in_map_iff in Hr.
  destruct Hr as ([row x] & <- & Hin). cbn [fst snd].
  apply in_combine_l in Hin. rewrite Forall_forall in Hres.
  rewrite update_length; rewrite (Hres row Hin); auto.
Qed.

(** The loop of the four filters: column [k] of the result receives the
    values [vals k], one for each channel. *)
Lemma fir_loop {A : Type} (body : Z -> list (list A) -> result (list (list A)))
    (vals : nat -> list A) (n c : nat) (res0 : list (list A)) (d : A) :
  length res0 = c -> Forall (fun r => length r = n) res0 ->
  (forall k res, (k < n)%nat ->
     body (Z.of_nat k) res = set_col res (Z.of_nat k) (vals k)) ->
  (forall k, (k < n)%nat -> length (vals k) = c) ->
  exists res,
    for_each (range (Z.of_nat n)) body res0 = Ok res
    /\ length res = c
    /\ Forall (fun r => length r = n) res
    /\ forall ch k, (ch < c)%nat -> (k < n)%nat ->
         nth k (nth ch res []) d = nth ch (vals k) d.
Proof.
  intros Hc Hrows Hbody Hvals. unfold range. rewrite Nat2Z.id.
  destruct (for_each_inv body
    (fun i res => length res = c /\ Forall (fun r => length r = n) res
       /\ forall ch k, (ch < c)%nat -> (k < i)%nat ->
            nth k (nth ch res []) d = nth ch (vals k) d)
    n 0 res0) as (res & E & H1 & H2 & H3).
  - repeat split; auto. intros; lia.
  - intros i res Hi (L1 & L2 & L3).
    assert (Hin : (i < n)%nat) by lia.
    pose proof (Hvals i Hin) as Hv.
    rewrite (Hbody i res Hin).
    rewrite (set_col_ok res i n (vals i)) by (try assumption; congruence).
    eexists. split; [reflexivity|].
    split; [rewrite zip_with_length; congruence|].
    split; [apply update_rows; try assumption; congruence|].
    intros ch k Hch Hk.
    rewrite (zip_with_nth _ [] d []) by lia.
    assert (Hrow : length (nth ch res []) = n).
    { rewrite Forall_forall in L2. apply L2. apply nth_In. lia. }
    destruct (Nat.eq_dec k i) as [-> | Hne].
    + apply update_nth_same. lia.
    + rewrite update_nth_other by lia. apply L3; lia.
  - exists res. repeat split; assumption.
Qed.

(** ** Padding and windows *)

Lemma range_length (n : nat) : length (range (Z.of_nat n)) = n.
Proof. unfold range. rewrite length_map, length_seq. lia. Qed.

Lemma combine_repeat_map {A B C : Type} (g : A * B -> C) (x : A) :
  forall (l : list B) (c : nat), c = length l ->
    map g (combine (repeat x c) l) = map (fun b => g (x, b)) l.
Proof.
  induction l as [|b l IH]; intros c ->; [reflexivity|].
  cbn [length repeat combine map]. rewrite IH by reflexivity. reflexivity.
Qed.

(** [S[:, p:] = sig_in] when every row of [S] is the row [x] of [p + n]
    elements and the channels have [n] samples. *)
Lemma set_cols_2d_suffix {A : Type} (x : list A) (sig_in : list (list A))
    (p n : nat) :
  length x = (p + n)%nat -> Forall (fun r => length r = n) sig_in ->
  set_cols_2d (repeat x (length sig_in)) (Some (Z.of_nat p)) None sig_in
  = Ok (map (fun r => firstn p x ++ r) sig_in).
Proof.
  intros Hx Hsig. unfold set_cols_2d.
  rewrite (mapM_ok _ (fun pr => firstn p (fst pr) ++ snd pr)).
  - rewrite (combine_repeat_map _ x sig_in) by reflexivity. reflexivity.
  - intros [a r] Hin. cbn [fst snd].
    pose proof (in_combine_l _ _ _ _ Hin) as Ha. apply repeat_spec in Ha.
    pose proof (in_combine_r _ _ _ _ Hin) as Hr. subst a.
    rewrite Forall_forall in Hsig.
    apply set_slice_suffix. rewrite (Hsig r Hr). exact Hx.
Qed.

Lemma shape_rows {A : Type} (sig_in : list (list A)) (n : nat) :
  sig_in <> [] -> Forall (fun r => length r = n) sig_in ->
  shape sig_in = (Z.of_nat (length sig_in), Z.of_nat n).
Proof.
  intros Hne Hsig. unfold shape, len.
  destruct sig_in as [|r l]; [congruence|].
  inversion Hsig; subst. reflexivity.
Qed.

Lemma Stage1_pad_ok {A : Type} {D : Dtype A} (f : Stage1Filter.t)
    (sig_in : list (list A)) (p n : nat) :
  Stage1Filter.TapCount f - Stage1Filter.DecimationFactor f = Z.of_nat p ->
  Forall (fun r => length r = n) sig_in ->
  Stage1Filter._pad_input f sig_in = Ok (map (padded1 (Z.of_nat p)) sig_in).
Proof.
  intros HP Hsig. unfold Stage1Filter._pad_input.
  destruct sig_in as [|r0 l] eqn:Esig.
  - cbn [shape len length]. rewrite HP.
    change (Z.of_nat 0) with 0. rewrite Z.add_0_r.
    rewrite (zeros_ok zero 0 p). reflexivity.
  - rewrite <- Esig in *.
    rewrite (shape_rows sig_in n) by (try assumption; congruence).
    rewrite HP, <- Nat2Z.inj_add, zeros_ok. cbn [bind].
    set (pat := map (fun i => of_Z (Stage1Filter.fill i)) (arange (Z.of_nat p))).
    assert (Hpat : length pat = p)
      by (unfold pat, arange; rewrite length_map; apply range_length).
    unfold set_cols_1d.
    rewrite (mapM_ok _ (fun row => pat ++ skipn p row)).
    2:{ intros row Hrow. apply repeat_spec in Hrow. subst row.
        apply set_slice_prefix; [rewrite repeat_length; lia | exact Hpat]. }
    cbn [bind]. rewrite map_repeat.
    rewrite (set_cols_2d_suffix _ sig_in p n).
    + cbn [bind]. f_equal. apply map_ext. intros r.
      rewrite firstn_app, Hpat, Nat.sub_diag, firstn_all2 by lia.
      cbn [firstn]. rewrite app_nil_r. reflexivity.
    + rewrite length_app, length_skipn, repeat_length. lia.
    + exact Hsig.
Qed.

Lemma firstn_repeat_add {A : Type} (x : A) (p n : nat) :
  firstn p (repeat x (p + n)) = repeat x p.
Proof. induction p as [|p IH]; [reflexivity|]. cbn. rewrite IH. reflexivity. Qed.

Lemma Stage2_pad_ok {A : Type} {D : Dtype A} (f : Stage2Filter.t)
    (sig_in : list (list A)) (p n : nat) :
  Stage2Filter.TapCount f - Stage2Filter.DecimationFactor f = Z.of_nat p ->
  Forall (fun r => length r = n) sig_in ->
  Stage2Filter._pad_input f sig_in = Ok (map (padded2 (Z.of_nat p)) sig_in).
Proof.
  intros HP Hsig. unfold Stage2Filter._pad_input.
  destruct sig_in as [|r0 l] eqn:Esig.
  - cbn [shape len length]. rewrite HP.
    change (Z.of_nat 0) with 0. rewrite Z.add_0_r.
    rewrite (zeros_ok zero 0 p). reflexivity.
  - rewrite <- Esig in *.
    rewrite (shape_rows sig_in n) by (try assumption; congruence).
    rewrite HP, <- Nat2Z.inj_add, zeros_ok. cbn [bind].
    rewrite (set_cols_2d_suffix _ sig_in p n).
    + cbn [bind]. f_equal. apply map_ext. intros r. unfold padded2.
      rewrite Nat2Z.id, firstn_repeat_add. reflexivity.
    + apply repeat_length.
    + exact Hsig.
Qed.

(** The product of the windows of step [k] with the coefficients. *)
Lemma window_vals {A : Type} {D : Dtype A} (S : list (list A)) (coefs : list A)
    (q t k L : nat) :
  Forall (fun r => length r = L) S -> (q * k + t <= L)%nat ->
  length coefs = t ->
  matmul (get_cols S (Some (Z.of_nat q * Z.of_nat k))
                     (Some (Z.of_nat q * Z.of_nat k + Z.of_nat t))) coefs
  = Ok (map (fun r => dot (window r (q * k) t) coefs) S).
Proof.
  intros HS Hk Hc. rewrite Forall_forall in HS.
  rewrite <- Nat2Z.inj_mul. unfold get_cols.
  rewrite matmul_ok.
  - rewrite map_map. f_equal. apply map_ext_in. intros r Hr.
    rewrite slice_window by (rewrite (HS r Hr); lia). reflexivity.
  - apply Forall_forall. intros r Hr. apply in_map_iff in Hr.
    destruct Hr as (r0 & <- & Hr0).
    rewrite slice_window by (rewrite (HS r0 Hr0); lia).
    rewrite length_firstn, length_skipn, (HS r0 Hr0). lia.
Qed.

(** ** Wrap-around arithmetic *)

Lemma wrap_mod (w z : Z) : 0 < w -> wrap w z mod 2 ^ w = z mod 2 ^ w.
Proof.
  intros Hw. unfold wrap.
  rewrite Zminus_mod_idemp_l. f_equal. lia.
Qed.

Lemma wrap_mod_eq (w a b : Z) :
  a mod 2 ^ w = b mod 2 ^ w -> wrap w a = wrap w b.
Proof.
  intros E. unfold wrap.
  rewrite <- (Zplus_mod_idemp_l a), <- (Zplus_mod_idemp_l b), E. reflexivity.
Qed.

Lemma wrap_add_mul (w a x y : Z) :
  0 < w ->
  wrap w (wrap w a + wrap w (x * wrap w y)) = wrap w (a + x * y).
Proof.
  intros Hw. apply wrap_mod_eq.
  rewrite Zplus_mod, !wrap_mod by assumption.
  rewrite (Zmult_mod x (wrap w y)), wrap_mod by assumption.
  rewrite <- Zmult_mod, <- Zplus_mod. reflexivity.
Qed.

(** A dot product accumulated in [w] bits, the coefficients cast to [w] bits,
    is the exact one wrapped once. *)
Lemma dot_wrap (w : Z) (x : list Z) : forall (c : list Z) (a b : Z),
  0 < w -> a = wrap w b ->
  fold_left (fun acc p => wrap w (acc + wrap w (fst p * snd p)))
            (combine x (map (wrap w) c)) a
  = wrap w (fold_left (fun acc p => acc + fst p * snd p) (combine x c) b).
Proof.
  induction x as [|x0 x IH]; intros [|c0 c] a b Hw E; cbn [map combine fold_left];
    try exact E.
  apply IH; [exact Hw|]. cbn [fst snd]. rewrite E. apply wrap_add_mul. exact Hw.
Qed.

Lemma dot_int32 (x c : list Z) :
  dot (D := Int32) x (map int32 c) = int32 (dot_exact x c).
Proof. unfold dot, dot_exact. apply (dot_wrap 32); [lia | reflexivity]. Qed.

Lemma dot_int64 (x c : list Z) :
  dot (D := Int64) x (map int64 c) = int64 (dot_exact x c).
Proof. unfold dot, dot_exact. apply (dot_wrap 64); [lia | reflexivity]. Qed.

Lemma nth_map_lt {A B : Type} (g : A -> B) (l : list A) (i : nat) (da : A) (db : B) :
  (i < length l)%nat -> nth i (map g l) db = g (nth i l da).
Proof.
  intros Hi. rewrite (nth_indep _ db (g da)) by (rewrite length_map; exact Hi).
  apply map_nth.
Qed.

Lemma floordiv_nat (n q : nat) :
  (0 < q)%nat -> floordiv (Z.of_nat n) (Z.of_nat q) = Ok (Z.of_nat (n / q)).
Proof.
  intros Hq. unfold floordiv.
  destruct (Z.eqb_spec (Z.of_nat q) 0); [lia|].
  rewrite Nat2Z.inj_div. reflexivity.
Qed.

Lemma window_bound (q n k : nat) :
  (0 < q)%nat -> (k < n / q)%nat -> (q * k + q <= n)%nat.
Proof.
  intros Hq Hk. pose proof (Nat.Div0.mul_div_le n q). nia.
Qed.

(** ** The decimating loop *)

Lemma rows_uniform {A : Type} (rows : list (list A)) (N : Z) :
  Forall (fun ch => len ch = N) rows ->
  exists n : nat,
    Forall (fun r => length r = n) rows
    /\ shape rows = (Z.of_nat (length rows), Z.of_nat n)
    /\ (rows <> [] -> N = Z.of_nat n).
Proof.
  intros H. destruct rows as [|r0 l].
  - exists 0%nat. repeat split; [constructor | congruence].
  - exists (length r0). inversion H as [|? ? H0 Hl]; subst.
    split; [|split; [reflexivity | intros _; reflexivity]].
    apply Forall_forall. intros r Hr. rewrite Forall_forall in H.
    pose proof (H r Hr) as H1. pose proof (H r0 (or_introl eq_refl)) as H2.
    unfold len in *. lia.
Qed.

(** With [1 <= q <= t], rows of [t - q + n] padded samples and [t]
    coefficients, the loop fills the [n / q] columns of the result: column
    [k] holds [h] of the products of the windows [q*k, q*k + t). *)
Lemma filter_loop {A B : Type} {D : Dtype A} (S : list (list A))
    (coefs : list A) (h : list A -> list B) (z d : B) (q t n c : nat) :
  length S = c -> Forall (fun r => length r = (t - q + n)%nat) S ->
  length coefs = t -> (1 <= q <= t)%nat ->
  (forall v, length (h v) = length v) ->
  exists res,
    for_each (range (Z.of_nat (n / q)))
      (fun k res =>
         v <- matmul (get_cols S (Some (Z.of_nat q * k))
                                 (Some (Z.of_nat q * k + Z.of_nat t))) coefs ;;
         set_col res k (h v))
      (repeat (repeat z (n / q)) c) = Ok res
    /\ length res = c
    /\ Forall (fun r => length r = (n / q)%nat) res
    /\ forall ch k, (ch < c)%nat -> (k < n / q)%nat ->
         nth k (nth ch res []) d
         = nth ch (h (map (fun r => dot (window r (q * k) t) coefs) S)) d.
Proof.
  intros HS Hrows Hc Hq Hh.
  apply (fir_loop _
           (fun k => h (map (fun r => dot (window r (q * k) t) coefs) S))).
  - apply repeat_length.
  - apply Forall_forall. intros r Hr. apply repeat_spec in Hr. subst r.
    apply repeat_length.
  - intros k res Hk.
    pose proof (window_bound q n k ltac:(lia) Hk) as Hb.
    rewrite (window_vals S coefs q t k (t - q + n)) by (try assumption; lia).
    reflexivity.
  - intros k Hk. rewrite Hh, length_map. exact HS.
Qed.

(** Replace the loop at the head of the goal by its result. *)
Ltac loop_result E :=
  match type of E with
  | _ = ?R =>
      match goal with
      | |- context [for_each ?l ?b ?s] =>
          replace (for_each l b s) with R by (symmetry; exact E)
      end
  end.

Lemma Stage1_lengths (coefs : list Q) (Q0 : Z) (f : Stage1Filter.t) :
  Stage1Filter.__init__ coefs Q0 = Ok f ->
  Stage1Filter.TapCount f = Z.of_nat (length (Stage1Filter.CoefInt16 f)).
Proof.
  intros Hinit.
  destruct (Stage1_init_inv _ _ _ Hinit)
    as (_ & t & _ & _ & _ & Hc & _ & Hci & _).
  unfold Stage1Filter.TapCount, Stage1Filter.CoefInt16, len.
  rewrite Hci, Hc, length_map. reflexivity.
Qed.

Lemma padded1_length {A : Type} {D : Dtype A} (p : nat) (r : list A) :
  length (padded1 (Z.of_nat p) r) = (p + length r)%nat.
Proof. unfold padded1. rewrite length_app, length_map, range_length. reflexivity. Qed.

Lemma padded2_length {A : Type} {D : Dtype A} (p : nat) (r : list A) :
  length (padded2 (Z.of_nat p) r) = (p + length r)%nat.
Proof.
  unfold padded2. rewrite length_app, repeat_length, Nat2Z.id. reflexivity.
Qed.

(** ** The first stage in fixed point *)

(** C1, amended. For a constructed first stage with [1 <= Q <= T] and an
    int32 signal of [N] samples in each channel, [FilterInt16] returns, for
    each channel, [N / Q] samples; sample [k] is the dot product of the int16
    coefficients with the window [Q*k, Q*k + T) of the channel behind its
    [T - Q] padding samples [2 * (i mod 2) - 1], wrapped to 32 bits, then
    shifted left by 8 bits in 32 bits. *)
Theorem FilterInt16_spec (coefs : list Q) (Q0 : Z) (f : Stage1Filter.t)
    (pdm_signal : ndarray Z) (N : Z) :
  Stage1Filter.__init__ coefs Q0 = Ok f ->
  1 <= Stage1Filter.DecimationFactor f <= Stage1Filter.TapCount f ->
  Forall (fun channel => len channel = N) (atleast_2d pdm_signal) ->
  let T := Stage1Filter.TapCount f in
  let Q := Stage1Filter.DecimationFactor f in
  exists out,
    Stage1Filter.FilterInt16 f pdm_signal = Ok out
    /\ length out = length (atleast_2d pdm_signal)
    /\ forall ch channel,
         nth_error (atleast_2d pdm_signal) ch = Some channel ->
         len (nth ch out []) = N / Q
         /\ forall k, 0 <= k < N / Q ->
              nth (Z.to_nat k) (nth ch out []) 0
              = int32 (Z.shiftl
                         (int32 (dot_exact
                                   (window (padded1 (D := Int32) (T - Q) channel)
                                           (Z.to_nat (Q * k)) (Z.to_nat T))
                                   (Stage1Filter.CoefInt16 f)))
                         8).
Proof.
  intros Hinit HQ Hsig T Q.
  pose proof (Stage1_lengths _ _ _ Hinit) as HT.
  set (rows := atleast_2d pdm_signal) in *.
  set (t := length (Stage1Filter.CoefInt16 f)) in *.
  destruct (rows_uniform rows N Hsig) as (n & Hrows & Hshape & HN).
  assert (Hq : exists q : nat, Q = Z.of_nat q /\ (1 <= q <= t)%nat).
  { exists (Z.to_nat Q). unfold Q in *. lia. }
  destruct Hq as (q & Eq & Hq).
  assert (HP : Stage1Filter.TapCount f - Stage1Filter.DecimationFactor f
               = Z.of_nat (t - q)) by (fold Q; lia).
  unfold Stage1Filter.FilterInt16. fold rows. rewrite Hshape.
  fold Q. rewrite Eq, (floordiv_nat n q) by lia. cbn [bind].
  rewrite (Stage1_pad_ok f rows (t - q) n HP Hrows). cbn [bind].
  rewrite zeros_ok. cbn [bind]. rewrite HT.
  destruct (filter_loop (D := Int32)
              (map (padded1 (D := Int32) (Z.of_nat (t - q))) rows)
              (map int32 (Stage1Filter.CoefInt16 f)) (fun v => v) 0 0
              q t n (length rows))
    as (res & Eres & Hlen & Hres & Hval).
  { apply length_map. }
  { apply Forall_forall. intros r Hr. apply in_map_iff in Hr.
    destruct Hr as (r0 & <- & Hr0). rewrite padded1_length.
    rewrite Forall_forall in Hrows. rewrite (Hrows r0 Hr0). reflexivity. }
  { apply length_map. }
  { exact Hq. }
  { reflexivity. }
  cbn [zero Int32]. loop_result Eres. cbn [bind].
  eexists. split; [reflexivity|].
  split; [rewrite length_map; exact Hlen|].
  intros ch channel Hch.
  assert (Hlt : (ch < length rows)%nat)
    by (apply nth_error_Some; congruence).
  assert (Hne : rows <> []) by (intros E; rewrite E in Hlt; cbn in Hlt; lia).
  specialize (HN Hne). subst N.
  assert (Hnth : nth ch rows [] = channel)
    by (apply nth_error_nth; exact Hch).
  rewrite (nth_map_lt _ res ch [] []) by lia.
  assert (Hrow : length (nth ch res []) = (n / q)%nat).
  { rewrite Forall_forall in Hres. apply Hres. apply nth_In. lia. }
  rewrite <- Nat2Z.inj_div.
  split; [unfold len; rewrite length_map, Hrow; reflexivity|].
  intros k Hk.
  rewrite (nth_map_lt _ _ _ 0 0) by lia.
  rewrite (Hval ch (Z.to_nat k)) by lia.
  rewrite (nth_map_lt _ _ ch [] 0) by (rewrite length_map; lia).
  rewrite (nth_map_lt _ rows ch [] []) by lia.
  rewrite Hnth, dot_int32.
  unfold T. rewrite HT. fold t.
  replace (Z.of_nat t - Z.of_nat q) with (Z.of_nat (t - q)) by lia.
  replace (Z.to_nat (Z.of_nat q * k)) with (q * Z.to_nat k)%nat by lia.
  rewrite Nat2Z.id. reflexivity.
Qed.

Lemma Stage1_init_fields (coefs : list Q) (Q0 : Z) (f : Stage1Filter.t) :
  Stage1Filter.__init__ coefs Q0 = Ok f ->
  Stage1Filter.DecimationFactor f = Q0
  /\ Stage1Filter.TapCount f = len coefs
  /\ Stage1Filter.Coef f = coefs.
Proof.
  intros Hinit.
  destruct (Stage1_init_inv _ _ _ Hinit)
    as (_ & t & _ & _ & Hd & Hc & _).
  unfold Stage1Filter.DecimationFactor, Stage1Filter.TapCount, Stage1Filter.Coef.
  rewrite Hd, Hc. repeat split.
Qed.

Lemma FilterInt16_spec_witness :
  exists f out,
    Stage1Filter.__init__ (repeat 1%Q 256) 32 = Ok f
    /\ Stage1Filter.FilterInt16 f (Arr1 (repeat 1 64)) = Ok out
    /\ length out = 1%nat.
Proof.
  destruct (Stage1Filter.__init__ (repeat 1%Q 256) 32) as [f | e] eqn:E.
  - destruct (Stage1_init_fields _ _ _ E) as (Hd & Ht & _).
    destruct (FilterInt16_spec _ _ f (Arr1 (repeat 1 64)) 64 E)
      as (out & Hout & Hlen & _).
    + rewrite Hd, Ht. unfold len. rewrite repeat_length. lia.
    + constructor; [|constructor]. unfold len. rewrite repeat_length. reflexivity.
    + exists f, out. repeat split; assumption.
  - vm_compute in E. discriminate E.
Defined.

(** C1, as stated, fails: the constructor accepts a decimation factor above
    the tap count, and the padding of [FilterInt16] then raises. *)
Lemma FilterInt16_counterexample :
  exists f,
    Stage1Filter.__init__ (repeat 1%Q 256) 257 = Ok f
    /\ Stage1Filter.FilterInt16 f (Arr1 (repeat 1 514)) = Raise ValueError.
Proof.
  destruct (Stage1Filter.__init__ (repeat 1%Q 256) 257) as [f|e] eqn:E.
  - exists f. split; [reflexivity|].
    apply Ok_inj in E. vm_compute in E. subst f. vm_compute. reflexivity.
  - vm_compute in E. discriminate E.
Qed.

(** ** The second stage *)

Lemma Stage2_init_inv (coefs : list Q) (Q0 : Z) (f : Stage2Filter.t) :
  Stage2Filter.__init__ coefs Q0 = Ok f ->
  exists t, argmax (map Qabs coefs) = Ok t
     /\ Qle_bool (Qabs (nth t coefs 0%Q)) 1 = true
     /\ Stage2Filter.dec_factor f = Q0
     /\ Stage2Filter.coefs f = coefs
     /\ Stage2Filter.scale_int32 f
        = Float64.fdiv (Float64.of_int Stage2Filter.INT32_MAX_COEFFICIENT)
                       (Float64.Fin (nth t coefs 0%Q))
     /\ Stage2Filter.coefs_int32 f
        = map (fun c => Float64.astype_int32
                          (Float64.np_round
                             (Float64.fmul (Stage2Filter.scale_int32 f)
                                           (Float64.Fin c)))) coefs
     /\ Stage2Filter.int_floor_log2_minus
          (Stage2Filter.max_samp_out (Stage2Filter.coefs_int32 f)) 30
        = Ok (Stage2Filter.shr_int32 f).
Proof.
  unfold Stage2Filter.__init__, assert.
  destruct (argmax (map Qabs coefs)) as [t | e]; [|discriminate].
  cbn [bind].
  destruct (Qle_bool (Qabs (nth t coefs 0%Q)) 1) eqn:Hle; [|discriminate].
  cbn [bind].
  destruct (Stage2Filter.int_floor_log2_minus _ 30) as [shr | e] eqn:Hshr;
    [|discriminate].
  cbn [bind]. intros E. apply Ok_inj in E. subst f.
  exists t.
  cbn [Stage2Filter.dec_factor Stage2Filter.coefs Stage2Filter.scale_int32
       Stage2Filter.coefs_int32 Stage2Filter.shr_int32].
  repeat split; try reflexivity; assumption.
Qed.

Lemma Stage2_init_fields (coefs : list Q) (Q0 : Z) (f : Stage2Filter.t) :
  Stage2Filter.__init__ coefs Q0 = Ok f ->
  Stage2Filter.DecimationFactor f = Q0
  /\ Stage2Filter.TapCount f = len coefs
  /\ Stage2Filter.Coef f = coefs
  /\ length (Stage2Filter.CoefInt32 f) = length coefs.
Proof.
  intros Hinit.
  destruct (Stage2_init_inv _ _ _ Hinit)
    as (t & _ & _ & Hd & Hc & _ & Hci & _).
  unfold Stage2Filter.DecimationFactor, Stage2Filter.TapCount,
    Stage2Filter.Coef, Stage2Filter.CoefInt32.
  rewrite Hd, Hc, Hci, length_map. repeat split.
Qed.

(** ** The filters in floating point *)

Lemma Stage1_FilterFloat_ok (coefs : list Q) (Q0 : Z) (f : Stage1Filter.t)
    (pdm_signal : ndarray Float64.f64) (N : Z) :
  Stage1Filter.__init__ coefs Q0 = Ok f ->
  1 <= Stage1Filter.DecimationFactor f <= Stage1Filter.TapCount f ->
  Forall (fun channel => len channel = N) (atleast_2d pdm_signal) ->
  exists out,
    Stage1Filter.FilterFloat f pdm_signal = Ok out
    /\ length out = length (atleast_2d pdm_signal)
    /\ Forall (fun r => len r = N / Stage1Filter.DecimationFactor f) out.
Proof.
  intros Hinit HQ Hsig.
  destruct (Stage1_init_fields _ _ _ Hinit) as (_ & HT & HC).
  set (rows := atleast_2d pdm_signal) in *.
  set (t := length coefs).
  set (Q := Stage1Filter.DecimationFactor f) in *.
  assert (HT' : Stage1Filter.TapCount f = Z.of_nat t) by exact HT.
  destruct (rows_uniform rows N Hsig) as (n & Hrows & Hshape & HN).
  assert (Hq : exists q : nat, Q = Z.of_nat q /\ (1 <= q <= t)%nat).
  { exists (Z.to_nat Q). lia. }
  destruct Hq as (q & Eq & Hq).
  assert (HP : Stage1Filter.TapCount f - Stage1Filter.DecimationFactor f
               = Z.of_nat (t - q)) by (fold Q; lia).
  unfold Stage1Filter.FilterFloat. fold rows. rewrite Hshape.
  fold Q. rewrite Eq, (floordiv_nat n q) by lia. cbn [bind].
  rewrite (Stage1_pad_ok (D := Float) f rows (t - q) n HP Hrows). cbn [bind].
  rewrite zeros_ok. cbn [bind]. rewrite HT', HC.
  destruct (filter_loop (D := Float)
              (map (padded1 (D := Float) (Z.of_nat (t - q))) rows)
              (map Float64.Fin coefs) (fun v => v)
              (Float64.Fin 0) (Float64.Fin 0) q t n (length rows))
    as (res & Eres & Hlen & Hres & _).
  { apply length_map. }
  { apply Forall_forall. intros r Hr. apply in_map_iff in Hr.
    destruct Hr as (r0 & <- & Hr0). rewrite padded1_length.
    rewrite Forall_forall in Hrows. rewrite (Hrows r0 Hr0). reflexivity. }
  { apply length_map. }
  { exact Hq. }
  { reflexivity. }
  cbn [zero Float]. loop_result Eres.
  exists res. split; [reflexivity|]. split; [exact Hlen|].
  apply Forall_forall. intros r Hr.
  assert (Hne : rows <> []).
  { intros E. rewrite E in Hlen. destruct res; [destruct Hr | discriminate Hlen]. }
  rewrite (HN Hne), <- Nat2Z.inj_div. unfold len.
  rewrite Forall_forall in Hres. rewrite (Hres r Hr). reflexivity.
Qed.

Lemma Stage2_FilterFloat_ok (coefs : list Q) (Q0 : Z) (f : Stage2Filter.t)
    (signal_in : ndarray Float64.f64) (N : Z) :
  Stage2Filter.__init__ coefs Q0 = Ok f ->
  1 <= Stage2Filter.DecimationFactor f <= Stage2Filter.TapCount f ->
  Forall (fun channel => len channel = N) (atleast_2d signal_in) ->
  exists out,
    Stage2Filter.FilterFloat f signal_in = Ok out
    /\ length out = length (atleast_2d signal_in)
    /\ Forall (fun r => len r = N / Stage2Filter.DecimationFactor f) out.
Proof.
  intros Hinit HQ Hsig.
  destruct (Stage2_init_fields _ _ _ Hinit) as (_ & HT & HC & _).
  set (rows := atleast_2d signal_in) in *.
  set (t := length coefs).
  set (Q := Stage2Filter.DecimationFactor f) in *.
  assert (HT' : Stage2Filter.TapCount f = Z.of_nat t) by exact HT.
  destruct (rows_uniform rows N Hsig) as (n & Hrows & Hshape & HN).
  assert (Hq : exists q : nat, Q = Z.of_nat q /\ (1 <= q <= t)%nat).
  { exists (Z.to_nat Q). lia. }
  destruct Hq as (q & Eq & Hq).
  assert (HP : Stage2Filter.TapCount f - Stage2Filter.DecimationFactor f
               = Z.of_nat (t - q)) by (fold Q; lia).
  unfold Stage2Filter.FilterFloat. fold rows. rewrite Hshape.
  fold Q. rewrite Eq, (floordiv_nat n q) by lia. cbn [bind].
  rewrite (Stage2_pad_ok (D := Float) f rows (t - q) n HP Hrows). cbn [bind].
  rewrite zeros_ok. cbn [bind]. rewrite HT', HC.
  destruct (filter_loop (D := Float)
              (map (padded2 (D := Float) (Z.of_nat (t - q))) rows)
              (rev (map Float64.Fin coefs)) (fun v => v)
              (Float64.Fin 0) (Float64.Fin 0) q t n (length rows))
    as (res & Eres & Hlen & Hres & _).
  { apply length_map. }
  { apply Forall_forall. intros r Hr. apply in_map_iff in Hr.
    destruct Hr as (r0 & <- & Hr0). rewrite padded2_length.
    rewrite Forall_forall in Hrows. rewrite (Hrows r0 Hr0). reflexivity. }
  { rewrite length_rev. apply length_map. }
  { exact Hq. }
  { reflexivity. }
  cbn [zero Float]. loop_result Eres.
  exists res. split; [reflexivity|]. split; [exact Hlen|].
  apply Forall_forall. intros r Hr.
  assert (Hne : rows <> []).
  { intros E. rewrite E in Hlen. destruct res; [destruct Hr | discriminate Hlen]. }
  rewrite (HN Hne), <- Nat2Z.inj_div. unfold len.
  rewrite Forall_forall in Hres. rewrite (Hres r Hr). reflexivity.
Qed.

(** X1. For a constructed filter of either stage whose decimation factor [Q]
    is at least one and at most the tap count, [FilterFloat] returns, for a
    signal of [N] samples in each channel, as many channels as it was given,
    of [N / Q] samples each. *)
Theorem FilterFloat_shape :
  (forall (coefs : list Q) (Q0 : Z) (f : Stage1Filter.t)
          (pdm_signal : ndarray Float64.f64) (N : Z),
      Stage1Filter.__init__ coefs Q0 = Ok f ->
      1 <= Stage1Filter.DecimationFactor f <= Stage1Filter.TapCount f ->
      Forall (fun channel => len channel = N) (atleast_2d pdm_signal) ->
      exists out,
        Stage1Filter.FilterFloat f pdm_signal = Ok out
        /\ length out = length (atleast_2d pdm_signal)
        /\ Forall (fun r => len r = N / Stage1Filter.DecimationFactor f) out)
  /\ (forall (coefs : list Q) (Q0 : Z) (f : Stage2Filter.t)
             (signal_in : ndarray Float64.f64) (N : Z),
      Stage2Filter.__init__ coefs Q0 = Ok f ->
      1 <= Stage2Filter.DecimationFactor f <= Stage2Filter.TapCount f ->
      Forall (fun channel => len channel = N) (atleast_2d signal_in) ->
      exists out,
        Stage2Filter.FilterFloat f signal_in = Ok out
        /\ length out = length (atleast_2d signal_in)
        /\ Forall (fun r => len r = N / Stage2Filter.DecimationFactor f) out).
Proof.
  split.
  - exact Stage1_FilterFloat_ok.
  - exact Stage2_FilterFloat_ok.
Qed.

Lemma FilterFloat_shape_witness :
  (exists f out,
     Stage1Filter.__init__ (repeat 1%Q 256) 32 = Ok f
     /\ Stage1Filter.FilterFloat f (Arr1 (repeat (Float64.Fin 1) 64)) = Ok out
     /\ Forall (fun r => len r = 2) out)
  /\ (exists f out,
     Stage2Filter.__init__ [1%Q; (-1 # 2)%Q; (1 # 3)%Q] 2 = Ok f
     /\ Stage2Filter.FilterFloat f (Arr1 (repeat (Float64.Fin 1) 5)) = Ok out
     /\ Forall (fun r => len r = 2) out).
Proof.
  split.
  - destruct (Stage1Filter.__init__ (repeat 1%Q 256) 32) as [f | e] eqn:E.
    + destruct (Stage1_init_fields _ _ _ E) as (Hd & Ht & _).
      destruct (proj1 FilterFloat_shape _ _ f
                  (Arr1 (repeat (Float64.Fin 1) 64)) 64 E)
        as (out & Hout & _ & Hlen).
      * rewrite Hd, Ht. unfold len. rewrite repeat_length. lia.
      * constructor; [|constructor]. unfold len. rewrite repeat_length.
        reflexivity.
      * exists f, out. rewrite Hd in Hlen. repeat split; assumption.
    + vm_compute in E. discriminate E.
  - destruct (Stage2Filter.__init__ [1%Q; (-1 # 2)%Q; (1 # 3)%Q] 2)
      as [f | e] eqn:E.
    + destruct (Stage2_init_fields _ _ _ E) as (Hd & Ht & _).
      destruct (proj2 FilterFloat_shape _ _ f
                  (Arr1 (repeat (Float64.Fin 1) 5)) 5 E)
        as (out & Hout & _ & Hlen).
      * rewrite Hd, Ht. unfold len. cbn [length]. lia.
      * constructor; [|constructor]. reflexivity.
      * exists f, out. rewrite Hd in Hlen. repeat split; assumption.
    + vm_compute in E. discriminate E.
Defined.

(** ** The second stage in fixed point *)

Lemma Stage2_FilterInt32_ok (coefs : list Q) (Q0 : Z) (f : Stage2Filter.t)
    (signal_in : ndarray Z) (N : Z) :
  Stage2Filter.__init__ coefs Q0 = Ok f ->
  1 <= Stage2Filter.DecimationFactor f <= Stage2Filter.TapCount f ->
  Forall (fun channel => len channel = N) (atleast_2d signal_in) ->
  let T := Stage2Filter.TapCount f in
  let Q := Stage2Filter.DecimationFactor f in
  exists out,
    Stage2Filter.FilterInt32 f signal_in = Ok out
    /\ length out = length (atleast_2d signal_in)
    /\ Forall (fun r => len r = N / Q) out
    /\ forall ch channel,
         nth_error (atleast_2d signal_in) ch = Some channel ->
         forall k, 0 <= k < N / Q ->
           nth (Z.to_nat k) (nth ch out []) 0
           = Stage2Filter.rescale (Stage2Filter.ShrInt32 f)
               (int64 (dot_exact
                         (window (padded2 (D := Int32) (T - Q) channel)
                                 (Z.to_nat (Q * k)) (Z.to_nat T))
                         (rev (Stage2Filter.CoefInt32 f)))).
Proof.
  intros Hinit HQ Hsig T Q.
  destruct (Stage2_init_fields _ _ _ Hinit) as (_ & HT & _ & HL).
  set (rows := atleast_2d signal_in) in *.
  set (t := length coefs) in *.
  assert (HT' : T = Z.of_nat t) by exact HT.
  destruct (rows_uniform rows N Hsig) as (n & Hrows & Hshape & HN).
  assert (Hq : exists q : nat, Q = Z.of_nat q /\ (1 <= q <= t)%nat).
  { exists (Z.to_nat Q). unfold Q, T in *. lia. }
  destruct Hq as (q & Eq & Hq).
  assert (HP : Stage2Filter.TapCount f - Stage2Filter.DecimationFactor f
               = Z.of_nat (t - q)) by (fold Q; fold T; lia).
  unfold Stage2Filter.FilterInt32. fold rows. rewrite Hshape.
  fold Q. rewrite Eq, (floordiv_nat n q) by lia. cbn [bind].
  rewrite (Stage2_pad_ok (D := Int32) f rows (t - q) n HP Hrows). cbn [bind].
  rewrite zeros_ok. cbn [bind]. fold T. rewrite HT'.
  destruct (filter_loop (D := Int64)
              (map (padded2 (D := Int32) (Z.of_nat (t - q))) rows)
              (rev (map int64 (Stage2Filter.CoefInt32 f)))
              (map (Stage2Filter.rescale (Stage2Filter.shr_int32 f))) 0 0
              q t n (length rows))
    as (res & Eres & Hlen & Hres & Hval).
  { apply length_map. }
  { apply Forall_forall. intros r Hr. apply in_map_iff in Hr.
    destruct Hr as (r0 & <- & Hr0). rewrite padded2_length.
    rewrite Forall_forall in Hrows. rewrite (Hrows r0 Hr0). reflexivity. }
  { rewrite length_rev, length_map. exact HL. }
  { exact Hq. }
  { intros v. apply length_map. }
  cbn [zero Int32]. loop_result Eres.
  exists res. split; [reflexivity|]. split; [exact Hlen|].
  assert (Hne : (0 < length res)%nat -> N = Z.of_nat n).
  { intros Hpos. apply HN. intros E. rewrite E in Hlen. cbn in Hlen. lia. }
  split.
  - apply Forall_forall. intros r Hr.
    rewrite Hne by (destruct res; [destruct Hr | cbn; lia]).
    rewrite <- Nat2Z.inj_div. unfold len.
    rewrite Forall_forall in Hres. rewrite (Hres r Hr). reflexivity.
  - intros ch channel Hch k Hk.
    assert (Hlt : (ch < length rows)%nat)
      by (apply nth_error_Some; congruence).
    rewrite Hne in Hk by lia. rewrite <- Nat2Z.inj_div in Hk.
    assert (Hnth : nth ch rows [] = channel)
      by (apply nth_error_nth; exact Hch).
    rewrite (Hval ch (Z.to_nat k)) by lia.
    rewrite (nth_map_lt _ _ ch 0 0) by (rewrite !length_map; lia).
    rewrite (nth_map_lt _ _ ch [] 0) by (rewrite length_map; lia).
    rewrite (nth_map_lt _ rows ch [] []) by lia.
    rewrite Hnth, <- map_rev, dot_int64.
    replace (Z.of_nat t - Z.of_nat q) with (Z.of_nat (t - q)) by lia.
    replace (Z.to_nat (Z.of_nat q * k)) with (q * Z.to_nat k)%nat by lia.
    rewrite Nat2Z.id. reflexivity.
Qed.

(** X2. For a constructed second stage with [1 <= Q <= T] and an int32
    signal of [N] samples in each channel, [FilterInt32] returns [N / Q]
    samples for each channel; sample [k] is the dot product of the reversed
    int32 coefficients with the window [Q*k, Q*k + T) of the channel behind
    [T - Q] zeros, accumulated in 64 bits, then rescaled by
    [2^(-30 - shr_int32)], rounded and cast to int32. *)
Theorem FilterInt32_spec (coefs : list Q) (Q0 : Z) (f : Stage2Filter.t)
    (signal_in : ndarray Z) (N : Z) :
  Stage2Filter.__init__ coefs Q0 = Ok f ->
  1 <= Stage2Filter.DecimationFactor f <= Stage2Filter.TapCount f ->
  Forall (fun channel => len channel = N) (atleast_2d signal_in) ->
  exists out,
    Stage2Filter.FilterInt32 f signal_in = Ok out
    /\ length out = length (atleast_2d signal_in)
    /\ Forall (fun r => len r = N / Stage2Filter.DecimationFactor f) out
    /\ forall ch channel,
         nth_error (atleast_2d signal_in) ch = Some channel ->
         forall k, 0 <= k < N / Stage2Filter.DecimationFactor f ->
           nth (Z.to_nat k) (nth ch out []) 0
           = Stage2Filter.rescale (Stage2Filter.ShrInt32 f)
               (int64 (dot_exact
                         (window (padded2 (D := Int32)
                                    (Stage2Filter.TapCount f
                                     - Stage2Filter.DecimationFactor f) channel)
                                 (Z.to_nat (Stage2Filter.DecimationFactor f * k))
                                 (Z.to_nat (Stage2Filter.TapCount f)))
                         (rev (Stage2Filter.CoefInt32 f)))).
Proof. exact (Stage2_FilterInt32_ok coefs Q0 f signal_in N). Qed.

Lemma FilterInt32_spec_witness :
  exists f out,
    Stage2Filter.__init__ [1%Q; (-1 # 2)%Q; (1 # 3)%Q] 2 = Ok f
    /\ Stage2Filter.FilterInt32 f (Arr1 [256; 512; -256; 1024; 768]) = Ok out
    /\ Forall (fun r => len r = 2) out.
Proof.
  destruct (Stage2Filter.__init__ [1%Q; (-1 # 2)%Q; (1 # 3)%Q] 2)
    as [f | e] eqn:E.
  - destruct (Stage2_init_fields _ _ _ E) as (Hd & Ht & _).
    destruct (FilterInt32_spec _ _ f (Arr1 [256; 512; -256; 1024; 768]) 5 E)
      as (out & Hout & _ & Hlen & _).
    + rewrite Hd, Ht. unfold len. cbn [length]. lia.
    + constructor; [|constructor]. reflexivity.
    + exists f, out. rewrite Hd in Hlen. repeat split; assumption.
  - vm_compute in E. discriminate E.
Defined.

(** ** The chain of the two stages *)

Lemma Stage1_FilterInt16_ok (coefs : list Q) (Q0 : Z) (f : Stage1Filter.t)
    (pdm_signal : ndarray Z) (N : Z) :
  Stage1Filter.__init__ coefs Q0 = Ok f ->
  1 <= Stage1Filter.DecimationFactor f <= Stage1Filter.TapCount f ->
  Forall (fun channel => len channel = N) (atleast_2d pdm_signal) ->
  exists out,
    Stage1Filter.FilterInt16 f pdm_signal = Ok out
    /\ length out = length (atleast_2d pdm_signal)
    /\ Forall (fun r => len r = N / Stage1Filter.DecimationFactor f) out.
Proof.
  intros Hinit HQ Hsig.
  destruct (Stage1_init_fields _ _ _ Hinit) as (_ & HT & _).
  pose proof (Stage1_lengths _ _ _ Hinit) as HL.
  set (rows := atleast_2d pdm_signal) in *.
  set (t := length coefs).
  set (Q := Stage1Filter.DecimationFactor f) in *.
  assert (HT' : Stage1Filter.TapCount f = Z.of_nat t) by exact HT.
  destruct (rows_uniform rows N Hsig) as (n & Hrows & Hshape & HN).
  assert (Hq : exists q : nat, Q = Z.of_nat q /\ (1 <= q <= t)%nat).
  { exists (Z.to_nat Q). lia. }
  destruct Hq as (q & Eq & Hq).
  assert (HP : Stage1Filter.TapCount f - Stage1Filter.DecimationFactor f
               = Z.of_nat (t - q)) by (fold Q; lia).
  unfold Stage1Filter.FilterInt16. fold rows. rewrite Hshape.
  fold Q. rewrite Eq, (floordiv_nat n q) by lia. cbn [bind].
  rewrite (Stage1_pad_ok (D := Int32) f rows (t - q) n HP Hrows). cbn [bind].
  rewrite zeros_ok. cbn [bind]. rewrite HT'.
  destruct (filter_loop (D := Int32)
              (map (padded1 (D := Int32) (Z.of_nat (t - q))) rows)
              (map int32 (Stage1Filter.CoefInt16 f)) (fun v => v) 0 0
              q t n (length rows))
    as (res & Eres & Hlen & Hres & _).
  { apply length_map. }
  { apply Forall_forall. intros r Hr. apply in_map_iff in Hr.
    destruct Hr as (r0 & <- & Hr0). rewrite padded1_length.
    rewrite Forall_forall in Hrows. rewrite (Hrows r0 Hr0). reflexivity. }
  { rewrite length_map. unfold t. lia. }
  { exact Hq. }
  { reflexivity. }
  cbn [zero Int32]. loop_result Eres. cbn [bind].
  eexists. split; [reflexivity|]. split; [rewrite length_map; exact Hlen|].
  apply Forall_forall. intros r Hr.
  apply in_map_iff in Hr. destruct Hr as (r0 & <- & Hr0).
  assert (Hne : rows <> []).
  { intros E. rewrite E in Hlen. destruct res; [destruct Hr0 | discriminate Hlen]. }
  rewrite (HN Hne), <- Nat2Z.inj_div. unfold len.
  rewrite Forall_forall in Hres. rewrite length_map, (Hres r0 Hr0). reflexivity.
Qed.

(** X3. A chain of a first stage with [1 <= Q1 <= T1] and a second stage
    with [1 <= Q2 <= T2] turns an int32 PDM signal of [N] samples in each
    channel into as many channels of [(N / Q1) / Q2] samples. *)
Theorem TwoStageFilter_shape (coefs1 coefs2 : list Q) (Q1 Q2 : Z)
    (s1 : Stage1Filter.t) (s2 : Stage2Filter.t)
    (pdm_signal : ndarray Z) (N : Z) :
  Stage1Filter.__init__ coefs1 Q1 = Ok s1 ->
  Stage2Filter.__init__ coefs2 Q2 = Ok s2 ->
  1 <= Q1 <= len coefs1 ->
  1 <= Q2 <= len coefs2 ->
  Forall (fun channel => len channel = N) (atleast_2d pdm_signal) ->
  exists out,
    TwoStageFilter.Filter (TwoStageFilter.__init__ s1 s2) pdm_signal = Ok out
    /\ length out = length (atleast_2d pdm_signal)
    /\ Forall (fun r => len r = N / Q1 / Q2) out.
Proof.
  intros H1 H2 HQ1 HQ2 Hsig.
  destruct (Stage1_init_fields _ _ _ H1) as (Hd1 & Ht1 & _).
  destruct (Stage2_init_fields _ _ _ H2) as (Hd2 & Ht2 & _).
  destruct (Stage1_FilterInt16_ok _ _ s1 pdm_signal N H1)
    as (mid & Emid & Lmid & Hmid); [rewrite Hd1, Ht1; exact HQ1 | exact Hsig |].
  destruct (Stage2_FilterInt32_ok _ _ s2 (Arr2 mid) (N / Q1) H2)
    as (out & Eout & Lout & Hout & _).
  { rewrite Hd2, Ht2. exact HQ2. }
  { rewrite Hd1 in Hmid. exact Hmid. }
  unfold TwoStageFilter.Filter, TwoStageFilter.__init__.
  cbn [TwoStageFilter.s1 TwoStageFilter.s2]. rewrite Emid. cbn [bind].
  exists out. split; [exact Eout|]. split.
  - rewrite Lout. exact Lmid.
  - rewrite Hd2 in Hout. exact Hout.
Qed.

Lemma TwoStageFilter_shape_witness :
  exists s1 s2 out,
    Stage1Filter.__init__ (repeat 1%Q 256) 32 = Ok s1
    /\ Stage2Filter.__init__ [1%Q; (-1 # 2)%Q; (1 # 3)%Q] 2 = Ok s2
    /\ TwoStageFilter.Filter (TwoStageFilter.__init__ s1 s2)
         (Arr1 (repeat 1 160)) = Ok out
    /\ Forall (fun r => len r = 2) out.
Proof.
  destruct (Stage1Filter.__init__ (repeat 1%Q 256) 32) as [s1 | e] eqn:E1;
    [|vm_compute in E1; discriminate E1].
  destruct (Stage2Filter.__init__ [1%Q; (-1 # 2)%Q; (1 # 3)%Q] 2)
    as [s2 | e] eqn:E2; [|vm_compute in E2; discriminate E2].
  destruct (TwoStageFilter_shape _ _ _ _ s1 s2 (Arr1 (repeat 1 160)) 160 E1 E2)
    as (out & Hout & _ & Hlen).
  - unfold len. rewrite repeat_length. lia.
  - unfold len. cbn [length]. lia.
  - constructor; [|constructor]. unfold len. rewrite repeat_length. reflexivity.
  - exists s1, s2, out. repeat split; assumption.
Defined.

(** ** The output scaling of the first stage *)

Lemma int32_shl8 (v : Z) :
  int32 (Z.shiftl v 8) mod 256 = 0
  /\ - 2 ^ 31 <= int32 (Z.shiftl v 8) < 2 ^ 31.
Proof.
  unfold int32, wrap. rewrite Z.shiftl_mul_pow2 by lia.
  change (2 ^ (32 - 1)) with 2147483648. change (2 ^ 32) with 4294967296.
  change (2 ^ 8) with 256. change (2 ^ 31) with 2147483648.
  set (x := v * 256 + 2147483648).
  pose proof (Z.div_mod x 4294967296 ltac:(lia)) as Hx.
  pose proof (Z.mod_pos_bound x 4294967296 ltac:(lia)) as Hb.
  split; [|lia].
  replace (x mod 4294967296 - 2147483648)
    with ((v - 16777216 * (x / 4294967296)) * 256) by lia.
  apply Z.mod_mul. lia.
Qed.

(** X4. Whatever the filter and the signal, every sample that
    [FilterInt16] returns is an int32 multiple of 256: the low eight bits of
    the first stage's output are clear. *)
Theorem FilterInt16_low_bits (f : Stage1Filter.t) (pdm_signal : ndarray Z)
    (out : list (list Z)) :
  Stage1Filter.FilterInt16 f pdm_signal = Ok out ->
  Forall (Forall (fun s => s mod 256 = 0 /\ - 2 ^ 31 <= s < 2 ^ 31)) out.
Proof.
  unfold Stage1Filter.FilterInt16.
  destruct (shape (atleast_2d pdm_signal)) as [CHANS SAMPS_IN].
  destruct (floordiv SAMPS_IN (Stage1Filter.DecimationFactor f)) as [N_pcm | e];
    cbn [bind]; [|discriminate].
  destruct (Stage1Filter._pad_input f (atleast_2d pdm_signal)) as [S | e];
    cbn [bind]; [|discriminate].
  destruct (zeros zero CHANS N_pcm) as [res0 | e]; cbn [bind]; [|discriminate].
  destruct (for_each _ _ res0) as [res | e]; cbn [bind]; [|discriminate].
  intros E. apply Ok_inj in E. subst out.
  apply Forall_forall. intros r Hr. apply in_map_iff in Hr.
  destruct Hr as (r0 & <- & _).
  apply Forall_forall. intros s Hs. apply in_map_iff in Hs.
  destruct Hs as (v & <- & _). apply int32_shl8.
Qed.

Lemma FilterInt16_low_bits_witness :
  exists f out,
    Stage1Filter.__init__ (repeat 1%Q 256) 32 = Ok f
    /\ Stage1Filter.FilterInt16 f (Arr1 (repeat 1 64)) = Ok out
    /\ out <> []
    /\ Forall (Forall (fun s => s mod 256 = 0 /\ - 2 ^ 31 <= s < 2 ^ 31)) out.
Proof.
  destruct (Stage1Filter.__init__ (repeat 1%Q 256) 32) as [f | e] eqn:E;
    [|vm_compute in E; discriminate E].
  destruct (Stage1Filter.FilterInt16 f (Arr1 (repeat 1 64))) as [out | e] eqn:E2.
  - exists f, out. split; [reflexivity|]. split; [exact E2|]. split.
    + vm_compute in E. apply Ok_inj in E. subst f.
      vm_compute in E2. apply Ok_inj in E2. subst out. discriminate.
    + exact (FilterInt16_low_bits f _ out E2).
  - vm_compute in E. apply Ok_inj in E. subst f.
    vm_compute in E2. discriminate E2.
Defined.

(** ** Decimation factors that the constructors let through *)



Lemma set_slice_nil_raises {A : Type} (row : list A) (P : Z) :
  P < 0 -> 0 < P + len row ->
  set_slice row None (Some P) [] = Raise ValueError.
Proof.
  intros HP Hpos. unfold set_slice, slice_bound.
  destruct (Z.ltb_spec P 0); [|lia].
  change (len (@nil A)) with 0.
  destruct (Z.eqb_spec 0 (Z.max 0 (Z.max 0 (P + len row) - 0))); [lia|].
  reflexivity.
Qed.

Lemma set_slice_nil_same {A : Type} (row : list A) (P : Z) :
  P < 0 -> P + len row <= 0 ->
  set_slice row None (Some P) [] = Ok row.
Proof.
  intros HP Hneg. unfold set_slice, slice_bound.
  destruct (Z.ltb_spec P 0); [|lia].
  change (len (@nil A)) with 0.
  replace (Z.max 0 (Z.max 0 (P + len row) - 0)) with 0 by lia.
  reflexivity.
Qed.

Lemma set_slice_tail_raises {A : Type} (row src : list A) (P : Z) :
  P < 0 -> len row < len src -> (2 <= length src)%nat ->
  set_slice row (Some P) None src = Raise ValueError.
Proof.
  intros HP Hlt Hsrc. unfold set_slice, slice_bound.
  destruct (Z.ltb_spec P 0); [|lia].
  pose proof (len_nonneg row) as Hn.
  destruct (Z.eqb_spec (len src)
              (Z.max 0 (len row - Z.max 0 (P + len row)))); [lia|].
  destruct src as [|x [|y src]]; cbn [length] in Hsrc; try lia; reflexivity.
Qed.

Lemma mapM_same {A : Type} (f : A -> result A) (l : list A) :
  (forall x, In x l -> f x = Ok x) -> mapM f l = Ok l.
Proof.
  intros H. rewrite (mapM_ok f (fun x => x)) by exact H.
  rewrite map_id. reflexivity.
Qed.

(** The padding of the first stage when the decimation factor exceeds the
    tap count: the pad length is negative, and one of the two slice
    assignments cannot be broadcast. *)
Lemma Stage1_pad_raises {A : Type} {D : Dtype A} (f : Stage1Filter.t)
    (sig_in : list (list A)) (n : nat) :
  Stage1Filter.TapCount f < Stage1Filter.DecimationFactor f ->
  sig_in <> [] -> Forall (fun r => length r = n) sig_in -> (2 <= n)%nat ->
  Stage1Filter._pad_input f sig_in = Raise ValueError.
Proof.
  intros HQ Hne Hsig Hn. unfold Stage1Filter._pad_input.
  rewrite (shape_rows sig_in n Hne Hsig).
  set (P := Stage1Filter.TapCount f - Stage1Filter.DecimationFactor f).
  assert (HP : P < 0) by (unfold P; lia).
  unfold zeros.
  destruct (Z.ltb_spec (Z.of_nat (length sig_in)) 0) as [|_]; [lia|].
  destruct (Z.ltb_spec (P + Z.of_nat n) 0) as [|Hm]; [reflexivity|].
  cbn [orb bind]. rewrite Nat2Z.id.
  set (row := repeat zero (Z.to_nat (P + Z.of_nat n))).
  assert (Hrow : len row = P + Z.of_nat n).
  { unfold row, len. rewrite repeat_length. lia. }
  assert (Harange : arange P = []).
  { unfold arange, range. replace (Z.to_nat P) with 0%nat by lia. reflexivity. }
  rewrite Harange. cbn [map].
  destruct sig_in as [|r0 l]; [congruence|].
  cbn [length repeat]. unfold set_cols_1d.
  destruct (Z_lt_le_dec 0 (P + len row)) as [Hpos | Hneg].
  - cbn [mapM]. rewrite (set_slice_nil_raises row P HP Hpos). reflexivity.
  - rewrite mapM_same.
    + cbn [bind]. unfold set_cols_2d. cbn [combine mapM fst snd].
      rewrite (set_slice_tail_raises row r0 P HP); [reflexivity | |].
      * inversion Hsig; subst. unfold len in *. lia.
      * inversion Hsig; subst. exact Hn.
    + intros x [<- | Hx]; [|apply repeat_spec in Hx; subst x];
        apply set_slice_nil_same; assumption.
Qed.

Lemma Stage2_pad_raises {A : Type} {D : Dtype A} (f : Stage2Filter.t)
    (sig_in : list (list A)) (n : nat) :
  Stage2Filter.TapCount f < Stage2Filter.DecimationFactor f ->
  sig_in <> [] -> Forall (fun r => length r = n) sig_in -> (2 <= n)%nat ->
  Stage2Filter._pad_input f sig_in = Raise ValueError.
Proof.
  intros HQ Hne Hsig Hn. unfold Stage2Filter._pad_input.
  rewrite (shape_rows sig_in n Hne Hsig).
  set (P := Stage2Filter.TapCount f - Stage2Filter.DecimationFactor f).
  assert (HP : P < 0) by (unfold P; lia).
  unfold zeros.
  destruct (Z.ltb_spec (Z.of_nat (length sig_in)) 0) as [|_]; [lia|].
  destruct (Z.ltb_spec (P + Z.of_nat n) 0) as [|Hm]; [reflexivity|].
  cbn [orb bind]. rewrite Nat2Z.id.
  set (row := repeat zero (Z.to_nat (P + Z.of_nat n))).
  assert (Hrow : len row = P + Z.of_nat n).
  { unfold row, len. rewrite repeat_length. lia. }
  destruct sig_in as [|r0 l]; [congruence|].
  cbn [length repeat]. unfold set_cols_2d. cbn [combine mapM fst snd].
  rewrite (set_slice_tail_raises row r0 P HP); [reflexivity | |].
  - inversion Hsig; subst. unfold len in *. lia.
  - inversion Hsig; subst. exact Hn.
Qed.

(** X6. A first stage whose decimation factor exceeds its tap count is
    accepted by the constructor, but its filters raise [ValueError] on
    every signal of at least one channel and at least two samples in each:
    the padding cannot be laid out. *)
Theorem Stage1_decimation_above_taps (coefs : list Q) (Q0 : Z)
    (f : Stage1Filter.t) :
  Stage1Filter.__init__ coefs Q0 = Ok f ->
  len coefs < Q0 ->
  (forall (s : ndarray Float64.f64) (N : Z),
      atleast_2d s <> [] ->
      Forall (fun channel => len channel = N) (atleast_2d s) -> 2 <= N ->
      Stage1Filter.FilterFloat f s = Raise ValueError)
  /\ (forall (s : ndarray Z) (N : Z),
      atleast_2d s <> [] ->
      Forall (fun channel => len channel = N) (atleast_2d s) -> 2 <= N ->
      Stage1Filter.FilterInt16 f s = Raise ValueError).
Proof.
  intros Hinit HQ.
  destruct (Stage1_init_fields _ _ _ Hinit) as (Hd & Ht & _).
  pose proof (len_nonneg coefs) as Hlen.
  split; intros s N Hne Hsig HN;
    destruct (rows_uniform _ N Hsig) as (n & Hrows & Hshape & Hn);
    specialize (Hn Hne).
  - unfold Stage1Filter.FilterFloat. rewrite Hshape. unfold floordiv.
    destruct (Z.eqb_spec (Stage1Filter.DecimationFactor f) 0); [lia|].
    cbn [bind].
    rewrite (Stage1_pad_raises (D := Float) f _ n); try assumption;
      [reflexivity | lia | lia].
  - unfold Stage1Filter.FilterInt16. rewrite Hshape. unfold floordiv.
    destruct (Z.eqb_spec (Stage1Filter.DecimationFactor f) 0); [lia|].
    cbn [bind].
    rewrite (Stage1_pad_raises (D := Int32) f _ n); try assumption;
      [reflexivity | lia | lia].
Qed.

Lemma Stage1_decimation_above_taps_witness :
  exists f,
    Stage1Filter.__init__ (repeat 1%Q 256) 300 = Ok f
    /\ Stage1Filter.FilterInt16 f (Arr2 [[1; -1; 1]; [1; 1; -1]])
       = Raise ValueError.
Proof.
  destruct (Stage1Filter.__init__ (repeat 1%Q 256) 300) as [f | e] eqn:E;
    [|vm_compute in E; discriminate E].
  exists f. split; [reflexivity|].
  apply (proj2 (Stage1_decimation_above_taps _ _ f E ltac:(vm_compute; reflexivity))
           (Arr2 [[1; -1; 1]; [1; 1; -1]]) 3).
  - discriminate.
  - repeat constructor.
  - lia.
Defined.

(** X7. The same for the second stage: with a decimation factor above the
    tap count, [FilterFloat] and [FilterInt32] raise [ValueError] on every
    signal of at least one channel and at least two samples in each. *)
Theorem Stage2_decimation_above_taps (coefs : list Q) (Q0 : Z)
    (f : Stage2Filter.t) :
  Stage2Filter.__init__ coefs Q0 = Ok f ->
  len coefs < Q0 ->
  (forall (s : ndarray Float64.f64) (N : Z),
      atleast_2d s <> [] ->
      Forall (fun channel => len channel = N) (atleast_2d s) -> 2 <= N ->
      Stage2Filter.FilterFloat f s = Raise ValueError)
  /\ (forall (s : ndarray Z) (N : Z),
      atleast_2d s <> [] ->
      Forall (fun channel => len channel = N) (atleast_2d s) -> 2 <= N ->
      Stage2Filter.FilterInt32 f s = Raise ValueError).
Proof.
  intros Hinit HQ.
  destruct (Stage2_init_fields _ _ _ Hinit) as (Hd & Ht & _).
  pose proof (len_nonneg coefs) as Hlen.
  split; intros s N Hne Hsig HN;
    destruct (rows_uniform _ N Hsig) as (n & Hrows & Hshape & Hn);
    specialize (Hn Hne).
  - unfold Stage2Filter.FilterFloat. rewrite Hshape. unfold floordiv.
    destruct (Z.eqb_spec (Stage2Filter.DecimationFactor f) 0); [lia|].
    cbn [bind].
    rewrite (Stage2_pad_raises (D := Float) f _ n); try assumption;
      [reflexivity | lia | lia].
  - unfold Stage2Filter.FilterInt32. rewrite Hshape. unfold floordiv.
    destruct (Z.eqb_spec (Stage2Filter.DecimationFactor f) 0); [lia|].
    cbn [bind].
    rewrite (Stage2_pad_raises (D := Int32) f _ n); try assumption;
      [reflexivity | lia | lia].
Qed.

Lemma Stage2_decimation_above_taps_witness :
  exists f,
    Stage2Filter.__init__ [1%Q] 2 = Ok f
    /\ Stage2Filter.FilterInt32 f (Arr1 [256; 512; 768; 1024])
       = Raise ValueError.
Proof.
  destruct (Stage2Filter.__init__ [1%Q] 2) as [f | e] eqn:E;
    [|vm_compute in E; discriminate E].
  exists f. split; [reflexivity|].
  apply (proj2 (Stage2_decimation_above_taps _ _ f E ltac:(vm_compute; reflexivity))
           (Arr1 [256; 512; 768; 1024]) 4).
  - discriminate.
  - repeat constructor.
  - lia.
Defined.

(** ** Loading with truncation *)

Lemma Stage1_init_nil (Q0 : Z) : Stage1Filter.__init__ [] Q0 = Raise ValueError.
Proof. reflexivity. Qed.

(** X8. Whenever [load] with [truncate_s1] succeeds, the stage-1
    coefficient sequence it was given had a length that is not a multiple of
    256, and the first stage it returns holds exactly the leading
    [256 * floor(len / 256)] coefficients, the second stage all of its own. *)
Theorem load_truncated (c1 c2 : list Q) (q1 q2 : Z)
    (f1 : Stage1Filter.t) (f2 : Stage2Filter.t) :
  load (c1, q1) (c2, q2) true = Ok (f1, f2) ->
  len c1 mod 256 <> 0
  /\ Stage1Filter.Coef f1 = firstn (Z.to_nat (256 * (len c1 / 256))) c1
  /\ Stage1Filter.TapCount f1 = 256 * (len c1 / 256)
  /\ Stage1Filter.DecimationFactor f1 = q1
  /\ Stage2Filter.Coef f2 = c2
  /\ Stage2Filter.DecimationFactor f2 = q2.
Proof.
  unfold load. cbn [fst snd].
  destruct (Stage1Filter.__init__ (truncate c1) q1) as [g1 | e] eqn:E1;
    cbn [bind]; [|discriminate].
  destruct (Stage2Filter.__init__ c2 q2) as [g2 | e] eqn:E2;
    cbn [bind]; [|discriminate].
  intros E. apply Ok_inj in E.
  assert (g1 = f1) by congruence. assert (g2 = f2) by congruence.
  subst g1 g2. clear E.
  assert (Hmod : len c1 mod 256 <> 0).
  { intros Hmod. rewrite (truncate_aligned c1 Hmod), Stage1_init_nil in E1.
    discriminate E1. }
  destruct (Stage1_init_fields _ _ _ E1) as (Hd1 & Ht1 & Hc1).
  destruct (Stage2_init_fields _ _ _ E2) as (Hd2 & _ & Hc2 & _).
  rewrite (truncate_unaligned c1 Hmod) in Ht1, Hc1.
  repeat split; try assumption.
  rewrite Ht1. unfold len. rewrite length_firstn.
  pose proof (Z.div_mod (Z.of_nat (length c1)) 256 ltac:(lia)).
  pose proof (Z.mod_pos_bound (Z.of_nat (length c1)) 256 ltac:(lia)).
  pose proof (Z.div_pos (Z.of_nat (length c1)) 256 ltac:(lia) ltac:(lia)).
  lia.
Qed.

Lemma load_truncated_witness :
  exists f1 f2,
    load (repeat 1%Q 300, 32) ([1%Q; (-1 # 2)%Q], 2) true = Ok (f1, f2)
    /\ Stage1Filter.TapCount f1 = 256.
Proof.
  destruct (load (repeat 1%Q 300, 32) ([1%Q; (-1 # 2)%Q], 2) true)
    as [[f1 f2] | e] eqn:E; [|vm_compute in E; discriminate E].
  exists f1, f2. split; [reflexivity|].
  destruct (load_truncated _ _ _ _ f1 f2 E) as (_ & _ & Ht & _).
  rewrite Ht. reflexivity.
Defined.

(** X9. [load] with [truncate_s1] fails with [ValueError] on every stage-1
    coefficient sequence whose length is already a multiple of 256: the
    slice [[:-0]] empties it. *)
Theorem load_aligned_fails (c1 : list Q) (q1 : Z) (stage2 : list Q * Z) :
  len c1 mod 256 = 0 ->
  load (c1, q1) stage2 true = Raise ValueError.
Proof.
  intros Hmod. unfold load. cbn [fst snd].
  rewrite (truncate_aligned c1 Hmod), Stage1_init_nil. reflexivity.
Qed.

Lemma load_aligned_fails_witness :
  load (repeat (1 # 2)%Q 512, 32) ([1%Q], 1) true = Raise ValueError.
Proof.
  apply load_aligned_fails. unfold len. rewrite repeat_length. reflexivity.
Defined.

(** ** The correlator on arbitrary vectors *)

Lemma differ_sum_sym (a : list Z) : forall b,
  np_sum (zip_with differ a b) = np_sum (zip_with differ b a).
Proof.
  induction a as [|x a IH]; intros [|y b]; try reflexivity.
  rewrite !zip_with_cons, !np_sum_cons, IH. unfold differ.
  rewrite (Z.eqb_sym x y). reflexivity.
Qed.

Lemma differ_sum_zero (a : list Z) : forall b,
  length a = length b ->
  (np_sum (zip_with differ a b) = 0 <-> a = b).
Proof.
  induction a as [|x a IH]; intros [|y b] Hlen; cbn [length] in Hlen;
    try discriminate.
  - split; reflexivity.
  - rewrite zip_with_cons, np_sum_cons.
    pose proof (differ_bounds a b) as Hb.
    specialize (IH b ltac:(lia)).
    unfold differ at 1. destruct (Z.eqb_spec x y) as [-> | Hxy]; cbn [negb Z.b2z].
    + split; intros H.
      * f_equal. apply IH. lia.
      * injection H as H. apply IH in H. lia.
    + split; intros H; [lia | congruence].
Qed.

Lemma VLMACCR1_inv (a b : list Z) (acc r : Z) :
  VLMACCR1 a b acc = Ok r ->
  length a = 256%nat /\ length b = 256%nat
  /\ r = acc + (128 - np_sum (zip_with differ a b)).
Proof.
  unfold VLMACCR1, assert, len.
  destruct (Z.eqb_spec (Z.of_nat (length a)) 256) as [Ha | Ha];
    cbn [bind]; [|discriminate].
  destruct (Z.eqb_spec (Z.of_nat (length b)) 256) as [Hb | Hb];
    cbn [bind]; [|discriminate].
  intros E. apply Ok_inj in E. repeat split; lia.
Qed.

(** X10. On any two vectors (binary or not) on which it succeeds,
    [VLMACCR1] counts places that differ: the result is the same with the
    arguments swapped, lies within 128 of the accumulator, is the
    accumulator plus the result from zero, and is [acc + 128] exactly when
    the two vectors are equal. *)
Theorem VLMACCR1_any (a b : list Z) (acc r : Z) :
  VLMACCR1 a b acc = Ok r ->
  VLMACCR1 b a acc = Ok r
  /\ acc - 128 <= r <= acc + 128
  /\ VLMACCR1 a b 0 = Ok (r - acc)
  /\ (r = acc + 128 <-> a = b).
Proof.
  intros H. destruct (VLMACCR1_inv _ _ _ _ H) as (Ha & Hb & Hr).
  pose proof (differ_bounds a b) as Hd. rewrite Ha in Hd.
  pose proof (differ_sum_zero a b ltac:(congruence)) as Hz.
  repeat split.
  - rewrite VLMACCR1_ok, differ_sum_sym by assumption. rewrite Hr. reflexivity.
  - lia.
  - lia.
  - rewrite VLMACCR1_ok by assumption. f_equal. lia.
  - intros E. apply Hz. lia.
  - intros E. apply Hz in E. lia.
Qed.

Lemma VLMACCR1_any_witness :
  VLMACCR1 (repeat 5 256) (repeat 7 256) 3 = Ok (-125)
  /\ VLMACCR1 (repeat 7 256) (repeat 5 256) 3 = Ok (-125).
Proof.
  assert (E : VLMACCR1 (repeat 5 256) (repeat 7 256) 3 = Ok (-125))
    by (vm_compute; reflexivity).
  split; [exact E|].
  exact (proj1 (VLMACCR1_any _ _ _ _ E)).
Defined.

(** ** What the constructors accept *)

Lemma argmax_from_max (l : list Q) : forall (pre : list Q) (best : Q) (ibest i : nat),
  i = length pre -> (ibest < i)%nat -> nth ibest pre 0%Q = best ->
  (forall x, In x pre -> (x <= best)%Q) ->
  let t := argmax_from best ibest i l in
  (t < length (pre ++ l))%nat
  /\ forall x, In x (pre ++ l) -> (x <= nth t (pre ++ l) 0)%Q.
Proof.
  induction l as [|x l IH]; intros pre best ibest i Hi Hlt Hbest Hpre; cbn zeta.
  - cbn [argmax_from]. rewrite app_nil_r. split; [lia|].
    rewrite Hbest. exact Hpre.
  - cbn [argmax_from].
    replace (pre ++ x :: l) with ((pre ++ [x]) ++ l)
      by (rewrite <- app_assoc; reflexivity).
    destruct (Qle_bool x best) eqn:Hx.
    + apply IH.
      * rewrite length_app. cbn [length]. lia.
      * lia.
      * rewrite app_nth1 by lia. exact Hbest.
      * intros y Hy. apply in_app_iff in Hy. destruct Hy as [Hy | [<- | []]].
        -- apply Hpre. exact Hy.
        -- apply Qle_bool_iff. exact Hx.
    + assert (Hlt' : (best < x)%Q).
      { apply Qnot_le_lt. intros Hle. apply Qle_bool_iff in Hle. congruence. }
      apply IH.
      * rewrite length_app. cbn [length]. lia.
      * lia.
      * subst i. rewrite app_nth2 by lia. rewrite Nat.sub_diag. reflexivity.
      * intros y Hy. apply in_app_iff in Hy. destruct Hy as [Hy | [<- | []]].
        -- apply Qle_trans with best; [apply Hpre; exact Hy|].
           apply Qlt_le_weak. exact Hlt'.
        -- apply Qle_refl.
Qed.

(** [np.argmax] returns an index of a greatest element. *)
Lemma argmax_max (l : list Q) (t : nat) :
  argmax l = Ok t ->
  (t < length l)%nat /\ forall x, In x l -> (x <= nth t l 0)%Q.
Proof.
  destruct l as [|x l]; [discriminate|].
  unfold argmax. intros E. apply Ok_inj in E. subst t.
  apply (argmax_from_max l [x] x 0%nat 1%nat); try reflexivity.
  - lia.
  - intros y [<- | []]. apply Qle_refl.
Qed.

Lemma argmax_some (l : list Q) : l <> [] -> exists t, argmax l = Ok t.
Proof. destruct l as [|x l]; [congruence|]. intros _. eexists. reflexivity. Qed.

(** The assertion on the peak holds exactly when every coefficient has a
    magnitude of at most one. *)
Lemma peak_le_one (coefs : list Q) (t : nat) :
  argmax (map Qabs coefs) = Ok t ->
  (Qle_bool (Qabs (nth t coefs 0%Q)) 1 = true
   <-> Forall (fun c => (Qabs c <= 1)%Q) coefs).
Proof.
  intros Ht. destruct (argmax_max _ _ Ht) as (Hlt & Hmax).
  rewrite length_map in Hlt.
  assert (Hnth : nth t (map Qabs coefs) 0%Q = Qabs (nth t coefs 0%Q))
    by (apply (map_nth Qabs coefs 0%Q t)).
  rewrite Hnth in Hmax. rewrite Qle_bool_iff. split.
  - intros Hle. apply Forall_forall. intros c Hc.
    apply Qle_trans with (Qabs (nth t coefs 0%Q)); [|exact Hle].
    apply Hmax. apply in_map. exact Hc.
  - intros Hall. rewrite Forall_forall in Hall. apply Hall.
    apply nth_In. exact Hlt.
Qed.

Lemma int16_range (z : Z) : - 2 ^ 15 <= int16 z < 2 ^ 15.
Proof.
  unfold int16, wrap.
  change (2 ^ (16 - 1)) with 32768. change (2 ^ 15) with 32768.
  pose proof (Z.mod_pos_bound (z + 32768) (2 ^ 16) ltac:(lia)) as H.
  change (2 ^ 16) with 65536 in *. lia.
Qed.

(** X11. The first-stage constructor succeeds exactly on the non-empty
    coefficient sets whose length is a multiple of 256 and whose magnitudes
    are all at most one; the object then has [len coefs] taps in
    [len coefs / 256] blocks and as many int16 coefficients. Otherwise it
    raises: [AssertionError] for a length that is not a multiple of 256 or a
    magnitude above one, [ValueError] (from [np.argmax]) for no coefficients
    at all. *)
Theorem Stage1_init_accepts (coefs : list Q) (Q0 : Z) :
  (len coefs mod 256 = 0 -> coefs <> [] ->
   Forall (fun c => (Qabs c <= 1)%Q) coefs ->
   exists f, Stage1Filter.__init__ coefs Q0 = Ok f
     /\ Stage1Filter.DecimationFactor f = Q0
     /\ Stage1Filter.Coef f = coefs
     /\ Stage1Filter.TapCount f = len coefs
     /\ Stage1Filter.BlockCount f * 256 = Stage1Filter.TapCount f
     /\ len (Stage1Filter.CoefInt16 f) = Stage1Filter.TapCount f
     /\ Forall (fun c => - 2 ^ 15 <= c < 2 ^ 15) (Stage1Filter.CoefInt16 f))
  /\ (len coefs mod 256 <> 0 ->
      Stage1Filter.__init__ coefs Q0 = Raise AssertionError)
  /\ (coefs = [] -> Stage1Filter.__init__ coefs Q0 = Raise ValueError)
  /\ (len coefs mod 256 = 0 ->
      Exists (fun c => ~ (Qabs c <= 1)%Q) coefs ->
      Stage1Filter.__init__ coefs Q0 = Raise AssertionError).
Proof.
  repeat split.
  - intros Hmod Hne Hall.
    destruct (argmax_some (map Qabs coefs)) as (t & Ht).
    { destruct coefs; [congruence | discriminate]. }
    pose proof (proj2 (peak_le_one coefs t Ht) Hall) as Hpeak.
    assert (E : exists f, Stage1Filter.__init__ coefs Q0 = Ok f).
    { unfold Stage1Filter.__init__, assert, Stage1Filter.BLOCK_SIZE.
      rewrite Hmod. cbn [Z.eqb bind]. rewrite Ht. cbn [bind].
      rewrite Hpeak. cbn [bind]. eexists. reflexivity. }
    destruct E as (f & E). exists f. split; [exact E|].
    destruct (Stage1_init_fields _ _ _ E) as (Hd & HT & HC).
    pose proof (Stage1_lengths _ _ _ E) as HL.
    destruct (Stage1_init_inv _ _ _ E) as (_ & t' & _ & _ & _ & _ & _ & Hci & _).
    repeat split; try assumption.
    + unfold Stage1Filter.BlockCount, Stage1Filter.BLOCK_SIZE.
      fold (Stage1Filter.TapCount f). rewrite HT.
      pose proof (Z.div_mod (len coefs) 256 ltac:(lia)). lia.
    + unfold len. rewrite HL. reflexivity.
    + unfold Stage1Filter.CoefInt16. rewrite Hci.
      apply Forall_forall. intros c Hc. apply in_map_iff in Hc.
      destruct Hc as (c0 & <- & _). apply int16_range.
  - intros Hmod. unfold Stage1Filter.__init__, assert, Stage1Filter.BLOCK_SIZE.
    destruct (Z.eqb_spec (len coefs mod 256) 0); [contradiction | reflexivity].
  - intros ->. reflexivity.
  - intros Hmod Hex.
    destruct coefs as [|c0 coefs']; [inversion Hex|].
    destruct (argmax_some (map Qabs (c0 :: coefs'))) as (t & Ht); [discriminate|].
    unfold Stage1Filter.__init__, assert, Stage1Filter.BLOCK_SIZE.
    rewrite Hmod. cbn [Z.eqb bind]. rewrite Ht. cbn [bind].
    destruct (Qle_bool (Qabs (nth t (c0 :: coefs') 0%Q)) 1) eqn:Hpeak;
      [|reflexivity].
    exfalso. apply (peak_le_one _ t Ht) in Hpeak.
    rewrite Forall_forall in Hpeak. apply Exists_exists in Hex.
    destruct Hex as (c & Hc & Hn). apply Hn, Hpeak, Hc.
Qed.

Lemma Stage1_init_accepts_witness :
  (exists f, Stage1Filter.__init__ (repeat (-1 # 3)%Q 512) 32 = Ok f
             /\ Stage1Filter.TapCount f = 512)
  /\ Stage1Filter.__init__ (repeat (1 # 3)%Q 100) 32 = Raise AssertionError
  /\ Stage1Filter.__init__ ((3 # 2)%Q :: repeat (1 # 3)%Q 255) 32
     = Raise AssertionError.
Proof.
  split; [|split].
  - destruct (proj1 (Stage1_init_accepts (repeat (-1 # 3)%Q 512) 32))
      as (f & E & _ & _ & HT & _).
    + reflexivity.
    + discriminate.
    + apply Forall_repeat. discriminate.
    + exists f. split; [exact E|]. rewrite HT. reflexivity.
  - apply (proj1 (proj2 (Stage1_init_accepts (repeat (1 # 3)%Q 100) 32))).
    discriminate.
  - apply (proj2 (proj2 (proj2 (Stage1_init_accepts
                                  ((3 # 2)%Q :: repeat (1 # 3)%Q 255) 32)))).
    + reflexivity.
    + apply Exists_cons_hd. intros H. apply H. reflexivity.
Defined.


(** ** Rounding to the binary64 grid *)

Section Rounding.

Local Open Scope Q_scope.

Lemma pow2_pos (e : Z) : 0 < Float64.pow2 e.
Proof. apply Qpower_0_lt. reflexivity. Qed.

Lemma pow2_add (a b : Z) :
  Float64.pow2 (a + b) == Float64.pow2 a * Float64.pow2 b.
Proof. apply Qpower_plus. discriminate. Qed.

Lemma pow2_le (a b : Z) : (a <= b)%Z -> Float64.pow2 a <= Float64.pow2 b.
Proof. intros H. apply Qpower_le_compat_l; [exact H | discriminate]. Qed.

Lemma pow2_lt_inv (a b : Z) : Float64.pow2 a < Float64.pow2 b -> (a < b)%Z.
Proof. intros H. apply (Qpower_lt_compat_l_inv 2); [exact H | reflexivity]. Qed.

Lemma pow2_Z (n : Z) : (0 <= n)%Z -> Float64.pow2 n == inject_Z (2 ^ n).
Proof. intros H. unfold Float64.pow2. rewrite Zpower_Qpower by exact H. reflexivity. Qed.

Lemma pow2_half (e : Z) : Float64.pow2 (e - 1) == Float64.pow2 e * (1 # 2).
Proof.
  replace (e - 1)%Z with (e + -1)%Z by lia. rewrite pow2_add. reflexivity.
Qed.

(** [ilog2] never overshoots: [2 ^ ilog2 x <= |x|] for a nonzero [x]. *)
Lemma ilog2_le (x : Q) : ~ x == 0 -> Float64.pow2 (Float64.ilog2 x) <= Qabs x.
Proof.
  intros Hx. unfold Float64.ilog2.
  set (ln := Z.log2 (Z.abs (Qnum x))). set (ld := Z.log2 (Z.pos (Qden x))).
  destruct (Qle_bool (Float64.pow2 (ln - ld)) (Qabs x)) eqn:Hle.
  - apply Qle_bool_iff. exact Hle.
  - assert (Hn : (0 < Z.abs (Qnum x))%Z).
    { destruct x as [n d]. unfold Qeq in Hx. cbn in Hx |- *. lia. }
    pose proof (Z.log2_spec _ Hn) as Sn. fold ln in Sn.
    pose proof (Z.log2_spec (Z.pos (Qden x)) ltac:(lia)) as Sd. fold ld in Sd.
    pose proof (Z.log2_nonneg (Z.abs (Qnum x))) as Ln. fold ln in Ln.
    pose proof (Z.log2_nonneg (Z.pos (Qden x))) as Ld. fold ld in Ld.
    replace (ln - ld - 1)%Z with (ln - Z.succ ld)%Z by lia.
    unfold Float64.pow2. rewrite Qpower_minus by discriminate.
    assert (E1 : 2 ^ ln == inject_Z (2 ^ ln))
      by (symmetry; apply (Zpower_Qpower 2 ln); lia).
    assert (E2 : 2 ^ Z.succ ld == inject_Z (2 ^ Z.succ ld))
      by (symmetry; apply (Zpower_Qpower 2 (Z.succ ld)); lia).
    rewrite E1, E2.
    destruct (2 ^ Z.succ ld)%Z as [|p|p] eqn:Ep; try lia.
    rewrite <- Qmake_Qdiv.
    destruct x as [n d]. cbn [Qabs Qnum Qden] in *.
    unfold Qle. cbn [Qnum Qden]. nia.
Qed.

Lemma rint_comp (x y : Q) : x == y -> Float64.rint x = Float64.rint y.
Proof.
  intros E. unfold Float64.rint. rewrite (Qfloor_comp x y E).
  assert (Ec : (x - inject_Z (Qfloor y) ?= 1 # 2)
               = (y - inject_Z (Qfloor y) ?= 1 # 2)).
  { apply Qcompare_comp; [rewrite E|]; reflexivity. }
  rewrite Ec. reflexivity.
Qed.

(** Rounding to an integer moves a number by no more than one half. *)
Lemma rint_err (x : Q) : Qabs (inject_Z (Float64.rint x) - x) <= 1 # 2.
Proof.
  unfold Float64.rint.
  pose proof (Qfloor_le x) as Hlo. pose proof (Qlt_floor x) as Hhi.
  rewrite inject_Z_plus in Hhi. change (inject_Z 1) with 1 in Hhi.
  set (f := Qfloor x) in *.
  apply Qabs_Qle_condition.
  destruct (Qcompare_spec (x - inject_Z f) (1 # 2)) as [E | E | E].
  - destruct (Z.even f); rewrite ?inject_Z_plus; change (inject_Z 1) with 1;
      split; lra.
  - split; lra.
  - rewrite inject_Z_plus. change (inject_Z 1) with 1. split; lra.
Qed.

(** A number closer than one half to an integer rounds to it. *)
Lemma rint_unique (x : Q) (m : Z) :
  Qabs (x - inject_Z m) < 1 # 2 -> Float64.rint x = m.
Proof.
  intros H. apply Qabs_Qlt_condition in H. destruct H as [H1 H2].
  unfold Float64.rint.
  pose proof (Qfloor_le x) as Hlo. pose proof (Qlt_floor x) as Hhi.
  rewrite inject_Z_plus in Hhi. change (inject_Z 1) with 1 in Hhi.
  set (f := Qfloor x) in *.
  assert (Hfm : (f <= m)%Z).
  { destruct (Z_le_gt_dec f m) as [|Hgt]; [assumption|exfalso].
    assert (Hq : inject_Z (m + 1) <= inject_Z f) by (rewrite <- Zle_Qle; lia).
    rewrite inject_Z_plus in Hq. change (inject_Z 1) with 1 in Hq. lra. }
  assert (Hmf : (m - 1 <= f)%Z).
  { destruct (Z_le_gt_dec (m - 1) f) as [|Hgt]; [assumption|exfalso].
    assert (Hq : inject_Z (f + 2) <= inject_Z m) by (rewrite <- Zle_Qle; lia).
    rewrite inject_Z_plus in Hq. change (inject_Z 2) with 2 in Hq. lra. }
  assert (Hcases : f = m \/ f = (m - 1)%Z) by lia.
  destruct Hcases as [-> | Ef].
  - destruct (Qcompare_spec (x - inject_Z m) (1 # 2)) as [E | E | E];
      [lra | reflexivity | lra].
  - assert (Em : inject_Z m == inject_Z f + 1).
    { replace m with (f + 1)%Z by lia. rewrite inject_Z_plus. reflexivity. }
    destruct (Qcompare_spec (x - inject_Z f) (1 # 2)) as [E | E | E];
      [lra | lra | lia].
Qed.

Lemma rint_Z (n : Z) : Float64.rint (inject_Z n) = n.
Proof.
  apply rint_unique.
  assert (E : inject_Z n - inject_Z n == 0) by ring.
  rewrite E. reflexivity.
Qed.

(** The error of one rounding to binary64: half a unit in the last place,
    which is at most [2^-53 |x|] for a normal number and [2^-1075] below. *)
Lemma rnd53_err (x : Q) :
  Qabs (Float64.rnd53 x - x)
  <= Float64.pow2 (-53) * Qabs x + Float64.pow2 (-1075).
Proof.
  pose proof (pow2_pos (-53)) as P53. pose proof (pow2_pos (-1075)) as Peps.
  pose proof (Qabs_nonneg x) as Hx0.
  unfold Float64.rnd53. destruct (Qeq_bool x 0) eqn:Ez.
  - apply Qeq_bool_eq in Ez.
    assert (E : Qabs (0 - x) == 0) by (rewrite Ez; reflexivity).
    rewrite E. assert (0 <= Float64.pow2 (-53) * Qabs x) by (apply Qmult_le_0_compat; lra).
    lra.
  - apply Qeq_bool_neq in Ez.
    set (e := Z.max (Float64.ilog2 x - 52) (-1074)).
    pose proof (pow2_pos e) as Pe.
    set (r := Float64.rint (x / Float64.pow2 e)).
    assert (E : Qabs (inject_Z r * Float64.pow2 e - x)
                == Qabs (inject_Z r - x / Float64.pow2 e) * Float64.pow2 e).
    { rewrite <- (Qabs_pos (Float64.pow2 e)) at 3 by lra.
      rewrite <- Qabs_Qmult. apply Qabs_wd. field. lra. }
    rewrite E.
    pose proof (rint_err (x / Float64.pow2 e)) as Hr. fold r in Hr.
    assert (H1 : Qabs (inject_Z r - x / Float64.pow2 e) * Float64.pow2 e
                 <= Float64.pow2 (e - 1)).
    { rewrite pow2_half. rewrite (Qmult_comm (Float64.pow2 e)).
      apply Qmult_le_compat_r; lra. }
    assert (H2 : Float64.pow2 (e - 1)
                 <= Float64.pow2 (-53) * Qabs x + Float64.pow2 (-1075)).
    { pose proof (ilog2_le x Ez) as Hl.
      assert (H3 : Float64.pow2 (Float64.ilog2 x - 53)
                   <= Float64.pow2 (-53) * Qabs x).
      { replace (Float64.ilog2 x - 53)%Z with (-53 + Float64.ilog2 x)%Z by lia.
        rewrite pow2_add. apply Qmult_le_l; assumption. }
      destruct (Z.max_spec (Float64.ilog2 x - 52) (-1074)) as [[_ Em] | [_ Em]];
        fold e in Em; rewrite Em.
      - change (-1074 - 1)%Z with (-1075)%Z.
        assert (0 <= Float64.pow2 (-53) * Qabs x) by (apply Qmult_le_0_compat; lra).
        lra.
      - replace (Float64.ilog2 x - 52 - 1)%Z with (Float64.ilog2 x - 53)%Z by lia.
        lra. }
    lra.
Qed.

End Rounding.

(** ** Quantization of the coefficients *)

Section Quantization.

Local Open Scope Q_scope.

Lemma Fin_inj (a b : Q) : Float64.Fin a = Float64.Fin b -> a = b.
Proof. intros E. injection E as E. exact E. Qed.

Lemma round_Fin (x s : Q) :
  Float64.round x = Float64.Fin s -> s = Float64.rnd53 x.
Proof.
  unfold Float64.round.
  destruct (Qle_bool (Qabs (Float64.rnd53 x)) Float64.max_f64);
    [|discriminate].
  intros E. apply Fin_inj in E. symmetry. exact E.
Qed.

Lemma round_small (x : Q) :
  Qabs (Float64.rnd53 x) <= inject_Z (2 ^ 62) ->
  Float64.round x = Float64.Fin (Float64.rnd53 x).
Proof.
  intros H. unfold Float64.round.
  assert (Hm : inject_Z (2 ^ 62) <= Float64.max_f64).
  { unfold Float64.max_f64. rewrite <- Zle_Qle. vm_compute. discriminate. }
  assert (Hle : Qle_bool (Qabs (Float64.rnd53 x)) Float64.max_f64 = true).
  { apply Qle_bool_iff. apply Qle_trans with (inject_Z (2 ^ 62)); assumption. }
  rewrite Hle. reflexivity.
Qed.

(** The product of the scale with the peak is the maximum up to the two
    rounding errors. *)
Lemma scale_mul_err (M c s d eps : Q) :
  ~ c == 0 -> Qabs c <= 1 -> 0 <= M -> 0 <= d -> 0 <= eps ->
  Qabs (s - M / c) <= d * Qabs (M / c) + eps ->
  Qabs (s * c - M) <= d * M + eps.
Proof.
  intros Hc Hc1 HM Hd He H.
  assert (E : Qabs (s * c - M) == Qabs (s - M / c) * Qabs c).
  { rewrite <- Qabs_Qmult. apply Qabs_wd. field. exact Hc. }
  assert (E2 : Qabs (M / c) * Qabs c == M).
  { rewrite <- Qabs_Qmult.
    assert (E3 : M / c * c == M) by (field; exact Hc).
    rewrite E3. apply Qabs_pos. exact HM. }
  rewrite E.
  pose proof (Qabs_nonneg c) as Hc0.
  apply Qle_trans with ((d * Qabs (M / c) + eps) * Qabs c).
  - apply Qmult_le_compat_r; assumption.
  - assert (E4 : (d * Qabs (M / c) + eps) * Qabs c
                 == d * (Qabs (M / c) * Qabs c) + eps * Qabs c) by ring.
    rewrite E4, E2.
    assert (eps * Qabs c <= eps * 1).
    { rewrite !(Qmult_comm eps). apply Qmult_le_compat_r; assumption. }
    lra.
Qed.

Lemma pow2_m53 : Float64.pow2 (-53) = 1 # 9007199254740992.
Proof. reflexivity. Qed.

Lemma pow2_m1075 :
  0 < Float64.pow2 (-1075) /\ Float64.pow2 (-1075) <= 1 # 9007199254740992.
Proof.
  split; [apply pow2_pos|]. rewrite <- pow2_m53. apply pow2_le. lia.
Qed.

(** With a scale [s] within one rounding of [M / c] and a coefficient [x]
    no larger than the peak [c], the rounded product [s * x] stays within a
    quarter of the interval [-M, M]. *)
Lemma product_bound (M : Z) (c s x : Q) :
  (1 <= M <= 2 ^ 31)%Z -> ~ c == 0 -> Qabs c <= 1 -> Qabs x <= Qabs c ->
  Qabs (s - inject_Z M / c)
  <= Float64.pow2 (-53) * Qabs (inject_Z M / c) + Float64.pow2 (-1075) ->
  Qabs (Float64.rnd53 (s * x)) <= inject_Z M + (1 # 4).
Proof.
  intros HM Hc Hc1 Hx Hs.
  destruct pow2_m1075 as [He0 He1].
  assert (HM1 : 1 <= inject_Z M)
    by (change 1 with (inject_Z 1); rewrite <- Zle_Qle; lia).
  assert (HM2 : inject_Z M <= 2147483648)
    by (change 2147483648 with (inject_Z (2 ^ 31)); rewrite <- Zle_Qle; lia).
  pose proof (scale_mul_err (inject_Z M) c s _ _ Hc Hc1 ltac:(lra)
                (Qlt_le_weak _ _ (pow2_pos (-53))) (Qlt_le_weak _ _ He0) Hs) as Hu.
  rewrite pow2_m53 in Hu.
  assert (Hsc : Qabs (s * c) <= inject_Z M + (1 # 8)).
  { apply Qabs_Qle_condition. apply Qabs_Qle_condition in Hu. lra. }
  assert (Hsx : Qabs (s * x) <= inject_Z M + (1 # 8)).
  { apply Qle_trans with (Qabs (s * c)); [|exact Hsc].
    rewrite !Qabs_Qmult. rewrite !(Qmult_comm (Qabs s)).
    apply Qmult_le_compat_r; [exact Hx | apply Qabs_nonneg]. }
  pose proof (rnd53_err (s * x)) as Hy. rewrite pow2_m53 in Hy.
  pose proof (Qabs_nonneg (s * x)) as H0.
  apply Qabs_Qle_condition. apply Qabs_Qle_condition in Hy.
  assert (Hsx' := proj1 (Qabs_Qle_condition _ _) Hsx).
  lra.
Qed.

(** At the peak itself the rounded product is within one half of [M]. *)
Lemma peak_product (M : Z) (c s : Q) :
  (1 <= M <= 2 ^ 31)%Z -> ~ c == 0 -> Qabs c <= 1 ->
  Qabs (s - inject_Z M / c)
  <= Float64.pow2 (-53) * Qabs (inject_Z M / c) + Float64.pow2 (-1075) ->
  Qabs (Float64.rnd53 (s * c) - inject_Z M) < 1 # 2.
Proof.
  intros HM Hc Hc1 Hs.
  destruct pow2_m1075 as [He0 He1].
  assert (HM1 : 1 <= inject_Z M)
    by (change 1 with (inject_Z 1); rewrite <- Zle_Qle; lia).
  assert (HM2 : inject_Z M <= 2147483648)
    by (change 2147483648 with (inject_Z (2 ^ 31)); rewrite <- Zle_Qle; lia).
  pose proof (scale_mul_err (inject_Z M) c s _ _ Hc Hc1 ltac:(lra)
                (Qlt_le_weak _ _ (pow2_pos (-53))) (Qlt_le_weak _ _ He0) Hs) as Hu.
  rewrite pow2_m53 in Hu.
  assert (Hsc : Qabs (s * c) <= inject_Z M + (1 # 8)).
  { apply Qabs_Qle_condition. apply Qabs_Qle_condition in Hu. lra. }
  pose proof (rnd53_err (s * c)) as Hy. rewrite pow2_m53 in Hy.
  pose proof (Qabs_nonneg (s * c)) as H0.
  apply Qabs_Qlt_condition. apply Qabs_Qle_condition in Hy, Hu.
  lra.
Qed.

End Quantization.

Section QuantizedCoefficients.

Local Open Scope Q_scope.

Lemma inject_Z_le_inv (a b : Z) (k : Q) :
  inject_Z a <= inject_Z b + k -> k < 1 -> (a <= b)%Z.
Proof.
  intros H Hk. destruct (Z_le_gt_dec a b) as [|Hgt]; [assumption|exfalso].
  assert (Hq : inject_Z (b + 1) <= inject_Z a) by (rewrite <- Zle_Qle; lia).
  rewrite inject_Z_plus in Hq. change (inject_Z 1) with 1 in Hq. lra.
Qed.

Lemma rint_nonneg (x : Q) : 0 <= x -> (0 <= Float64.rint x)%Z.
Proof.
  intros Hx. pose proof (rint_err x) as H.
  apply Qabs_Qle_condition in H.
  apply (inject_Z_le_inv 0 (Float64.rint x) (1 # 2)); [|reflexivity].
  change (inject_Z 0) with 0. lra.
Qed.

Lemma rint_nonpos (x : Q) : x <= 0 -> (Float64.rint x <= 0)%Z.
Proof.
  intros Hx. pose proof (rint_err x) as H.
  apply Qabs_Qle_condition in H.
  apply (inject_Z_le_inv (Float64.rint x) 0 (1 # 2)); [|reflexivity].
  change (inject_Z 0) with 0. lra.
Qed.

Lemma Qdiv_nonneg (x p : Q) : 0 <= x -> 0 < p -> 0 <= x / p.
Proof.
  intros Hx Hp. apply Qle_shift_div_l; [exact Hp|]. lra.
Qed.

Lemma Qdiv_nonpos (x p : Q) : x <= 0 -> 0 < p -> x / p <= 0.
Proof.
  intros Hx Hp. apply Qle_shift_div_r; [exact Hp|]. lra.
Qed.

Lemma Qdiv_nonpos_neg (x p : Q) : 0 <= x -> p < 0 -> x / p <= 0.
Proof.
  intros Hx Hp.
  assert (E : x / p == - (x / - p)) by (field; lra).
  rewrite E. pose proof (Qdiv_nonneg x (- p) Hx ltac:(lra)). lra.
Qed.

(** Rounding keeps the sign. *)
Lemma rnd53_nonneg (x : Q) : 0 <= x -> 0 <= Float64.rnd53 x.
Proof.
  intros Hx. unfold Float64.rnd53.
  destruct (Qeq_bool x 0); [apply Qle_refl|].
  set (e := Z.max _ _). pose proof (pow2_pos e) as Pe.
  apply Qmult_le_0_compat; [|lra].
  change 0 with (inject_Z 0). rewrite <- Zle_Qle.
  apply rint_nonneg. apply Qdiv_nonneg; assumption.
Qed.

Lemma rnd53_nonpos (x : Q) : x <= 0 -> Float64.rnd53 x <= 0.
Proof.
  intros Hx. unfold Float64.rnd53.
  destruct (Qeq_bool x 0); [apply Qle_refl|].
  set (e := Z.max _ _). pose proof (pow2_pos e) as Pe.
  assert (H : inject_Z (Float64.rint (x / Float64.pow2 e)) <= 0).
  { change 0 with (inject_Z 0). rewrite <- Zle_Qle.
    apply rint_nonpos. apply Qdiv_nonpos; assumption. }
  assert (H2 : inject_Z (Float64.rint (x / Float64.pow2 e)) * Float64.pow2 e
               <= 0 * Float64.pow2 e)
    by (apply Qmult_le_compat_r; lra).
  lra.
Qed.

(** What the division [MAX / coefs[t]] gives when it is finite. *)
Lemma scale_finite (M : Z) (q c s : Q) :
  q == inject_Z M ->
  Float64.fdiv (Float64.Fin q) (Float64.Fin c) = Float64.Fin s ->
  ~ c == 0
  /\ s = Float64.rnd53 (q / c)
  /\ Qabs (s - inject_Z M / c)
     <= Float64.pow2 (-53) * Qabs (inject_Z M / c) + Float64.pow2 (-1075).
Proof.
  intros Hq H. unfold Float64.fdiv, Float64.is_zero in H.
  destruct (Qeq_bool c 0) eqn:Hz.
  { destruct (Qeq_bool q 0); discriminate. }
  apply Qeq_bool_neq in Hz. apply round_Fin in H.
  split; [exact Hz|]. split; [exact H|].
  pose proof (rnd53_err (q / c)) as He. rewrite <- H in He. clear H.
  rewrite Hq in He. exact He.
Qed.

(** The quantized peak. *)
Lemma quantize_peak (M : Z) (q c s : Q) :
  (1 <= M <= 2 ^ 31)%Z -> q == inject_Z M -> Qabs c <= 1 ->
  Float64.fdiv (Float64.Fin q) (Float64.Fin c) = Float64.Fin s ->
  Float64.np_round (Float64.fmul (Float64.Fin s) (Float64.Fin c))
  = Float64.Fin (inject_Z M).
Proof.
  intros HM Hq Hc1 H.
  destruct (scale_finite M q c s Hq H) as (Hc & _ & Hs).
  pose proof (peak_product M c s HM Hc Hc1 Hs) as Hy.
  assert (HM2 : inject_Z M <= 2147483648)
    by (change 2147483648 with (inject_Z (2 ^ 31)); rewrite <- Zle_Qle; lia).
  assert (HM1 : 1 <= inject_Z M)
    by (change 1 with (inject_Z 1); rewrite <- Zle_Qle; lia).
  cbn [Float64.fmul]. rewrite round_small.
  - cbn [Float64.np_round]. rewrite (rint_unique _ M Hy). reflexivity.
  - apply Qabs_Qle_condition. apply Qabs_Qlt_condition in Hy.
    change (inject_Z (2 ^ 62)) with 4611686018427387904. lra.
Qed.

(** Every other quantized coefficient is an integer between [-M] and [M]. *)
Lemma quantize_any (M : Z) (q c s x : Q) :
  (1 <= M <= 2 ^ 31)%Z -> q == inject_Z M -> Qabs c <= 1 ->
  Qabs x <= Qabs c ->
  Float64.fdiv (Float64.Fin q) (Float64.Fin c) = Float64.Fin s ->
  let r := Float64.rint (Float64.rnd53 (s * x)) in
  Float64.np_round (Float64.fmul (Float64.Fin s) (Float64.Fin x))
  = Float64.Fin (inject_Z r)
  /\ (- M <= r <= M)%Z.
Proof.
  intros HM Hq Hc1 Hx H r.
  destruct (scale_finite M q c s Hq H) as (Hc & _ & Hs).
  pose proof (product_bound M c s x HM Hc Hc1 Hx Hs) as Hy.
  assert (HM2 : inject_Z M <= 2147483648)
    by (change 2147483648 with (inject_Z (2 ^ 31)); rewrite <- Zle_Qle; lia).
  assert (HM1 : 1 <= inject_Z M)
    by (change 1 with (inject_Z 1); rewrite <- Zle_Qle; lia).
  split.
  - cbn [Float64.fmul]. rewrite round_small; [reflexivity|].
    change (inject_Z (2 ^ 62)) with 4611686018427387904. lra.
  - pose proof (rint_err (Float64.rnd53 (s * x))) as Hr. fold r in Hr.
    apply Qabs_Qle_condition in Hr, Hy.
    split.
    + apply (inject_Z_le_inv (- M) r (3 # 4)); [|reflexivity].
      rewrite inject_Z_opp. lra.
    + apply (inject_Z_le_inv r M (3 # 4)); [|reflexivity]. lra.
Qed.

(** The sign of a quantized coefficient is that of the exact product. *)
Lemma quantize_sign (s x : Q) :
  (0 <= s * x -> (0 <= Float64.rint (Float64.rnd53 (s * x)))%Z)
  /\ (s * x <= 0 -> (Float64.rint (Float64.rnd53 (s * x)) <= 0)%Z).
Proof.
  split; intros H.
  - apply rint_nonneg, rnd53_nonneg, H.
  - apply rint_nonpos, rnd53_nonpos, H.
Qed.

(** A scale that is not finite turns every product into an infinity or
    NaN, which the cast to a 32-bit integer maps to [-2^31]. *)
Lemma quantize_not_finite (sc : Float64.f64) (x : Q) :
  (forall s, sc <> Float64.Fin s) ->
  Float64.cvttsd2si 32 (Float64.np_round (Float64.fmul sc (Float64.Fin x)))
  = (- 2 ^ 31)%Z.
Proof.
  intros H. destruct sc as [s | b |].
  - exfalso. apply (H s). reflexivity.
  - cbn [Float64.fmul]. destruct (Float64.is_zero x); reflexivity.
  - reflexivity.
Qed.

Lemma cast_int32 (r : Z) :
  (- 2 ^ 31 <= r < 2 ^ 31)%Z ->
  Float64.astype_int32 (Float64.Fin (inject_Z r)) = r.
Proof.
  intros Hr. unfold Float64.astype_int32, Float64.cvttsd2si, Float64.trunc.
  assert (E : (if Qle_bool 0 (inject_Z r) then Qfloor (inject_Z r)
               else Qceiling (inject_Z r)) = r).
  { destruct (Qle_bool 0 (inject_Z r)); [apply Qfloor_Z | apply Qceiling_Z]. }
  rewrite E. unfold in_range.
  change (2 ^ (32 - 1))%Z with (2 ^ 31)%Z.
  destruct (Z.leb_spec (- 2 ^ 31) r); [|lia].
  destruct (Z.ltb_spec r (2 ^ 31)); [|lia].
  reflexivity.
Qed.

Lemma cast_int16 (r : Z) :
  (- 2 ^ 15 <= r < 2 ^ 15)%Z ->
  Float64.astype_int16 (Float64.Fin (inject_Z r)) = r.
Proof.
  intros Hr. unfold Float64.astype_int16.
  change (Float64.cvttsd2si 32 (Float64.Fin (inject_Z r)))
    with (Float64.astype_int32 (Float64.Fin (inject_Z r))).
  rewrite cast_int32 by lia.
  unfold int16, wrap. change (2 ^ (16 - 1))%Z with 32768%Z.
  change (2 ^ 16)%Z with 65536%Z. change (2 ^ 15)%Z with 32768%Z in Hr.
  rewrite Z.mod_small by lia. lia.
Qed.

End QuantizedCoefficients.

Lemma of_int_32766 :
  exists q, Float64.of_int 32766 = Float64.Fin q /\ (q == inject_Z 32766)%Q.
Proof.
  destruct (Float64.of_int 32766) as [q | b |] eqn:E;
    vm_compute in E; try discriminate E.
  exists q. split; [reflexivity|].
  apply Fin_inj in E. subst q. reflexivity.
Qed.

Lemma of_int_2147483647 :
  exists q, Float64.of_int (2 ^ 31 - 1) = Float64.Fin q
            /\ (q == inject_Z (2 ^ 31 - 1))%Q.
Proof.
  destruct (Float64.of_int (2 ^ 31 - 1)) as [q | b |] eqn:E;
    vm_compute in E; try discriminate E.
  exists q. split; [reflexivity|].
  apply Fin_inj in E. subst q. reflexivity.
Qed.

Lemma argmax_peak (coefs : list Q) (t : nat) :
  argmax (map Qabs coefs) = Ok t ->
  (t < length coefs)%nat
  /\ forall c, In c coefs -> (Qabs c <= Qabs (nth t coefs 0%Q))%Q.
Proof.
  intros Ht. destruct (argmax_max _ _ Ht) as (Hlt & Hmax).
  rewrite length_map in Hlt. split; [exact Hlt|].
  assert (Hnth : nth t (map Qabs coefs) 0%Q = Qabs (nth t coefs 0%Q))
    by (apply (map_nth Qabs coefs 0%Q t)).
  rewrite Hnth in Hmax. intros c Hc. apply Hmax, in_map, Hc.
Qed.

(** The quantization step of both constructors, for a maximum [M], a cast
    that is exact on [-M, M] and a finite scale [s]: the coefficients are the
    rounded products, the peak gives [M], all lie in [-M, M], and the scale
    has the sign of the peak. *)
Lemma quantized_coefs (M : Z) (q : Q) (cast : Float64.f64 -> Z)
    (coefs : list Q) (t : nat) (s : Q) :
  1 <= M <= 2 ^ 31 -> (q == inject_Z M)%Q ->
  (forall r, - M <= r <= M -> cast (Float64.Fin (inject_Z r)) = r) ->
  argmax (map Qabs coefs) = Ok t ->
  Qle_bool (Qabs (nth t coefs 0%Q)) 1 = true ->
  Float64.fdiv (Float64.Fin q) (Float64.Fin (nth t coefs 0%Q)) = Float64.Fin s ->
  (t < length coefs)%nat
  /\ map (fun c => cast (Float64.np_round
                           (Float64.fmul (Float64.Fin s) (Float64.Fin c)))) coefs
     = map (fun c => Float64.rint (Float64.rnd53 (s * c))) coefs
  /\ Float64.rint (Float64.rnd53 (s * nth t coefs 0%Q)) = M
  /\ (forall c, In c coefs ->
        - M <= Float64.rint (Float64.rnd53 (s * c)) <= M)
  /\ ((nth t coefs 0 < 0)%Q -> (s <= 0)%Q)
  /\ ((0 < nth t coefs 0)%Q -> (0 <= s)%Q).
Proof.
  intros HM Hq Hcast Ht Hle Hs.
  destruct (argmax_peak coefs t Ht) as (Hlt & Hmax).
  apply Qle_bool_iff in Hle.
  destruct (scale_finite M q _ s Hq Hs) as (Hc & Es & Herr).
  assert (HMq : (0 < q)%Q).
  { rewrite Hq. change 0%Q with (inject_Z 0). rewrite <- Zlt_Qlt. lia. }
  split; [exact Hlt|]. split; [|split; [|split; [|split]]].
  - apply map_ext_in. intros c Hc'.
    destruct (quantize_any M q _ s c HM Hq Hle (Hmax c Hc') Hs) as (E & Hr).
    rewrite E. apply Hcast. exact Hr.
  - apply rint_unique. apply peak_product; assumption.
  - intros c Hc'.
    apply (quantize_any M q _ s c HM Hq Hle (Hmax c Hc') Hs).
  - intros Hneg. rewrite Es. apply rnd53_nonpos.
    apply Qdiv_nonpos_neg; [apply Qlt_le_weak; exact HMq | exact Hneg].
  - intros Hpos. rewrite Es. apply rnd53_nonneg.
    apply Qdiv_nonneg; [apply Qlt_le_weak; exact HMq | exact Hpos].
Qed.

Lemma Stage1_quantized (coefs : list Q) (Q0 : Z) (f : Stage1Filter.t)
    (t : nat) (s : Q) :
  Stage1Filter.__init__ coefs Q0 = Ok f ->
  argmax (map Qabs coefs) = Ok t ->
  Stage1Filter.ScaleInt16 f = Float64.Fin s ->
  (t < length coefs)%nat
  /\ Stage1Filter.CoefInt16 f
     = map (fun c => Float64.rint (Float64.rnd53 (s * c))) coefs
  /\ Float64.rint (Float64.rnd53 (s * nth t coefs 0%Q)) = 32766
  /\ (forall c, In c coefs ->
        - 32766 <= Float64.rint (Float64.rnd53 (s * c)) <= 32766)
  /\ ((nth t coefs 0 < 0)%Q -> (s <= 0)%Q)
  /\ ((0 < nth t coefs 0)%Q -> (0 <= s)%Q).
Proof.
  intros Hinit Ht Hs.
  destruct (Stage1_init_inv _ _ _ Hinit)
    as (_ & t' & Ht' & Hle & _ & _ & Hsc & Hci & _).
  rewrite Ht in Ht'. apply Ok_inj in Ht'. subst t'.
  destruct of_int_32766 as (q & Eq & Hq).
  unfold Stage1Filter.ScaleInt16 in Hs. rewrite Hs in Hci.
  rewrite Hsc, Eq in Hs.
  unfold Stage1Filter.CoefInt16. rewrite Hci.
  apply (quantized_coefs 32766 q Float64.astype_int16); try assumption; [lia|].
  intros r Hr. apply cast_int16. lia.
Qed.

Lemma Stage2_quantized (coefs : list Q) (Q0 : Z) (f : Stage2Filter.t)
    (t : nat) (s : Q) :
  Stage2Filter.__init__ coefs Q0 = Ok f ->
  argmax (map Qabs coefs) = Ok t ->
  Stage2Filter.ScaleInt32 f = Float64.Fin s ->
  (t < length coefs)%nat
  /\ Stage2Filter.CoefInt32 f
     = map (fun c => Float64.rint (Float64.rnd53 (s * c))) coefs
  /\ Float64.rint (Float64.rnd53 (s * nth t coefs 0%Q)) = 2 ^ 31 - 1
  /\ (forall c, In c coefs ->
        - (2 ^ 31 - 1) <= Float64.rint (Float64.rnd53 (s * c)) <= 2 ^ 31 - 1)
  /\ ((nth t coefs 0 < 0)%Q -> (s <= 0)%Q)
  /\ ((0 < nth t coefs 0)%Q -> (0 <= s)%Q).
Proof.
  intros Hinit Ht Hs.
  destruct (Stage2_init_inv _ _ _ Hinit)
    as (t' & Ht' & Hle & _ & _ & Hsc & Hci & _).
  rewrite Ht in Ht'. apply Ok_inj in Ht'. subst t'.
  destruct of_int_2147483647 as (q & Eq & Hq).
  unfold Stage2Filter.ScaleInt32 in Hs. rewrite Hs in Hci.
  unfold Stage2Filter.INT32_MAX_COEFFICIENT in Hsc.
  rewrite Hsc, Eq in Hs.
  unfold Stage2Filter.CoefInt32. rewrite Hci.
  apply (quantized_coefs (2 ^ 31 - 1) q Float64.astype_int32);
    try assumption; [lia|].
  intros r Hr. apply cast_int32. lia.
Qed.

(** X12. When the scale factor [32766 / coefs[t]] of a constructed first
    stage is finite, the quantized peak is exactly [32766], every quantized
    coefficient lies in [-32766, 32766], and coefficient [i] is the product
    [scale * coefs[i]], rounded to binary64 and then to the nearest integer:
    the cast to int16 never wraps. *)
Theorem Stage1_quantization (coefs : list Q) (Q0 : Z) (f : Stage1Filter.t)
    (t : nat) (s : Q) :
  Stage1Filter.__init__ coefs Q0 = Ok f ->
  argmax (map Qabs coefs) = Ok t ->
  Stage1Filter.ScaleInt16 f = Float64.Fin s ->
  nth t (Stage1Filter.CoefInt16 f) 0 = 32766
  /\ Forall (fun q => - 32766 <= q <= 32766) (Stage1Filter.CoefInt16 f)
  /\ forall i, (i < length coefs)%nat ->
       nth i (Stage1Filter.CoefInt16 f) 0
       = Float64.rint (Float64.rnd53 (s * nth i coefs 0%Q)).
Proof.
  intros Hinit Ht Hs.
  destruct (Stage1_quantized _ _ _ _ _ Hinit Ht Hs)
    as (Hlt & -> & Hpeak & Hall & _).
  split; [|split].
  - rewrite (nth_map_lt _ coefs t 0%Q 0) by exact Hlt. exact Hpeak.
  - apply Forall_forall. intros v Hv. apply in_map_iff in Hv.
    destruct Hv as (c & <- & Hc). apply Hall, Hc.
  - intros i Hi. rewrite (nth_map_lt _ coefs i 0%Q 0) by exact Hi. reflexivity.
Qed.

Lemma Stage1_quantization_witness :
  exists f,
    Stage1Filter.__init__ ((-1 # 3)%Q :: repeat (1 # 7)%Q 255) 32 = Ok f
    /\ nth 0 (Stage1Filter.CoefInt16 f) 0 = 32766.
Proof.
  destruct (Stage1Filter.__init__ ((-1 # 3)%Q :: repeat (1 # 7)%Q 255) 32)
    as [f | e] eqn:E; [|vm_compute in E; discriminate E].
  exists f. split; [reflexivity|].
  destruct (Stage1Filter.ScaleInt16 f) as [s | b |] eqn:Es.
  - apply (Stage1_quantization _ _ f 0%nat s E); [reflexivity | exact Es].
  - vm_compute in E. apply Ok_inj in E. subst f. vm_compute in Es. discriminate Es.
  - vm_compute in E. apply Ok_inj in E. subst f. vm_compute in Es. discriminate Es.
Defined.

(** X13. The same for the second stage: with a finite scale factor
    [(2^31 - 1) / coefs[t]] the quantized peak is exactly [2^31 - 1], every
    quantized coefficient lies in [-(2^31 - 1), 2^31 - 1], and coefficient
    [i] is the rounded product [scale * coefs[i]]. *)
Theorem Stage2_quantization (coefs : list Q) (Q0 : Z) (f : Stage2Filter.t)
    (t : nat) (s : Q) :
  Stage2Filter.__init__ coefs Q0 = Ok f ->
  argmax (map Qabs coefs) = Ok t ->
  Stage2Filter.ScaleInt32 f = Float64.Fin s ->
  nth t (Stage2Filter.CoefInt32 f) 0 = 2 ^ 31 - 1
  /\ Forall (fun q => - (2 ^ 31 - 1) <= q <= 2 ^ 31 - 1)
            (Stage2Filter.CoefInt32 f)
  /\ forall i, (i < length coefs)%nat ->
       nth i (Stage2Filter.CoefInt32 f) 0
       = Float64.rint (Float64.rnd53 (s * nth i coefs 0%Q)).
Proof.
  intros Hinit Ht Hs.
  destruct (Stage2_quantized _ _ _ _ _ Hinit Ht Hs)
    as (Hlt & -> & Hpeak & Hall & _).
  split; [|split].
  - rewrite (nth_map_lt _ coefs t 0%Q 0) by exact Hlt. exact Hpeak.
  - apply Forall_forall. intros v Hv. apply in_map_iff in Hv.
    destruct Hv as (c & <- & Hc). apply Hall, Hc.
  - intros i Hi. rewrite (nth_map_lt _ coefs i 0%Q 0) by exact Hi. reflexivity.
Qed.

Lemma Stage2_quantization_witness :
  exists f,
    Stage2Filter.__init__ [(1 # 5)%Q; (-2 # 3)%Q; (1 # 3)%Q] 2 = Ok f
    /\ nth 1 (Stage2Filter.CoefInt32 f) 0 = 2 ^ 31 - 1.
Proof.
  destruct (Stage2Filter.__init__ [(1 # 5)%Q; (-2 # 3)%Q; (1 # 3)%Q] 2)
    as [f | e] eqn:E; [|vm_compute in E; discriminate E].
  exists f. split; [reflexivity|].
  destruct (Stage2Filter.ScaleInt32 f) as [s | b |] eqn:Es.
  - apply (Stage2_quantization _ _ f 1%nat s E); [reflexivity | exact Es].
  - vm_compute in E. apply Ok_inj in E. subst f. vm_compute in Es. discriminate Es.
  - vm_compute in E. apply Ok_inj in E. subst f. vm_compute in Es. discriminate Es.
Defined.

Lemma quantized_sign (s c : Q) :
  ((s <= 0)%Q ->
     ((0 <= c)%Q -> Float64.rint (Float64.rnd53 (s * c)) <= 0)
     /\ ((c <= 0)%Q -> 0 <= Float64.rint (Float64.rnd53 (s * c))))
  /\ ((0 <= s)%Q ->
     ((0 <= c)%Q -> 0 <= Float64.rint (Float64.rnd53 (s * c)))
     /\ ((c <= 0)%Q -> Float64.rint (Float64.rnd53 (s * c)) <= 0)).
Proof.
  destruct (quantize_sign s c) as (Hp & Hn).
  split; intros Hs; split; intros Hc; (apply Hp || apply Hn); nra.
Qed.

(** X14. With a finite scale factor, a negative peak inverts the sign of
    every coefficient when it is quantized (a non-negative coefficient
    becomes non-positive and the reverse), in either stage; a positive peak
    keeps the signs. *)
Theorem quantized_signs :
  (forall (coefs : list Q) (Q0 : Z) (f : Stage1Filter.t) (t : nat) (s : Q),
      Stage1Filter.__init__ coefs Q0 = Ok f ->
      argmax (map Qabs coefs) = Ok t ->
      Stage1Filter.ScaleInt16 f = Float64.Fin s ->
      forall i, (i < length coefs)%nat ->
        let c := nth i coefs 0%Q in
        let q := nth i (Stage1Filter.CoefInt16 f) 0 in
        ((nth t coefs 0 < 0)%Q ->
           ((0 <= c)%Q -> q <= 0) /\ ((c <= 0)%Q -> 0 <= q))
        /\ ((0 < nth t coefs 0)%Q ->
           ((0 <= c)%Q -> 0 <= q) /\ ((c <= 0)%Q -> q <= 0)))
  /\ (forall (coefs : list Q) (Q0 : Z) (f : Stage2Filter.t) (t : nat) (s : Q),
      Stage2Filter.__init__ coefs Q0 = Ok f ->
      argmax (map Qabs coefs) = Ok t ->
      Stage2Filter.ScaleInt32 f = Float64.Fin s ->
      forall i, (i < length coefs)%nat ->
        let c := nth i coefs 0%Q in
        let q := nth i (Stage2Filter.CoefInt32 f) 0 in
        ((nth t coefs 0 < 0)%Q ->
           ((0 <= c)%Q -> q <= 0) /\ ((c <= 0)%Q -> 0 <= q))
        /\ ((0 < nth t coefs 0)%Q ->
           ((0 <= c)%Q -> 0 <= q) /\ ((c <= 0)%Q -> q <= 0))).
Proof.
  split; intros coefs Q0 f t s Hinit Ht Hs i Hi c q.
  - destruct (Stage1_quantized _ _ _ _ _ Hinit Ht Hs)
      as (_ & E & _ & _ & Hneg & Hpos).
    assert (Eq : q = Float64.rint (Float64.rnd53 (s * c))).
    { unfold q, c. rewrite E, (nth_map_lt _ coefs i 0%Q 0) by exact Hi.
      reflexivity. }
    rewrite Eq. destruct (quantized_sign s c) as (H1 & H2).
    split; intros Hp; [apply H1, Hneg, Hp | apply H2, Hpos, Hp].
  - destruct (Stage2_quantized _ _ _ _ _ Hinit Ht Hs)
      as (_ & E & _ & _ & Hneg & Hpos).
    assert (Eq : q = Float64.rint (Float64.rnd53 (s * c))).
    { unfold q, c. rewrite E, (nth_map_lt _ coefs i 0%Q 0) by exact Hi.
      reflexivity. }
    rewrite Eq. destruct (quantized_sign s c) as (H1 & H2).
    split; intros Hp; [apply H1, Hneg, Hp | apply H2, Hpos, Hp].
Qed.

Lemma quantized_signs_witness :
  exists f,
    Stage1Filter.__init__ ((-1 # 3)%Q :: repeat (1 # 7)%Q 255) 32 = Ok f
    /\ nth 1 (Stage1Filter.CoefInt16 f) 0 <= 0.
Proof.
  destruct (Stage1Filter.__init__ ((-1 # 3)%Q :: repeat (1 # 7)%Q 255) 32)
    as [f | e] eqn:E; [|vm_compute in E; discriminate E].
  exists f. split; [reflexivity|].
  destruct (Stage1Filter.ScaleInt16 f) as [s | b |] eqn:Es.
  - refine (proj1 (proj1 (proj1 quantized_signs _ _ f 0%nat s E eq_refl Es
                            1%nat _) _) _).
    + cbn [length]. rewrite repeat_length. lia.
    + reflexivity.
    + discriminate.
  - vm_compute in E. apply Ok_inj in E. subst f. vm_compute in Es. discriminate Es.
  - vm_compute in E. apply Ok_inj in E. subst f. vm_compute in Es. discriminate Es.
Defined.

(** ** A scale factor that is not finite *)





(** ** Numbers that binary64 represents *)

Section Exact.

Local Open Scope Q_scope.

(** A number [m * 2^k] with [|m| < 2^53] and [k >= -1074] is on the grid:
    rounding returns it. *)
Lemma rnd53_exact (x : Q) (m k : Z) :
  x == inject_Z m * Float64.pow2 k -> (Z.abs m < 2 ^ 53)%Z -> (-1074 <= k)%Z ->
  Float64.rnd53 x == x.
Proof.
  intros Hx Hm Hk. unfold Float64.rnd53.
  destruct (Qeq_bool x 0) eqn:Ez.
  { apply Qeq_bool_eq in Ez. symmetry. exact Ez. }
  apply Qeq_bool_neq in Ez.
  set (e := Z.max (Float64.ilog2 x - 52) (-1074)).
  pose proof (pow2_pos k) as Pk. pose proof (pow2_pos e) as Pe.
  assert (Hek : (e <= k)%Z).
  { assert (Hlog : (Float64.ilog2 x < 53 + k)%Z).
    { apply pow2_lt_inv.
      apply Qle_lt_trans with (Qabs x); [apply ilog2_le; exact Ez|].
      rewrite Hx, Qabs_Qmult, (Qabs_pos (Float64.pow2 k)) by lra.
      rewrite pow2_add.
      apply Qmult_lt_compat_r; [exact Pk|].
      change (Qabs (inject_Z m)) with (inject_Z (Z.abs m)).
      rewrite pow2_Z by lia. rewrite <- Zlt_Qlt. exact Hm. }
    unfold e. lia. }
  assert (Hdiv : x / Float64.pow2 e == inject_Z (m * 2 ^ (k - e))).
  { rewrite inject_Z_mult, <- pow2_Z by lia.
    unfold Float64.pow2 at 2. rewrite Qpower_minus by discriminate.
    fold (Float64.pow2 k). fold (Float64.pow2 e). rewrite Hx. field. lra. }
  rewrite (rint_comp _ _ Hdiv), rint_Z.
  rewrite inject_Z_mult, <- pow2_Z by lia.
  unfold Float64.pow2 at 1. rewrite Qpower_minus by discriminate.
  fold (Float64.pow2 k). fold (Float64.pow2 e). rewrite Hx. field. lra.
Qed.

(** The conversion of an integer below [2^53] in magnitude is exact. *)
Lemma of_int_exact (z : Z) :
  (Z.abs z < 2 ^ 53)%Z ->
  exists a, Float64.of_int z = Float64.Fin a /\ a == inject_Z z.
Proof.
  intros Hz.
  assert (E : Float64.rnd53 (inject_Z z) == inject_Z z).
  { apply (rnd53_exact _ z 0); [|exact Hz|lia].
    change (Float64.pow2 0) with 1. ring. }
  exists (Float64.rnd53 (inject_Z z)). split; [|exact E].
  unfold Float64.of_int. apply round_small. rewrite E.
  change (Qabs (inject_Z z)) with (inject_Z (Z.abs z)).
  rewrite <- Zle_Qle. lia.
Qed.

Lemma cast_int64 (r : Z) :
  (- 2 ^ 63 <= r < 2 ^ 63)%Z ->
  Float64.astype_int64 (Float64.Fin (inject_Z r)) = r.
Proof.
  intros Hr. unfold Float64.astype_int64, Float64.cvttsd2si, Float64.trunc.
  assert (E : (if Qle_bool 0 (inject_Z r) then Qfloor (inject_Z r)
               else Qceiling (inject_Z r)) = r).
  { destruct (Qle_bool 0 (inject_Z r)); [apply Qfloor_Z | apply Qceiling_Z]. }
  rewrite E. unfold in_range.
  change (2 ^ (64 - 1))%Z with (2 ^ 63)%Z.
  destruct (Z.leb_spec (- 2 ^ 63) r); [|lia].
  destruct (Z.ltb_spec r (2 ^ 63)); [|lia].
  reflexivity.
Qed.

(** [np.round(c / 2**30).astype(np.int64)] of an int32 [c] is [c / 2^30]
    rounded to the nearest integer, ties to even: a value from -2 to 2 that
    has the sign of [c]. *)
Lemma scaled_exact (c : Z) :
  (- 2 ^ 31 <= c < 2 ^ 31)%Z ->
  Stage2Filter.scaled c = Float64.rint (inject_Z c / inject_Z (2 ^ 30))
  /\ (- 2 <= Stage2Filter.scaled c <= 2)%Z
  /\ (0 <= Z.sgn c * Stage2Filter.scaled c)%Z.
Proof.
  intros Hc. unfold Stage2Filter.scaled.
  destruct (of_int_exact c ltac:(lia)) as (a & Ea & Ha).
  destruct (of_int_exact (2 ^ 30) ltac:(lia)) as (b & Eb & Hb).
  rewrite Ea, Eb. unfold Float64.fdiv, Float64.is_zero.
  assert (Hb0 : Qeq_bool b 0 = false).
  { destruct (Qeq_bool b 0) eqn:Ez; [|reflexivity].
    apply Qeq_bool_eq in Ez. rewrite Hb in Ez. discriminate Ez. }
  rewrite Hb0.
  assert (Hab : a / b == inject_Z c / inject_Z (2 ^ 30))
    by (rewrite Ha, Hb; reflexivity).
  assert (Hex : Float64.rnd53 (a / b) == a / b).
  { apply (rnd53_exact _ c (-30)); [|lia|lia].
    rewrite Hab. change (Float64.pow2 (-30)) with (1 # 1073741824).
    change (inject_Z (2 ^ 30)) with (1073741824 # 1). field. }
  assert (Hc1 : - (2147483648) <= inject_Z c)
    by (change (- (2147483648)) with (inject_Z (- 2 ^ 31)); rewrite <- Zle_Qle; lia).
  assert (Hc2 : inject_Z c <= 2147483648)
    by (change 2147483648 with (inject_Z (2 ^ 31)); rewrite <- Zle_Qle; lia).
  set (x := inject_Z c / inject_Z (2 ^ 30)) in *.
  assert (Hx : x == inject_Z c * (1 # 1073741824)).
  { unfold x. change (inject_Z (2 ^ 30)) with (1073741824 # 1). field. }
  rewrite round_small.
  2:{ rewrite Hex, Hab, Hx. apply Qabs_Qle_condition.
      change (inject_Z (2 ^ 62)) with 4611686018427387904. lra. }
  cbn [Float64.np_round].
  rewrite (rint_comp _ x) by (rewrite Hex; exact Hab).
  pose proof (rint_err x) as Hr. apply Qabs_Qle_condition in Hr.
  set (r := Float64.rint x) in *.
  assert (Hr2 : (- 2 <= r <= 2)%Z).
  { split.
    - apply (inject_Z_le_inv (-2) r (1 # 2)); [|reflexivity].
      change (inject_Z (-2)) with (-2). lra.
    - apply (inject_Z_le_inv r 2 (1 # 2)); [|reflexivity].
      change (inject_Z 2) with 2. lra. }
  rewrite cast_int64 by lia.
  split; [reflexivity|]. split; [exact Hr2|].
  destruct (Z.sgn_spec c) as [[Hs ->] | [[Hs ->] | [Hs ->]]].
  - assert (0 <= r)%Z; [|lia]. apply rint_nonneg. rewrite Hx.
    assert (0 < inject_Z c) by (change 0 with (inject_Z 0); rewrite <- Zlt_Qlt; lia).
    lra.
  - lia.
  - assert (r <= 0)%Z; [|lia]. apply rint_nonpos. rewrite Hx.
    assert (inject_Z c < 0) by (change 0 with (inject_Z 0); rewrite <- Zlt_Qlt; lia).
    lra.
Qed.

End Exact.

(** ** The right shift of the second stage *)

Lemma int64_small (z : Z) : - 2 ^ 63 <= z < 2 ^ 63 -> int64 z = z.
Proof.
  intros Hz. unfold int64, wrap. change (2 ^ (64 - 1)) with (2 ^ 63).
  rewrite Z.mod_small by lia. lia.
Qed.

Lemma signed_max_exact (c : Z) :
  Stage2Filter.signed_max c = 2147483392 * Z.sgn c.
Proof. destruct c; reflexivity. Qed.

Lemma cvttsd2si_range (a : Float64.f64) :
  - 2 ^ 31 <= Float64.cvttsd2si 32 a < 2 ^ 31.
Proof.
  unfold Float64.cvttsd2si. change (2 ^ (32 - 1)) with (2 ^ 31).
  destruct a as [x | b |]; try lia.
  destruct (in_range 32 (Float64.trunc x)) eqn:E; [|lia].
  unfold in_range in E. change (2 ^ (32 - 1)) with (2 ^ 31) in E.
  apply andb_true_iff in E. destruct E as [E1 E2].
  apply Z.leb_le in E1. apply Z.ltb_lt in E2. lia.
Qed.

Lemma dot_exact_acc (l : list (Z * Z)) : forall a,
  fold_left (fun acc p => acc + fst p * snd p) l a
  = a + fold_left (fun acc p => acc + fst p * snd p) l 0.
Proof.
  induction l as [|p l IH]; intros a; cbn [fold_left]; [lia|].
  rewrite IH, (IH (0 + fst p * snd p)). lia.
Qed.

Lemma dot_exact_cons (x y : Z) (xs ys : list Z) :
  dot_exact (x :: xs) (y :: ys) = x * y + dot_exact xs ys.
Proof.
  unfold dot_exact. cbn [combine fold_left fst snd]. rewrite dot_exact_acc. lia.
Qed.

(** A sum of terms between 0 and [B]: it is between 0 and [B] times their
    number, and at least any one of them. *)
Lemma dot_exact_terms (g h : Z -> Z) (B : Z) (l : list Z) :
  (forall c, In c l -> 0 <= g c * h c <= B) ->
  0 <= dot_exact (map g l) (map h l) <= B * len l
  /\ forall c, In c l -> g c * h c <= dot_exact (map g l) (map h l).
Proof.
  induction l as [|a l IH]; intros H.
  - split; [cbn; lia | intros c []].
  - cbn [map]. rewrite dot_exact_cons.
    destruct IH as (Hb & Hin); [intros c Hc; apply H; right; exact Hc|].
    pose proof (H a (or_introl eq_refl)) as Ha.
    unfold len in *. cbn [length]. rewrite Nat2Z.inj_succ.
    split; [nia|].
    intros c [<- | Hc]; [lia|]. specialize (Hin c Hc). lia.
Qed.

(** The sum [S] of the specification of [shr_int32], over the integers. *)
Lemma max_samp_out_exact (cs : list Z) :
  Forall (fun c => - 2 ^ 31 <= c < 2 ^ 31) cs ->
  In (2 ^ 31 - 1) cs \/ In (- 2 ^ 31) cs ->
  len cs < 2 ^ 31 ->
  let S := dot_exact (map (fun c => 2147483392 * Z.sgn c) cs)
                     (map (fun c => Float64.rint
                                      (inject_Z c / inject_Z (2 ^ 30))) cs) in
  Stage2Filter.max_samp_out cs = S
  /\ 2 ^ 32 - 512 <= S <= (2 ^ 32 - 512) * len cs.
Proof.
  intros Hcs Hpeak Hlen S. rewrite Forall_forall in Hcs.
  assert (Hterm : forall c, In c cs ->
            0 <= 2147483392 * Z.sgn c
                 * Float64.rint (inject_Z c / inject_Z (2 ^ 30))
              <= 2 ^ 32 - 512).
  { intros c Hc. destruct (scaled_exact c (Hcs c Hc)) as (E & Hr & Hs).
    rewrite <- E. pose proof (Z.sgn_spec c). nia. }
  destruct (dot_exact_terms _ _ _ cs Hterm) as (Hb & Hin). fold S in Hb, Hin.
  assert (T1 : 2147483392 * Z.sgn (2 ^ 31 - 1)
               * Float64.rint (inject_Z (2 ^ 31 - 1) / inject_Z (2 ^ 30))
               = 2 ^ 32 - 512) by (vm_compute; reflexivity).
  assert (T2 : 2147483392 * Z.sgn (- 2 ^ 31)
               * Float64.rint (inject_Z (- 2 ^ 31) / inject_Z (2 ^ 30))
               = 2 ^ 32 - 512) by (vm_compute; reflexivity).
  assert (Hlow : 2 ^ 32 - 512 <= S).
  { destruct Hpeak as [Hp | Hp]; specialize (Hin _ Hp);
      [rewrite T1 in Hin | rewrite T2 in Hin]; exact Hin. }
  split; [|lia].
  unfold Stage2Filter.max_samp_out.
  rewrite (map_ext _ _ signed_max_exact).
  rewrite (map_ext_in Stage2Filter.scaled
             (fun c => int64 (Float64.rint (inject_Z c / inject_Z (2 ^ 30))))).
  - rewrite <- (map_map _ int64), dot_int64. fold S.
    apply int64_small. lia.
  - intros c Hc. destruct (scaled_exact c (Hcs c Hc)) as (E & Hr & _).
    rewrite <- E. symmetry. apply int64_small. lia.
Qed.

(** The quantized peak of the second stage is [2^31 - 1], or [-2^31] when
    the scale factor is not finite. *)
Lemma Stage2_peak_value (coefs : list Q) (t : nat) :
  argmax (map Qabs coefs) = Ok t ->
  Qle_bool (Qabs (nth t coefs 0%Q)) 1 = true ->
  let sc := Float64.fdiv (Float64.of_int Stage2Filter.INT32_MAX_COEFFICIENT)
                         (Float64.Fin (nth t coefs 0%Q)) in
  let cs := map (fun c => Float64.astype_int32
                            (Float64.np_round
                               (Float64.fmul sc (Float64.Fin c)))) coefs in
  Forall (fun c => - 2 ^ 31 <= c < 2 ^ 31) cs
  /\ (In (2 ^ 31 - 1) cs \/ In (- 2 ^ 31) cs).
Proof.
  intros Ht Hle sc cs. split.
  - apply Forall_forall. intros v Hv. apply in_map_iff in Hv.
    destruct Hv as (c & <- & _). apply cvttsd2si_range.
  - destruct (argmax_peak coefs t Ht) as (Hlt & _).
    assert (Hin : In (nth t cs 0) cs).
    { apply nth_In. unfold cs. rewrite length_map. exact Hlt. }
    assert (Hnth : nth t cs 0
                   = Float64.astype_int32
                       (Float64.np_round
                          (Float64.fmul sc (Float64.Fin (nth t coefs 0%Q))))).
    { unfold cs. rewrite (nth_map_lt _ coefs t 0%Q 0) by exact Hlt. reflexivity. }
    rewrite Hnth in Hin. clear Hnth.
    destruct of_int_2147483647 as (q & Eq & Hq).
    destruct sc as [s | b |] eqn:Esc.
    + left. unfold sc, Stage2Filter.INT32_MAX_COEFFICIENT in Esc.
      rewrite Eq in Esc.
      rewrite (quantize_peak (2 ^ 31 - 1) q _ s ltac:(lia) Hq
                 (proj1 (Qle_bool_iff _ _) Hle) Esc) in Hin.
      rewrite cast_int32 in Hin by lia. exact Hin.
    + right. unfold Float64.astype_int32 in Hin.
      rewrite quantize_not_finite in Hin by discriminate. exact Hin.
    + right. unfold Float64.astype_int32 in Hin.
      rewrite quantize_not_finite in Hin by discriminate. exact Hin.
Qed.

(** X16. For a constructed second stage of fewer than [2^31] taps, the sum
    [S] of [0x7FFFFF00 * sign(c) * round(c / 2^30)] over the int32
    coefficients [c] is at least [2^32 - 512] and does not overflow 64
    bits, and [shr_int32 = floor(log2 S) - 30]: a shift of at least 1, with
    [2^(30 + shr_int32) <= S < 2^(31 + shr_int32)]. *)
Theorem Stage2_shift (coefs : list Q) (Q0 : Z) (f : Stage2Filter.t) :
  Stage2Filter.__init__ coefs Q0 = Ok f ->
  len coefs < 2 ^ 31 ->
  let S := dot_exact
             (map (fun c => 2147483392 * Z.sgn c) (Stage2Filter.CoefInt32 f))
             (map (fun c => Float64.rint (inject_Z c / inject_Z (2 ^ 30)))
                  (Stage2Filter.CoefInt32 f)) in
  2 ^ 32 - 512 <= S <= (2 ^ 32 - 512) * len coefs
  /\ Stage2Filter.ShrInt32 f = Z.log2 S - 30
  /\ 1 <= Stage2Filter.ShrInt32 f
  /\ 2 ^ (30 + Stage2Filter.ShrInt32 f) <= S < 2 ^ (31 + Stage2Filter.ShrInt32 f).
Proof.
  intros Hinit Hlen.
  destruct (Stage2_init_inv _ _ _ Hinit)
    as (t & Ht & Hle & _ & _ & Hsc & Hci & Hshr).
  destruct (Stage2_init_fields _ _ _ Hinit) as (_ & _ & _ & HL).
  destruct (Stage2_peak_value coefs t Ht Hle) as (Hrange & Hpeak).
  cbv zeta in Hrange, Hpeak. rewrite <- Hsc, <- Hci in Hrange, Hpeak.
  fold (Stage2Filter.CoefInt32 f) in Hrange, Hpeak, Hshr.
  assert (Hlen' : len (Stage2Filter.CoefInt32 f) = len coefs)
    by (unfold len; rewrite HL; reflexivity).
  destruct (max_samp_out_exact _ Hrange Hpeak ltac:(lia)) as (E & Hb).
  intros S. fold S in E, Hb. rewrite Hlen' in Hb. rewrite E in Hshr.
  unfold Stage2Filter.int_floor_log2_minus in Hshr.
  destruct (Z.eqb_spec S 0); [lia|].
  destruct (Z.ltb_spec S 0); [lia|].
  apply Ok_inj in Hshr. unfold Stage2Filter.ShrInt32. rewrite <- Hshr.
  pose proof (Z.log2_spec S ltac:(lia)) as Hspec.
  pose proof (Z.log2_le_mono (2 ^ 32 - 512) S ltac:(lia)) as Hmono.
  change (Z.log2 (2 ^ 32 - 512)) with 31 in Hmono.
  repeat split; try lia.
  - replace (30 + (Z.log2 S - 30)) with (Z.log2 S) by lia. lia.
  - replace (31 + (Z.log2 S - 30)) with (Z.succ (Z.log2 S)) by lia. lia.
Qed.

Lemma Stage2_shift_witness :
  exists f,
    Stage2Filter.__init__ [1%Q; (-1 # 2)%Q; (1 # 3)%Q] 2 = Ok f
    /\ 1 <= Stage2Filter.ShrInt32 f.
Proof.
  destruct (Stage2Filter.__init__ [1%Q; (-1 # 2)%Q; (1 # 3)%Q] 2)
    as [f | e] eqn:E; [|vm_compute in E; discriminate E].
  exists f. split; [reflexivity|].
  apply (Stage2_shift _ _ f E). reflexivity.
Defined.

(** X17. The second-stage constructor succeeds on every non-empty
    coefficient set of fewer than [2^31] taps whose magnitudes are all at
    most one (the logarithm never sees a zero or negative sum), and keeps
    the coefficients and the decimation factor. It raises [ValueError] (from
    [np.argmax]) for no coefficients and [AssertionError] for a magnitude
    above one. *)
Theorem Stage2_init_accepts (coefs : list Q) (Q0 : Z) :
  (coefs <> [] -> Forall (fun c => (Qabs c <= 1)%Q) coefs ->
   len coefs < 2 ^ 31 ->
   exists f, Stage2Filter.__init__ coefs Q0 = Ok f
     /\ Stage2Filter.DecimationFactor f = Q0
     /\ Stage2Filter.Coef f = coefs
     /\ Stage2Filter.TapCount f = len coefs
     /\ len (Stage2Filter.CoefInt32 f) = len coefs
     /\ Forall (fun c => - 2 ^ 31 <= c < 2 ^ 31) (Stage2Filter.CoefInt32 f))
  /\ (coefs = [] -> Stage2Filter.__init__ coefs Q0 = Raise ValueError)
  /\ (Exists (fun c => ~ (Qabs c <= 1)%Q) coefs ->
      Stage2Filter.__init__ coefs Q0 = Raise AssertionError).
Proof.
  repeat split.
  - intros Hne Hall Hlen.
    destruct (argmax_some (map Qabs coefs)) as (t & Ht).
    { destruct coefs; [congruence | discriminate]. }
    pose proof (proj2 (peak_le_one coefs t Ht) Hall) as Hle.
    destruct (Stage2_peak_value coefs t Ht Hle) as (Hrange & Hpeak).
    cbv zeta in Hrange, Hpeak.
    assert (E : exists f, Stage2Filter.__init__ coefs Q0 = Ok f).
    { unfold Stage2Filter.__init__, assert. rewrite Ht. cbn [bind].
      rewrite Hle. cbn [bind].
      destruct (max_samp_out_exact _ Hrange Hpeak) as (Em & Hb).
      { unfold len. rewrite length_map. exact Hlen. }
      rewrite Em. unfold Stage2Filter.int_floor_log2_minus.
      set (S := dot_exact _ _) in *.
      destruct (Z.eqb_spec S 0); [lia|].
      destruct (Z.ltb_spec S 0); [lia|].
      cbn [bind]. eexists. reflexivity. }
    destruct E as (f & E). exists f. split; [exact E|].
    destruct (Stage2_init_fields _ _ _ E) as (Hd & HT & HC & HL).
    destruct (Stage2_init_inv _ _ _ E) as (t' & _ & _ & _ & _ & _ & Hci & _).
    repeat split; try assumption.
    + unfold len. rewrite HL. reflexivity.
    + unfold Stage2Filter.CoefInt32. rewrite Hci.
      apply Forall_forall. intros v Hv. apply in_map_iff in Hv.
      destruct Hv as (c & <- & _). apply cvttsd2si_range.
  - intros ->. reflexivity.
  - intros Hex.
    destruct coefs as [|c0 coefs']; [inversion Hex|].
    destruct (argmax_some (map Qabs (c0 :: coefs'))) as (t & Ht); [discriminate|].
    unfold Stage2Filter.__init__, assert. rewrite Ht. cbn [bind].
    destruct (Qle_bool (Qabs (nth t (c0 :: coefs') 0%Q)) 1) eqn:Hpeak;
      [|reflexivity].
    exfalso. apply (peak_le_one _ t Ht) in Hpeak.
    rewrite Forall_forall in Hpeak. apply Exists_exists in Hex.
    destruct Hex as (c & Hc & Hn). apply Hn, Hpeak, Hc.
Qed.

Lemma Stage2_init_accepts_witness :
  (exists f, Stage2Filter.__init__ [(1 # 9)%Q; (-1 # 3)%Q] 4 = Ok f
             /\ Stage2Filter.TapCount f = 2)
  /\ Stage2Filter.__init__ [(1 # 9)%Q; (-4 # 3)%Q] 4 = Raise AssertionError.
Proof.
  split.
  - destruct (proj1 (Stage2_init_accepts [(1 # 9)%Q; (-1 # 3)%Q] 4))
      as (f & E & _ & _ & HT & _).
    + discriminate.
    + repeat constructor; discriminate.
    + reflexivity.
    + exists f. split; [exact E|]. rewrite HT. reflexivity.
  - apply (proj2 (proj2 (Stage2_init_accepts [(1 # 9)%Q; (-4 # 3)%Q] 4))).
    apply Exists_cons_tl, Exists_cons_hd. intros H. apply H. reflexivity.
Defined.

(** ** Peaks that keep the scale factor finite *)

Section FiniteScale.

Local Open Scope Q_scope.

Lemma round_finite (x : Q) :
  Qabs (Float64.rnd53 x) <= Float64.max_f64 ->
  Float64.round x = Float64.Fin (Float64.rnd53 x).
Proof.
  intros H. unfold Float64.round.
  apply Qle_bool_iff in H. rewrite H. reflexivity.
Qed.

(** A peak of magnitude at least [2^-990] is far enough from zero for
    [M / peak] not to overflow binary64. *)
Lemma scale_is_finite (M : Z) (q c : Q) :
  (1 <= M <= 2 ^ 31)%Z -> q == inject_Z M ->
  Float64.pow2 (-990) <= Qabs c ->
  exists s, Float64.fdiv (Float64.Fin q) (Float64.Fin c) = Float64.Fin s.
Proof.
  intros HM Hq Hc.
  pose proof (pow2_pos (-990)) as Pp. pose proof (pow2_pos 990) as PP.
  assert (HpP : Float64.pow2 (-990) * Float64.pow2 990 == 1).
  { rewrite <- pow2_add. reflexivity. }
  assert (Hc0 : ~ c == 0).
  { intros E. rewrite E in Hc. change (Qabs 0) with 0 in Hc. lra. }
  unfold Float64.fdiv, Float64.is_zero.
  destruct (Qeq_bool c 0) eqn:Ez; [apply Qeq_bool_eq in Ez; contradiction|].
  exists (Float64.rnd53 (q / c)). apply round_finite.
  assert (HM1 : 0 <= inject_Z M)
    by (change 0 with (inject_Z 0); rewrite <- Zle_Qle; lia).
  assert (HM2 : inject_Z M <= 2147483648)
    by (change 2147483648 with (inject_Z (2 ^ 31)); rewrite <- Zle_Qle; lia).
  set (a := Qabs (q / c)).
  assert (Ha0 : 0 <= a) by apply Qabs_nonneg.
  assert (Hac : a * Qabs c == inject_Z M).
  { unfold a. rewrite <- Qabs_Qmult.
    assert (E3 : q / c * c == inject_Z M) by (rewrite Hq; field; exact Hc0).
    rewrite E3. apply Qabs_pos. exact HM1. }
  assert (Hap : a * Float64.pow2 (-990) <= inject_Z M).
  { rewrite <- Hac. rewrite !(Qmult_comm a).
    apply Qmult_le_compat_r; assumption. }
  assert (HaP : a <= inject_Z M * Float64.pow2 990).
  { assert (E : a == a * Float64.pow2 (-990) * Float64.pow2 990).
    { rewrite <- Qmult_assoc, HpP. ring. }
    rewrite E. apply Qmult_le_compat_r; [exact Hap | lra]. }
  assert (HaP2 : a <= 2147483648 * Float64.pow2 990).
  { apply Qle_trans with (inject_Z M * Float64.pow2 990); [exact HaP|].
    apply Qmult_le_compat_r; lra. }
  pose proof (rnd53_err (q / c)) as He. fold a in He.
  rewrite pow2_m53 in He. destruct pow2_m1075 as [He0 He1].
  assert (Hbig : 2 * (2147483648 * Float64.pow2 990) + 1 <= Float64.max_f64).
  { apply Qle_bool_iff. vm_compute. reflexivity. }
  apply Qabs_Qle_condition. apply Qabs_Qle_condition in He.
  assert (Hq0 := Qabs_nonneg (q / c)). fold a in Hq0.
  assert (Hqa : - a <= q / c <= a) by (apply Qabs_Qle_condition; apply Qle_refl).
  lra.
Qed.

End FiniteScale.

(** X18. A peak coefficient of magnitude at least [2^-990] (and at most 1,
    as the constructor asserts) quantizes exactly to the maximum: [32766]
    in a constructed first stage and [2^31 - 1] in a constructed second
    stage, whatever the sign of the peak. *)
Theorem peak_quantizes_to_max :
  (forall (coefs : list Q) (Q0 : Z) (f : Stage1Filter.t) (t : nat),
      Stage1Filter.__init__ coefs Q0 = Ok f ->
      argmax (map Qabs coefs) = Ok t ->
      (Float64.pow2 (-990) <= Qabs (nth t coefs 0))%Q ->
      nth t (Stage1Filter.CoefInt16 f) 0 = 32766)
  /\ (forall (coefs : list Q) (Q0 : Z) (f : Stage2Filter.t) (t : nat),
      Stage2Filter.__init__ coefs Q0 = Ok f ->
      argmax (map Qabs coefs) = Ok t ->
      (Float64.pow2 (-990) <= Qabs (nth t coefs 0))%Q ->
      nth t (Stage2Filter.CoefInt32 f) 0 = 2 ^ 31 - 1).
Proof.
  split; intros coefs Q0 f t Hinit Ht Hpeak.
  - destruct (Stage1_init_inv _ _ _ Hinit)
      as (_ & t' & Ht' & _ & _ & _ & Hsc & _).
    rewrite Ht in Ht'. apply Ok_inj in Ht'. subst t'.
    destruct of_int_32766 as (q & Eq & Hq).
    destruct (scale_is_finite 32766 q _ ltac:(lia) Hq Hpeak) as (s & Hs).
    assert (Hs' : Stage1Filter.ScaleInt16 f = Float64.Fin s).
    { unfold Stage1Filter.ScaleInt16. rewrite Hsc, Eq. exact Hs. }
    destruct (Stage1_quantized _ _ _ _ _ Hinit Ht Hs')
      as (Hlt & -> & Hp & _).
    rewrite (nth_map_lt _ coefs t 0%Q 0) by exact Hlt. exact Hp.
  - destruct (Stage2_init_inv _ _ _ Hinit)
      as (t' & Ht' & _ & _ & _ & Hsc & _).
    rewrite Ht in Ht'. apply Ok_inj in Ht'. subst t'.
    destruct of_int_2147483647 as (q & Eq & Hq).
    destruct (scale_is_finite (2 ^ 31 - 1) q _ ltac:(lia) Hq Hpeak) as (s & Hs).
    assert (Hs' : Stage2Filter.ScaleInt32 f = Float64.Fin s).
    { unfold Stage2Filter.ScaleInt32. rewrite Hsc.
      unfold Stage2Filter.INT32_MAX_COEFFICIENT. rewrite Eq. exact Hs. }
    destruct (Stage2_quantized _ _ _ _ _ Hinit Ht Hs')
      as (Hlt & -> & Hp & _).
    rewrite (nth_map_lt _ coefs t 0%Q 0) by exact Hlt. exact Hp.
Qed.

Lemma peak_quantizes_to_max_witness :
  exists f,
    Stage2Filter.__init__ [(1 # 5)%Q; (-2 # 3)%Q; (1 # 3)%Q] 2 = Ok f
    /\ nth 1 (Stage2Filter.CoefInt32 f) 0 = 2 ^ 31 - 1.
Proof.
  destruct (Stage2Filter.__init__ [(1 # 5)%Q; (-2 # 3)%Q; (1 # 3)%Q] 2)
    as [f | e] eqn:E; [|vm_compute in E; discriminate E].
  exists f. split; [reflexivity|].
  apply (proj2 peak_quantizes_to_max _ _ f 1%nat E eq_refl).
  apply Qle_bool_iff. vm_compute. reflexivity.
Defined.

(** ** The packed words of the coefficient array *)

(** A loop that assigns [g k] to item [k] of an array of [N] items, for
    [k] from 0 to [N - 1]. *)
Lemma fill_loop {A : Type} (g : nat -> A) (z : A) (N : nat) :
  exists y,
    for_each (range (Z.of_nat N))
      (fun k y => set_item y k (g (Z.to_nat k))) (repeat z N) = Ok y
    /\ length y = N
    /\ forall k, (k < N)%nat -> nth k y z = g k.
Proof.
  unfold range. rewrite Nat2Z.id.
  destruct (for_each_inv
              (fun k y => set_item y k (g (Z.to_nat k)))
              (fun i y => length y = N
                          /\ forall k, (k < i)%nat -> nth k y z = g k)
              N 0 (repeat z N)) as (y & Ey & Hy & Hk).
  - split; [apply repeat_length | intros k Hk; lia].
  - intros i y Hi (Hlen & Hk). rewrite Nat2Z.id.
    exists (update i (g i) y). split; [apply set_item_ok; lia|].
    split; [rewrite update_length; lia|].
    intros k Hki. destruct (Nat.eq_dec k i) as [-> | Hne].
    + apply update_nth_same. lia.
    + rewrite update_nth_other by lia. apply Hk. lia.
  - exists y. repeat split; assumption.
Qed.

Lemma dot_mod (l : list (Z * Z)) : forall a b,
  a = b mod 2 ^ 32 ->
  fold_left (fun acc p => uint32 (acc + uint32 (fst p * snd p))) l a
  = fold_left (fun acc p => acc + fst p * snd p) l b mod 2 ^ 32.
Proof.
  induction l as [|p l IH]; intros a b E; cbn [fold_left]; [exact E|].
  apply IH. unfold uint32. rewrite E, <- Zplus_mod. reflexivity.
Qed.

Lemma dot_uint32 (x c : list Z) :
  dot (D := UInt32) x c = uint32 (dot_exact x c).
Proof. unfold dot, dot_exact, uint32. apply dot_mod. reflexivity. Qed.

Lemma dot_exact_snoc (x : list Z) : forall (c : list Z) (a b : Z),
  length x = length c ->
  dot_exact (x ++ [a]) (c ++ [b]) = dot_exact x c + a * b.
Proof.
  induction x as [|x0 x IH]; intros [|c0 c] a b Hlen; cbn [length] in Hlen;
    try discriminate.
  - cbn. lia.
  - cbn [app]. rewrite !dot_exact_cons, IH by lia. lia.
Qed.

Lemma dot_exact_rev (x : list Z) : forall c : list Z,
  length x = length c -> dot_exact (rev x) (rev c) = dot_exact x c.
Proof.
  induction x as [|x0 x IH]; intros [|c0 c] Hlen; cbn [length] in Hlen;
    try discriminate; [reflexivity|].
  cbn [rev]. rewrite dot_exact_snoc by (rewrite !length_rev; lia).
  rewrite IH, dot_exact_cons by lia. lia.
Qed.

(** The weights [2^k, 2^(k+1), ...] against a list give [2^k] times its
    value read least significant element first. *)
Lemma dot_exact_pow2 (l : list Z) : forall k : nat,
  dot_exact (map (fun i => 2 ^ Z.of_nat i) (seq k (length l))) l
  = 2 ^ Z.of_nat k * fold_right (fun x acc => x + 2 * acc) 0 l.
Proof.
  induction l as [|x l IH]; intros k.
  - cbn. lia.
  - cbn [length seq map fold_right]. rewrite dot_exact_cons, IH.
    rewrite Nat2Z.inj_succ, Z.pow_succ_r by lia.
    set (v := fold_right _ 0 l). set (p := 2 ^ Z.of_nat k). lia.
Qed.

Lemma lsb_value_bound (l : list Z) :
  Forall is_bit l ->
  0 <= fold_right (fun x acc => x + 2 * acc) 0 l < 2 ^ Z.of_nat (length l).
Proof.
  induction 1 as [|x l Hx _ IH]; [cbn; lia|].
  cbn [fold_right length]. rewrite Nat2Z.inj_succ, Z.pow_succ_r by lia.
  set (v := fold_right _ 0 l) in *. set (p := 2 ^ Z.of_nat (length l)) in *.
  destruct Hx as [-> | ->]; lia.
Qed.

Lemma lsb_value_testbit (l : list Z) :
  Forall is_bit l -> forall i, (i < length l)%nat ->
  Z.testbit (fold_right (fun x acc => x + 2 * acc) 0 l) (Z.of_nat i)
  = (nth i l 0 =? 1).
Proof.
  induction 1 as [|x l Hx _ IH]; intros i Hi; cbn [length] in Hi; [lia|].
  cbn [fold_right].
  set (v := fold_right (fun x acc => x + 2 * acc) 0 l) in *. clearbody v.
  assert (E : x + 2 * v = 2 * v + Z.b2z (x =? 1)).
  { destruct Hx as [-> | ->];
      [change (0 =? 1) with false | change (1 =? 1) with true];
      cbn [Z.b2z]; lia. }
  rewrite E. destruct i as [|i].
  - cbn [nth Z.of_nat]. apply Z.testbit_0_r.
  - rewrite Nat2Z.inj_succ, Z.testbit_succ_r by lia. cbn [nth].
    apply IH. lia.
Qed.

Lemma nth_concat_uniform {A : Type} (m : nat) (d : A) (L : list (list A)) :
  Forall (fun r => length r = m) L ->
  forall b r, (b < length L)%nat -> (r < m)%nat ->
  nth (m * b + r) (concat L) d = nth r (nth b L []) d.
Proof.
  induction 1 as [|a L Ha _ IH]; intros b r Hb Hr; cbn [length] in Hb; [lia|].
  cbn [concat]. destruct b as [|b].
  - rewrite Nat.mul_0_r, app_nth1 by lia. reflexivity.
  - rewrite app_nth2 by nia. cbn [nth].
    replace (m * S b + r - length a)%nat with (m * b + r)%nat by nia.
    apply IH; lia.
Qed.

Lemma chunks_nth {A : Type} (n m : nat) (l : list A) :
  (m < length l / n)%nat ->
  nth m (chunks n l) [] = firstn n (skipn (m * n) l).
Proof.
  intros Hm. unfold chunks.
  rewrite (nth_map_lt _ (seq 0 (length l / n)) m 0%nat [])
    by (rewrite length_seq; exact Hm).
  rewrite seq_nth by exact Hm. reflexivity.
Qed.

Lemma window_nth {A : Type} (l : list A) (a n i : nat) (d : A) :
  (i < n)%nat -> nth i (firstn n (skipn a l)) d = nth (a + i) l d.
Proof.
  intros Hi. rewrite nth_firstn.
  destruct (Nat.ltb_spec i n); [|lia]. apply nth_skipn.
Qed.

Lemma window_In {A : Type} (l : list A) (a n : nat) (x : A) :
  In x (firstn n (skipn a l)) -> In x l.
Proof.
  intros H.
  assert (H1 : In x (skipn a l)).
  { rewrite <- (firstn_skipn n (skipn a l)). apply in_or_app. left. exact H. }
  rewrite <- (firstn_skipn a l). apply in_or_app. right. exact H1.
Qed.

Lemma weights_F :
  Stage1Filter.F = rev (map (fun i => 2 ^ Z.of_nat i) (seq 0 32)).
Proof. reflexivity. Qed.

(** The word packed from 32 binary coefficients has coefficient [i] at
    bit [i]. *)
Lemma packed_word (chunk : list Z) :
  length chunk = 32%nat -> Forall is_bit chunk ->
  let w := dot (D := UInt32) Stage1Filter.F (rev (map uint32 chunk)) in
  0 <= w < 2 ^ 32
  /\ forall i, (i < 32)%nat -> Z.testbit w (Z.of_nat i) = (nth i chunk 0 =? 1).
Proof.
  intros Hlen Hbits w.
  assert (Hid : map uint32 chunk = chunk).
  { rewrite <- (map_id chunk) at 2. apply map_ext_in. intros x Hx.
    rewrite Forall_forall in Hbits. destruct (Hbits x Hx) as [-> | ->];
      reflexivity. }
  assert (Ew : w = fold_right (fun x acc => x + 2 * acc) 0 chunk).
  { unfold w. rewrite Hid, dot_uint32, weights_F.
    rewrite dot_exact_rev by (rewrite length_map, length_seq; lia).
    rewrite <- Hlen, dot_exact_pow2.
    pose proof (lsb_value_bound chunk Hbits) as Hb. rewrite Hlen in Hb.
    unfold uint32. change (2 ^ Z.of_nat 0) with 1.
    change (2 ^ Z.of_nat 32) with (2 ^ 32) in Hb.
    rewrite Z.mul_1_l. apply Z.mod_small. exact Hb. }
  rewrite Ew. split.
  - pose proof (lsb_value_bound chunk Hbits) as Hb. rewrite Hlen in Hb.
    exact Hb.
  - intros i Hi. apply lsb_value_testbit; [exact Hbits | lia].
Qed.

(** X19. [ToXCoreCoefArray] packs any binary matrix whose size is [n]
    blocks of 256 into [8 * n] words below [2^32]: word [r] of block [b]
    holds, at bit [i], element [256 * b + 32 * (7 - r) + i] of the flattened
    matrix (the eight words of a block in reverse order, the first
    coefficient of a word in its least significant bit). A size that is not
    a multiple of 256 makes the reshape fail. *)
Theorem ToXCoreCoefArray_bits (f : Stage1Filter.t) (n : nat) :
  let flat := concat (Stage1Filter.CoefBinary f) in
  (length flat = (256 * n)%nat -> Forall is_bit flat ->
   exists y,
     Stage1Filter.ToXCoreCoefArray f = Ok y
     /\ length y = (8 * n)%nat
     /\ forall b r, (b < n)%nat -> (r < 8)%nat ->
          0 <= nth (8 * b + r) y 0 < 2 ^ 32
          /\ forall i, (i < 32)%nat ->
               Z.testbit (nth (8 * b + r) y 0) (Z.of_nat i)
               = (nth (256 * b + 32 * (7 - r) + i) flat 0 =? 1))
  /\ (len flat mod 256 <> 0 ->
      Stage1Filter.ToXCoreCoefArray f = Raise ValueError).
Proof.
  intros flat. split.
  - intros Hlen Hbits.
    unfold Stage1Filter.ToXCoreCoefArray. fold flat.
    unfold len at 1 2. rewrite Hlen.
    replace (Z.of_nat (256 * n)) with (Z.of_nat n * 256) by lia.
    rewrite Z.div_mul by lia.
    destruct (Z.eqb_spec (Z.of_nat n * 8 * 32) (Z.of_nat n * 256)); [|lia].
    cbn [bind].
    set (X := chunks 32 flat). set (blocks := chunks 8 X).
    set (L := map (map (@rev Z))
                (map (@rev (list Z)) (map (map (map uint32)) blocks))).
    set (rows := concat L).
    assert (HX : length X = (8 * n)%nat).
    { unfold X. rewrite chunks_length, Hlen.
      replace (256 * n)%nat with (8 * n * 32)%nat by lia.
      apply Nat.div_mul. lia. }
    assert (Hblocks : length blocks = n).
    { unfold blocks. rewrite chunks_length, HX.
      rewrite (Nat.mul_comm 8 n). apply Nat.div_mul. lia. }
    assert (HL8 : Forall (fun b => length b = 8%nat) L).
    { apply blocks_rows. apply chunks_rows. lia. }
    assert (HLn : length L = n) by (unfold L; rewrite !length_map; exact Hblocks).
    assert (Hrows : length rows = (8 * n)%nat).
    { unfold rows. rewrite (concat_length_const 8 L HL8), HLn. lia. }
    unfold len. rewrite Hrows, Nat2Z.id.
    destruct (fill_loop
                (fun k => dot (D := UInt32) Stage1Filter.F (nth k rows []))
                0 (8 * n)) as (y & Ey & Hy & Hk).
    exists y. split; [exact Ey|]. split; [exact Hy|].
    intros b r Hb Hr.
    set (m := (8 * b + (7 - r))%nat).
    set (chunk := firstn 32 (skipn (m * 32) flat)).
    assert (Hm : (m < 8 * n)%nat) by (unfold m; lia).
    assert (Hblk : nth b blocks [] = firstn 8 (skipn (b * 8) X)).
    { unfold blocks. apply chunks_nth. rewrite HX.
      rewrite (Nat.mul_comm 8 n), Nat.div_mul by lia. exact Hb. }
    assert (Hblk8 : length (nth b blocks []) = 8%nat).
    { pose proof (chunks_rows 8 X ltac:(lia)) as H8.
      rewrite Forall_forall in H8. apply H8. apply nth_In.
      fold blocks. lia. }
    assert (Hrow : nth (8 * b + r) rows [] = rev (map uint32 chunk)).
    { unfold rows. rewrite (nth_concat_uniform 8 [] L HL8 b r) by lia.
      unfold L. rewrite !map_map.
      rewrite (nth_map_lt _ blocks b [] []) by lia.
      rewrite (nth_map_lt _ _ r [] [])
        by (rewrite length_rev, length_map, Hblk8; exact Hr).
      rewrite rev_nth by (rewrite length_map, Hblk8; exact Hr).
      rewrite length_map, Hblk8.
      replace (8 - S r)%nat with (7 - r)%nat by lia.
      rewrite (nth_map_lt _ _ (7 - r) [] []) by (rewrite Hblk8; lia).
      rewrite Hblk, window_nth by lia.
      replace (b * 8 + (7 - r))%nat with m by (unfold m; lia).
      unfold X. rewrite chunks_nth; [reflexivity|].
      fold X. rewrite <- chunks_length. fold X. lia. }
    assert (Hclen : length chunk = 32%nat).
    { unfold chunk. rewrite length_firstn, length_skipn, Hlen. lia. }
    assert (Hcbits : Forall is_bit chunk).
    { apply Forall_forall. intros x Hx. rewrite Forall_forall in Hbits.
      apply Hbits. apply (window_In flat (m * 32) 32). exact Hx. }
    rewrite (Hk (8 * b + r)%nat) by lia. rewrite Hrow.
    destruct (packed_word chunk Hclen Hcbits) as (Hrange & Hbit).
    split; [exact Hrange|].
    intros i Hi. rewrite (Hbit i Hi). unfold chunk.
    rewrite window_nth by exact Hi.
    replace (m * 32 + i)%nat with (256 * b + 32 * (7 - r) + i)%nat
      by (unfold m; lia).
    reflexivity.
  - intros Hmod. unfold Stage1Filter.ToXCoreCoefArray. fold flat.
    destruct (Z.eqb_spec (len flat / 256 * 8 * 32) (len flat)) as [E | E];
      [|reflexivity].
    exfalso. apply Hmod.
    pose proof (Z.div_mod (len flat) 256 ltac:(lia)). lia.
Qed.

Lemma ToXCoreCoefArray_bits_witness :
  exists f y,
    Stage1Filter.__init__ (repeat 1%Q 256) 32 = Ok f
    /\ Stage1Filter.ToXCoreCoefArray f = Ok y
    /\ length y = 128%nat
    /\ Z.testbit (nth 9 y 0) 3 = (nth 451 (concat (Stage1Filter.CoefBinary f)) 0 =? 1).
Proof.
  destruct (Stage1Filter.__init__ (repeat 1%Q 256) 32) as [f | e] eqn:E;
    [|vm_compute in E; discriminate E].
  assert (Hf : length (concat (Stage1Filter.CoefBinary f)) = (256 * 16)%nat
               /\ Forall is_bit (concat (Stage1Filter.CoefBinary f))).
  { vm_compute in E. apply Ok_inj in E. subst f. split.
    - vm_compute. reflexivity.
    - match goal with
      | |- Forall is_bit ?l =>
          assert (Hb : forallb (fun x => (x =? 0) || (x =? 1)) l = true)
            by (vm_compute; reflexivity)
      end.
      apply Forall_forall. intros x Hx.
      rewrite forallb_forall in Hb. specialize (Hb x Hx).
      apply orb_true_iff in Hb. destruct Hb as [Hb | Hb];
        apply Z.eqb_eq in Hb; [left | right]; exact Hb. }
  destruct Hf as (Hlen & Hbits).
  destruct (proj1 (ToXCoreCoefArray_bits f 16) Hlen Hbits)
    as (y & Ey & Hy & Hw).
  exists f, y. split; [reflexivity|]. split; [exact Ey|]. split; [exact Hy|].
  exact (proj2 (Hw 1%nat 1%nat ltac:(lia) ltac:(lia)) 3%nat ltac:(lia)).
Defined.

(** ** Causality of the fixed-point filters *)

(** A window of a padded channel sees the channel only up to the end of
    the window. *)
Lemma window_app_prefix {A : Type} (pad c1 c2 : list A) (a t : nat) :
  (length pad <= a + t)%nat ->
  firstn (a + t - length pad) c1 = firstn (a + t - length pad) c2 ->
  window (pad ++ c1) a t = window (pad ++ c2) a t.
Proof.
  intros Hp H. unfold window.
  rewrite !firstn_skipn_comm, !firstn_app, H. reflexivity.
Qed.

Lemma Stage1_FilterInt16_samples (coefs : list Q) (Q0 : Z) (f : Stage1Filter.t)
    (pdm_signal : ndarray Z) (N : Z) :
  Stage1Filter.__init__ coefs Q0 = Ok f ->
  1 <= Q0 <= len coefs ->
  Forall (fun channel => len channel = N) (atleast_2d pdm_signal) ->
  exists out,
    Stage1Filter.FilterInt16 f pdm_signal = Ok out
    /\ forall ch channel,
         nth_error (atleast_2d pdm_signal) ch = Some channel ->
         forall k, 0 <= k < N / Q0 ->
           nth (Z.to_nat k) (nth ch out []) 0
           = int32 (Z.shiftl
                      (int32 (dot_exact
                                (window (padded1 (D := Int32) (len coefs - Q0) channel)
                                        (Z.to_nat (Q0 * k)) (length coefs))
                                (Stage1Filter.CoefInt16 f)))
                      8).
Proof.
  intros Hinit HQ Hsig.
  destruct (Stage1_init_fields _ _ _ Hinit) as (Hd & HT & _).
  pose proof (Stage1_lengths _ _ _ Hinit) as HL. rewrite HT in HL.
  set (rows := atleast_2d pdm_signal) in *.
  set (t := length coefs) in *.
  assert (Ht : len coefs = Z.of_nat t) by reflexivity.
  destruct (rows_uniform rows N Hsig) as (n & Hrows & Hshape & HN).
  assert (Hq : exists q : nat, Q0 = Z.of_nat q /\ (1 <= q <= t)%nat).
  { exists (Z.to_nat Q0). lia. }
  destruct Hq as (q & Eq & Hq).
  assert (HP : Stage1Filter.TapCount f - Stage1Filter.DecimationFactor f
               = Z.of_nat (t - q)) by (rewrite Hd, HT; lia).
  unfold Stage1Filter.FilterInt16. fold rows. rewrite Hshape.
  rewrite Hd, Eq, (floordiv_nat n q) by lia. cbn [bind].
  rewrite (Stage1_pad_ok (D := Int32) f rows (t - q) n HP Hrows). cbn [bind].
  rewrite zeros_ok. cbn [bind]. rewrite HT, Ht.
  destruct (filter_loop (D := Int32)
              (map (padded1 (D := Int32) (Z.of_nat (t - q))) rows)
              (map int32 (Stage1Filter.CoefInt16 f)) (fun v => v) 0 0
              q t n (length rows))
    as (res & Eres & Hlen & Hres & Hval).
  { apply length_map. }
  { apply Forall_forall. intros r Hr. apply in_map_iff in Hr.
    destruct Hr as (r0 & <- & Hr0). rewrite padded1_length.
    rewrite Forall_forall in Hrows. rewrite (Hrows r0 Hr0). reflexivity. }
  { rewrite length_map. lia. }
  { exact Hq. }
  { reflexivity. }
  cbn [zero Int32]. loop_result Eres. cbn [bind].
  eexists. split; [reflexivity|].
  intros ch channel Hch k Hk.
  assert (Hlt : (ch < length rows)%nat)
    by (apply nth_error_Some; congruence).
  assert (Hne : rows <> []) by (intros E; rewrite E in Hlt; cbn in Hlt; lia).
  rewrite (HN Hne), <- Nat2Z.inj_div in Hk.
  assert (Hnth : nth ch rows [] = channel)
    by (apply nth_error_nth; exact Hch).
  assert (Hrow : length (nth ch res []) = (n / q)%nat).
  { rewrite Forall_forall in Hres. apply Hres. apply nth_In. lia. }
  rewrite (nth_map_lt _ res ch [] []) by lia.
  rewrite (nth_map_lt _ _ _ 0 0) by lia.
  rewrite (Hval ch (Z.to_nat k)) by lia.
  rewrite (nth_map_lt _ _ ch [] 0) by (rewrite length_map; lia).
  rewrite (nth_map_lt _ rows ch [] []) by lia.
  rewrite Hnth, dot_int32.
  replace (Z.of_nat t - Z.of_nat q) with (Z.of_nat (t - q)) by lia.
  replace (Z.to_nat (Z.of_nat q * k)) with (q * Z.to_nat k)%nat by lia.
  reflexivity.
Qed.

Lemma padded1_window_prefix (P : nat) (c1 c2 : list Z) (a t : nat) :
  (P <= a + t)%nat ->
  firstn (a + t - P) c1 = firstn (a + t - P) c2 ->
  window (padded1 (D := Int32) (Z.of_nat P) c1) a t
  = window (padded1 (D := Int32) (Z.of_nat P) c2) a t.
Proof.
  intros HP H. unfold padded1.
  apply window_app_prefix; rewrite length_map, range_length; assumption.
Qed.

Lemma padded2_window_prefix (P : nat) (c1 c2 : list Z) (a t : nat) :
  (P <= a + t)%nat ->
  firstn (a + t - P) c1 = firstn (a + t - P) c2 ->
  window (padded2 (D := Int32) (Z.of_nat P) c1) a t
  = window (padded2 (D := Int32) (Z.of_nat P) c2) a t.
Proof.
  intros HP H. unfold padded2.
  apply window_app_prefix; rewrite repeat_length, Nat2Z.id; assumption.
Qed.

(** X20. [FilterInt16] is causal: for a constructed first stage with
    [1 <= Q <= T], output sample [k] of a channel depends only on the first
    [Q * (k + 1)] samples of that channel. Two signals whose channels [ch]
    agree on these samples give the same sample [k] on channel [ch]. *)
Theorem FilterInt16_causal (coefs : list Q) (Q0 : Z) (f : Stage1Filter.t)
    (s1 s2 : ndarray Z) (N1 N2 : Z) (ch : nat) (c1 c2 : list Z) (k : Z) :
  Stage1Filter.__init__ coefs Q0 = Ok f ->
  1 <= Q0 <= len coefs ->
  Forall (fun channel => len channel = N1) (atleast_2d s1) ->
  Forall (fun channel => len channel = N2) (atleast_2d s2) ->
  nth_error (atleast_2d s1) ch = Some c1 ->
  nth_error (atleast_2d s2) ch = Some c2 ->
  0 <= k < N1 / Q0 -> k < N2 / Q0 ->
  firstn (Z.to_nat (Q0 * (k + 1))) c1 = firstn (Z.to_nat (Q0 * (k + 1))) c2 ->
  exists out1 out2,
    Stage1Filter.FilterInt16 f s1 = Ok out1
    /\ Stage1Filter.FilterInt16 f s2 = Ok out2
    /\ nth (Z.to_nat k) (nth ch out1 []) 0 = nth (Z.to_nat k) (nth ch out2 []) 0.
Proof.
  intros Hinit HQ Hs1 Hs2 Hc1 Hc2 Hk1 Hk2 Hpre.
  destruct (Stage1_FilterInt16_samples _ _ f s1 N1 Hinit HQ Hs1) as (o1 & E1 & V1).
  destruct (Stage1_FilterInt16_samples _ _ f s2 N2 Hinit HQ Hs2) as (o2 & E2 & V2).
  exists o1, o2. split; [exact E1|]. split; [exact E2|].
  rewrite (V1 ch c1 Hc1 k Hk1), (V2 ch c2 Hc2 k ltac:(lia)).
  unfold len in *.
  replace (Z.of_nat (length coefs) - Q0)
    with (Z.of_nat (length coefs - Z.to_nat Q0)) by lia.
  rewrite (padded1_window_prefix _ c1 c2); [reflexivity | nia |].
  replace (Z.to_nat (Q0 * k) + length coefs - (length coefs - Z.to_nat Q0))%nat
    with (Z.to_nat (Q0 * (k + 1))) by nia.
  exact Hpre.
Qed.

Lemma FilterInt16_causal_witness :
  exists f out1 out2,
    Stage1Filter.__init__ (repeat 1%Q 256) 32 = Ok f
    /\ Stage1Filter.FilterInt16 f (Arr1 (repeat 1 64)) = Ok out1
    /\ Stage1Filter.FilterInt16 f (Arr1 (repeat 1 32 ++ repeat (-1) 40)) = Ok out2
    /\ nth 0 (nth 0 out1 []) 0 = nth 0 (nth 0 out2 []) 0.
Proof.
  destruct (Stage1Filter.__init__ (repeat 1%Q 256) 32) as [f | e] eqn:E;
    [|vm_compute in E; discriminate E].
  destruct (FilterInt16_causal _ _ f (Arr1 (repeat 1 64))
              (Arr1 (repeat 1 32 ++ repeat (-1) 40)) 64 72 0%nat
              (repeat 1 64) (repeat 1 32 ++ repeat (-1) 40) 0 E)
    as (o1 & o2 & E1 & E2 & H); try reflexivity.
  - unfold len. rewrite repeat_length. lia.
  - repeat constructor.
  - repeat constructor.
  - split; [lia | reflexivity].
  - exists f, o1, o2. repeat split; assumption.
Defined.

(** X21. [FilterInt32] is causal in the same way: for a constructed second
    stage with [1 <= Q <= T], output sample [k] of a channel depends only on
    the first [Q * (k + 1)] samples of that channel. *)
Theorem FilterInt32_causal (coefs : list Q) (Q0 : Z) (f : Stage2Filter.t)
    (s1 s2 : ndarray Z) (N1 N2 : Z) (ch : nat) (c1 c2 : list Z) (k : Z) :
  Stage2Filter.__init__ coefs Q0 = Ok f ->
  1 <= Q0 <= len coefs ->
  Forall (fun channel => len channel = N1) (atleast_2d s1) ->
  Forall (fun channel => len channel = N2) (atleast_2d s2) ->
  nth_error (atleast_2d s1) ch = Some c1 ->
  nth_error (atleast_2d s2) ch = Some c2 ->
  0 <= k < N1 / Q0 -> k < N2 / Q0 ->
  firstn (Z.to_nat (Q0 * (k + 1))) c1 = firstn (Z.to_nat (Q0 * (k + 1))) c2 ->
  exists out1 out2,
    Stage2Filter.FilterInt32 f s1 = Ok out1
    /\ Stage2Filter.FilterInt32 f s2 = Ok out2
    /\ nth (Z.to_nat k) (nth ch out1 []) 0 = nth (Z.to_nat k) (nth ch out2 []) 0.
Proof.
  intros Hinit HQ Hs1 Hs2 Hc1 Hc2 Hk1 Hk2 Hpre.
  destruct (Stage2_init_fields _ _ _ Hinit) as (Hd & HT & _).
  rewrite <- Hd, <- HT in HQ.
  destruct (Stage2_FilterInt32_ok _ _ f s1 N1 Hinit HQ Hs1)
    as (o1 & E1 & _ & _ & V1).
  destruct (Stage2_FilterInt32_ok _ _ f s2 N2 Hinit HQ Hs2)
    as (o2 & E2 & _ & _ & V2).
  cbv zeta in V1, V2. rewrite Hd, HT in V1, V2, HQ.
  exists o1, o2. split; [exact E1|]. split; [exact E2|].
  rewrite (V1 ch c1 Hc1 k Hk1), (V2 ch c2 Hc2 k ltac:(lia)).
  unfold len in *.
  replace (Z.of_nat (length coefs) - Q0)
    with (Z.of_nat (length coefs - Z.to_nat Q0)) by lia.
  rewrite (padded2_window_prefix _ c1 c2); [reflexivity | nia |].
  rewrite Nat2Z.id.
  replace (Z.to_nat (Q0 * k) + length coefs - (length coefs - Z.to_nat Q0))%nat
    with (Z.to_nat (Q0 * (k + 1))) by nia.
  exact Hpre.
Qed.

Lemma FilterInt32_causal_witness :
  exists f out1 out2,
    Stage2Filter.__init__ [1%Q; (-1 # 2)%Q; (1 # 3)%Q] 2 = Ok f
    /\ Stage2Filter.FilterInt32 f (Arr1 [256; 512; 768; 1024]) = Ok out1
    /\ Stage2Filter.FilterInt32 f (Arr1 [256; 512; -768; 0; 256]) = Ok out2
    /\ nth 0 (nth 0 out1 []) 0 = nth 0 (nth 0 out2 []) 0.
Proof.
  destruct (Stage2Filter.__init__ [1%Q; (-1 # 2)%Q; (1 # 3)%Q] 2)
    as [f | e] eqn:E; [|vm_compute in E; discriminate E].
  destruct (FilterInt32_causal _ _ f (Arr1 [256; 512; 768; 1024])
              (Arr1 [256; 512; -768; 0; 256]) 4 5 0%nat
              [256; 512; 768; 1024] [256; 512; -768; 0; 256] 0 E)
    as (o1 & o2 & E1 & E2 & H); try reflexivity.
  - unfold len. cbn [length]. lia.
  - repeat constructor.
  - repeat constructor.
  - split; [lia | reflexivity].
  - exists f, o1, o2. repeat split; assumption.
Defined.

(** ** Silence through the second stage *)

Lemma round_pow2_finite (e : Z) :
  e < 0 -> exists y, Float64.round (Float64.pow2 e) = Float64.Fin y.
Proof.
  intros He. exists (Float64.rnd53 (Float64.pow2 e)). apply round_small.
  pose proof (rnd53_err (Float64.pow2 e)) as Herr.
  rewrite pow2_m53 in Herr. destruct pow2_m1075 as [He0 He1].
  pose proof (pow2_pos e) as Pe.
  pose proof (pow2_le e 0 ltac:(lia)) as Ple.
  change (Float64.pow2 0) with 1%Q in Ple.
  rewrite (Qabs_pos (Float64.pow2 e)) in Herr by lra.
  apply Qabs_Qle_condition. apply Qabs_Qle_condition in Herr.
  change (inject_Z (2 ^ 62)) with 4611686018427387904%Q. lra.
Qed.

Lemma fmul_zero (y : Q) :
  Float64.fmul (Float64.Fin 0) (Float64.Fin y) = Float64.Fin 0.
Proof.
  cbn [Float64.fmul]. unfold Float64.round, Float64.rnd53.
  assert (E : Qeq_bool (0 * y) 0 = true) by (apply Qeq_eq_bool; ring).
  rewrite E. reflexivity.
Qed.

(** The rescaling of a zero accumulator is zero, whatever the shift. *)
Lemma rescale_zero (shr : Z) : Stage2Filter.rescale shr 0 = 0.
Proof.
  unfold Stage2Filter.rescale.
  destruct (Z.ltb_spec (-30 - shr) 0) as [He | He]; [|reflexivity].
  destruct (round_pow2_finite _ He) as (y & Ey). rewrite Ey.
  change (Float64.of_int 0) with (Float64.Fin 0).
  rewrite fmul_zero. reflexivity.
Qed.

Lemma dot_exact_zero_l (x : list Z) : forall c,
  Forall (fun v => v = 0) x -> dot_exact x c = 0.
Proof.
  induction x as [|x0 x IH]; intros [|c0 c] H; try reflexivity.
  inversion H; subst. rewrite dot_exact_cons, IH by assumption. lia.
Qed.

(** X22. A constructed second stage with [1 <= Q <= T] maps silence to
    silence: on an int32 signal whose samples are all zero, [FilterInt32]
    returns only zeros. *)
Theorem FilterInt32_silence (coefs : list Q) (Q0 : Z) (f : Stage2Filter.t)
    (signal_in : ndarray Z) (N : Z) :
  Stage2Filter.__init__ coefs Q0 = Ok f ->
  1 <= Q0 <= len coefs ->
  Forall (fun channel => len channel = N) (atleast_2d signal_in) ->
  Forall (Forall (fun v => v = 0)) (atleast_2d signal_in) ->
  exists out,
    Stage2Filter.FilterInt32 f signal_in = Ok out
    /\ length out = length (atleast_2d signal_in)
    /\ Forall (fun r => len r = N / Q0) out
    /\ Forall (Forall (fun v => v = 0)) out.
Proof.
  intros Hinit HQ Hsig Hzero.
  destruct (Stage2_init_fields _ _ _ Hinit) as (Hd & HT & _).
  rewrite <- Hd, <- HT in HQ.
  destruct (Stage2_FilterInt32_ok _ _ f signal_in N Hinit HQ Hsig)
    as (out & E & Hlen & Hshape & Hval).
  cbv zeta in Hshape, Hval. rewrite Hd in Hshape.
  exists out. split; [exact E|]. split; [exact Hlen|]. split; [exact Hshape|].
  apply Forall_forall. intros r Hr.
  destruct (In_nth out r [] Hr) as (ch & Hch & Er).
  rewrite Hlen in Hch.
  destruct (nth_error (atleast_2d signal_in) ch) as [channel|] eqn:Ech;
    [|apply nth_error_None in Ech; lia].
  assert (Hc0 : Forall (fun v => v = 0) channel).
  { rewrite Forall_forall in Hzero. apply Hzero.
    apply (nth_error_In _ _ Ech). }
  apply Forall_forall. intros v Hv.
  destruct (In_nth r v 0 Hv) as (k & Hk & Ev).
  rewrite Forall_forall in Hshape. pose proof (Hshape r Hr) as Hrl.
  unfold len in Hrl.
  rewrite <- Ev, <- Er.
  replace k with (Z.to_nat (Z.of_nat k)) by apply Nat2Z.id.
  rewrite (Hval ch channel Ech (Z.of_nat k)) by (rewrite Hd; lia).
  rewrite dot_exact_zero_l; [apply rescale_zero|].
  apply Forall_forall. intros x Hx. unfold window in Hx.
  apply window_In in Hx. unfold padded2 in Hx. apply in_app_iff in Hx.
  destruct Hx as [Hx | Hx].
  - apply repeat_spec in Hx. exact Hx.
  - rewrite Forall_forall in Hc0. apply Hc0, Hx.
Qed.

Lemma FilterInt32_silence_witness :
  exists f out,
    Stage2Filter.__init__ [1%Q; (-1 # 2)%Q; (1 # 3)%Q] 2 = Ok f
    /\ Stage2Filter.FilterInt32 f (Arr1 (repeat 0 6)) = Ok out
    /\ Forall (Forall (fun v => v = 0)) out.
Proof.
  destruct (Stage2Filter.__init__ [1%Q; (-1 # 2)%Q; (1 # 3)%Q] 2)
    as [f | e] eqn:E; [|vm_compute in E; discriminate E].
  destruct (FilterInt32_silence _ _ f (Arr1 (repeat 0 6)) 6 E)
    as (out & Eo & _ & _ & Hz).
  - unfold len. cbn [length]. lia.
  - repeat constructor.
  - repeat constructor.
  - exists f, out. repeat split; assumption.
Defined.
